(** * RENEC registry seeding and coverage validation

    A shallow embedding of [packages/db/prisma/seed-renec.ts] (the seed
    pipeline, [pnpm db:seed:renec]) and of the coverage validation script
    ([pnpm db:seed:validate]), together with the properties of the
    reconciliation design that they implement.

    Conventions of the embedding.
    - A JavaScript string is a Rocq [string]: a sequence of bytes holding the
      UTF-8 encoding.  Case mapping, white space and digits are the ASCII
      ones; bytes above 127 are carried through unchanged.
    - [null]/[undefined] of a nullable field is [None].
    - The relational store is a record of tables; a table is the list of its
      rows in insertion order; the identifier of a new row is drawn from a
      counter kept in the store.
    - A store operation does not fail: connection and constraint errors,
      which end the process through the [catch] of [main], are outside the
      embedding.
    - [new Date()] is a clock reading handed to the run.
    - Console output and the [verbose] flag are left out, except for the
      codes that the validator lists. *)

From Stdlib Require Import ZArith QArith Lia List Ascii String Bool.
From Stdlib Require Import PrimFloat Uint63.
From stdpp Require Import base gmap strings list.

Set Warnings "-register-all".
Open Scope string_scope.
Open Scope list_scope.
Open Scope nat_scope.

(** ** JavaScript string primitives *)

Module JS.

(** [String.prototype.toUpperCase], on the ASCII letters. *)
Definition upper_ascii (c : ascii) : ascii :=
  let n := nat_of_ascii c in
  if (97 <=? n)%nat && (n <=? 122)%nat then ascii_of_nat (n - 32) else c.


Fixpoint toUpperCase (s : string) : string :=
  match s with
  | EmptyString => EmptyString
  | String c s' => String (upper_ascii c) (toUpperCase s')
  end.


(** [hay.startsWith(needle)]. *)
Fixpoint startsWith (hay needle : string) {struct needle} : bool :=
  match needle, hay with
  | EmptyString, _ => true
  | String _ _, EmptyString => false
  | String a n', String b h' => if ascii_dec a b then startsWith h' n' else false
  end.

(** [hay.includes(needle)]: [needle] occurs at some offset of [hay]. *)
Fixpoint includes (hay needle : string) : bool :=
  startsWith hay needle ||
  match hay with
  | EmptyString => false
  | String _ h' => includes h' needle
  end.

(** White space of [trim] and of the prefix skipped by [parseInt]:
    TAB, LF, VT, FF, CR and SPACE. *)
Definition is_space (c : ascii) : bool :=
  let n := nat_of_ascii c in
  ((9 <=? n)%nat && (n <=? 13)%nat) || (n =? 32)%nat.

Fixpoint trimStart (s : string) : string :=
  match s with
  | EmptyString => EmptyString
  | String c s' => if is_space c then trimStart s' else s
  end.

(** Drops the trailing white space: a character is kept when it is not a
    space or when something is kept after it. *)
Fixpoint trimEnd (s : string) : string :=
  match s with
  | EmptyString => EmptyString
  | String c s' =>
      match trimEnd s' with
      | EmptyString => if is_space c then EmptyString else String c EmptyString
      | t => String c t
      end
  end.

Definition trim (s : string) : string := trimEnd (trimStart s).

Definition is_digit (c : ascii) : bool :=
  let n := nat_of_ascii c in (48 <=? n)%nat && (n <=? 57)%nat.

Definition digit_val (c : ascii) : Z := Z.of_nat (nat_of_ascii c - 48).

(** The longest prefix of decimal digits, read most significant first;
    [None] when the string does not start with a digit. *)
Fixpoint digits_prefix (acc : option Z) (s : string) : option Z :=
  match s with
  | EmptyString => acc
  | String c s' =>
      if is_digit c
      then digits_prefix (Some (10 * default 0%Z acc + digit_val c)%Z) s'
      else acc
  end.

(** [parseInt(s, 10)]; [None] is [NaN]. *)
Definition parseInt (s : string) : option Z :=
  match trimStart s with
  | String "-" s' => Z.opp <$> digits_prefix None s'
  | String "+" s' => digits_prefix None s'
  | t => digits_prefix None t
  end.

(** The decimal numeral of a number ([String(n)] and template literals),
    for integers. *)
Definition digit_char (d : nat) : ascii := ascii_of_nat (48 + d).

Fixpoint nat_digits (fuel n : nat) (acc : string) : string :=
  match fuel with
  | O => acc
  | S fuel' =>
      let acc' := String (digit_char (n mod 10)) acc in
      if (n <? 10)%nat then acc' else nat_digits fuel' (n / 10) acc'
  end.

Definition string_of_nat (n : nat) : string := nat_digits (S n) n EmptyString.

Definition string_of_Z (z : Z) : string :=
  match z with
  | Zneg _ => String "-" (string_of_nat (Z.abs_nat z))
  | _ => string_of_nat (Z.to_nat z)
  end.

(** Truthiness of a string: the empty string is falsy. *)
Definition truthy (s : string) : bool :=
  match s with EmptyString => false | _ => true end.

(** [s || d] on strings. *)
Definition or_else (s d : string) : string := if truthy s then s else d.

(** [s || null] on strings. *)
Definition or_null (s : string) : option string :=
  if truthy s then Some s else None.

End JS.

(** ** Step 4 helper: the certifier kind *)

Inductive CertifierTipo : Type := ECE | OC.

(** [resolveCertifierTipo].  The argument is [None] for a missing
    ([null]/[undefined]) type field, which [entityType || ""] turns into the
    empty string. *)
Definition resolveCertifierTipo (entityType : option string) : CertifierTipo :=
  let upper := JS.toUpperCase (JS.or_else (default "" entityType) "") in
  if JS.includes upper "OC" || JS.includes upper "GOBIERNO" then OC else ECE.

(** ** JSON values and [JSON.stringify] *)

(** A parsed JSON document.  Numbers are the integral ones (identifiers,
    postal codes, epoch milliseconds); an object keeps its members in source
    order, which is the order [JSON.stringify] and [Object.entries] follow
    for keys that are not array indices. *)
Inductive json : Type :=
| JNull
| JBool (b : bool)
| JNum (z : Z)
| JStr (s : string)
| JArr (items : list json)
| JObj (members : list (string * json)).

Module Json.

(** The double quote character. *)
Definition dquote : ascii := ascii_of_nat 34.

Definition hex_digit (n : nat) : ascii :=
  nth n (list_ascii_of_string "0123456789abcdef") "0"%char.

(** The escape of one character inside a JSON string literal. *)
Definition escape_char (c : ascii) : string :=
  let n := nat_of_ascii c in
  if (n =? 34)%nat then String "\" (String dquote EmptyString)
  else if (n =? 92)%nat then "\\"
  else if (n =? 8)%nat then "\b"
  else if (n =? 9)%nat then "\t"
  else if (n =? 10)%nat then "\n"
  else if (n =? 12)%nat then "\f"
  else if (n =? 13)%nat then "\r"
  else if (n <? 32)%nat
       then "\u00" +:+ String (hex_digit (n / 16)) (String (hex_digit (n mod 16)) "")
       else String c "".

Fixpoint escape (s : string) : string :=
  match s with
  | EmptyString => EmptyString
  | String c s' => escape_char c +:+ escape s'
  end.

Definition quote (s : string) : string :=
  String dquote (escape s) +:+ String dquote EmptyString.

Definition join_comma (parts : list string) : string :=
  match parts with
  | [] => ""
  | p :: ps => foldl (fun acc q => acc +:+ "," +:+ q) p ps
  end.

Fixpoint stringify (j : json) : string :=
  match j with
  | JNull => "null"
  | JBool true => "true"
  | JBool false => "false"
  | JNum z => JS.string_of_Z z
  | JStr s => quote s
  | JArr items => "[" +:+ join_comma (map stringify items) +:+ "]"
  | JObj members =>
      "{" +:+ join_comma (map (fun m => quote (fst m) +:+ ":" +:+ stringify (snd m)) members)
          +:+ "}"
  end.

Definition of_option {A} (f : A -> json) (o : option A) : json :=
  match o with Some a => f a | None => JNull end.

End Json.

(** ** SHA-256 ([createHash("sha256")] of Node's [crypto]) *)

Module Sha256.
Local Open Scope Z_scope.

Definition w32 (x : Z) : Z := x mod 2 ^ 32.
Definition add32 (a b : Z) : Z := w32 (a + b).
Definition rotr (n x : Z) : Z :=
  Z.lor (Z.shiftr x n) (w32 (Z.shiftl x (32 - n))).
Definition shr (n x : Z) : Z := Z.shiftr x n.

Definition Ch (x y z : Z) : Z :=
  Z.lxor (Z.land x y) (Z.land (w32 (Z.lnot x)) z).
Definition Maj (x y z : Z) : Z :=
  Z.lxor (Z.lxor (Z.land x y) (Z.land x z)) (Z.land y z).
Definition Sigma0 (x : Z) : Z := Z.lxor (Z.lxor (rotr 2 x) (rotr 13 x)) (rotr 22 x).
Definition Sigma1 (x : Z) : Z := Z.lxor (Z.lxor (rotr 6 x) (rotr 11 x)) (rotr 25 x).
Definition sigma0 (x : Z) : Z := Z.lxor (Z.lxor (rotr 7 x) (rotr 18 x)) (shr 3 x).
Definition sigma1 (x : Z) : Z := Z.lxor (Z.lxor (rotr 17 x) (rotr 19 x)) (shr 10 x).

(** The round constants and the initial hash value are defined from the
    prime numbers: the first 32 bits of the fractional part of the cube
    root (of the square root, for the initial value) of each prime. *)
Definition is_prime (p : nat) : bool :=
  (2 <=? p)%nat && forallb (fun d => negb (p mod d =? 0)%nat) (seq 2 (p - 2)).

Definition first_primes (n : nat) : list Z :=
  map Z.of_nat (firstn n (List.filter is_prime (seq 2 400))).

(** The integer cube root, one bit at a time from bit 40 down. *)
Definition icbrt (x : Z) : Z :=
  fold_left (fun r b => let r' := r + 2 ^ Z.of_nat b in if r' ^ 3 <=? x then r' else r)
            (rev (seq 0 41)) 0.

Definition K : list Z :=
  Eval vm_compute in map (fun p => icbrt (p * 2 ^ 96) mod 2 ^ 32) (first_primes 64).

Definition H0 : list Z :=
  Eval vm_compute in map (fun p => Z.sqrt (p * 2 ^ 64) mod 2 ^ 32) (first_primes 8).

Definition bytes_of_string (s : string) : list Z :=
  map (fun c => Z.of_nat (nat_of_ascii c)) (list_ascii_of_string s).

(** Big-endian bytes of [x], [n] of them. *)
Fixpoint be_bytes (n : nat) (x : Z) : list Z :=
  match n with
  | O => []
  | S n' => Z.shiftr x (8 * Z.of_nat n') mod 256 :: be_bytes n' x
  end.

(** The message followed by the bit 1, zeros up to 56 modulo 64 bytes, and
    the 64-bit length in bits. *)
Definition pad (msg : list Z) : list Z :=
  let len := Z.of_nat (length msg) in
  let zeros := Z.to_nat ((55 - len) mod 64) in
  msg ++ 0x80 :: repeat 0 zeros ++ be_bytes 8 (8 * len).

Fixpoint words (fuel : nat) (bytes : list Z) : list Z :=
  match fuel, bytes with
  | S fuel', a :: b :: c :: d :: rest =>
      (Z.shiftl a 24 + Z.shiftl b 16 + Z.shiftl c 8 + d) :: words fuel' rest
  | _, _ => []
  end.

(** The message schedule, latest word first: [rev_w] holds W(t-1), W(t-2), ... *)
Fixpoint schedule (n : nat) (rev_w : list Z) : list Z :=
  match n with
  | O => rev_w
  | S n' =>
      let w := add32 (add32 (sigma1 (nth 1 rev_w 0)) (nth 6 rev_w 0))
                     (add32 (sigma0 (nth 14 rev_w 0)) (nth 15 rev_w 0)) in
      schedule n' (w :: rev_w)
  end.

Definition round (st : list Z) (kw : Z * Z) : list Z :=
  match st with
  | [a; b; c; d; e; f; g; h] =>
      let t1 := add32 (add32 (add32 h (Sigma1 e)) (add32 (Ch e f g) (fst kw))) (snd kw) in
      let t2 := add32 (Sigma0 a) (Maj a b c) in
      [add32 t1 t2; a; b; c; add32 d t1; e; f; g]
  | _ => st
  end.

Definition compress (h : list Z) (block : list Z) : list Z :=
  let w := rev (schedule 48 (rev block)) in
  let st := fold_left round (combine K w) h in
  map (fun p => add32 (fst p) (snd p)) (combine h st).

Fixpoint blocks (fuel : nat) (ws : list Z) : list (list Z) :=
  match fuel, ws with
  | S fuel', _ :: _ => firstn 16 ws :: blocks fuel' (skipn 16 ws)
  | _, _ => []
  end.

Definition digest_words (msg : list Z) : list Z :=
  let bytes := pad msg in
  let ws := words (length bytes) bytes in
  fold_left compress (blocks (length ws) ws) H0.

(** One 32-bit word as eight lower-case hexadecimal digits. *)
Definition hex_word (w : Z) : list ascii :=
  map (fun i => Json.hex_digit (Z.to_nat (Z.shiftr w (4 * Z.of_nat i) mod 16)))
      [7; 6; 5; 4; 3; 2; 1; 0]%nat.

(** [createHash("sha256").update(s).digest("hex")]. *)
Definition hex_digest (s : string) : string :=
  string_of_list_ascii (concat (map hex_word (digest_words (bytes_of_string s)))).

End Sha256.

(** [contentHash]: the first 16 hexadecimal digits of the SHA-256 digest of
    the record's JSON text. *)
Definition contentHash (obj : json) : string :=
  substring 0 16 (Sha256.hex_digest (Json.stringify obj)).

(** ** The extracted files

    The interfaces of the JSON files under [renec-client/data/extracted].
    A string field that the code only reads through [|| default] is a
    [string], a missing value being the empty one. *)

(** [ExtractedEC]: one record of [ec_standards_api.json]. *)
Record ExtractedEC : Type := {
  idEstandarCompetencia : string;
  idSectorProductivo : string;
  codigo : string;
  nivel : string;
  titulo : string;
  comite : string;
  secProductivo : string
}.

(** One entry of [ec_ece_matrix.json]'s [matrix]. *)
Record MatrixEntry : Type := {
  ece_ids : list string;
  ece_count : Z;
  title : string
}.

(** [ECECEMatrixFile]; [matrix] lists the object's members in source order. *)
Record ECECEMatrixFile : Type := {
  mx_generated_at : string;
  total_ecs : Z;
  matrix : option (list (string * MatrixEntry))
}.

(** [ExtractedCertifier]: one record of [master_ece_registry.json]. *)
Record ExtractedCertifier : Type := {
  cert_id : string;
  cert_canonical_name : string;
  cert_alternate_names : option (list string);
  cert_normalized_key : option string;
  entity_type : option string;
  cert_ec_codes : list string
}.

Record CertifierRegistryFile : Type := {
  certs_generated_at : string;
  certs_total_count : Z;
  cert_registry : option (list ExtractedCertifier)
}.

(** [ExtractedCenter]: one record of [master_ccap_registry.json]. *)
Record ExtractedCenter : Type := {
  center_id : string;
  center_canonical_name : string;
  center_alternate_names : option (list string);
  center_normalized_key : option string;
  ec_codes : list string;
  ec_count : Z
}.

Record CenterRegistryFile : Type := {
  centers_generated_at : string;
  centers_total_count : Z;
  center_registry : option (list ExtractedCenter)
}.

Record EstandarAsociado : Type := {
  ea_codigo : string;
  ea_titulo : string
}.

(** [ExtractedCommittee]: one record of [committees_complete.json]. *)
Record ExtractedCommittee : Type := {
  clave : string;
  nombre : string;
  presidente : option string;
  vicepresidente : option string;
  calleNumero : option string;
  colonia : option string;
  codigoPostal : option Z;
  localidad : option string;
  telefonos : option string;
  correo : option string;
  url : option string;
  com_idSectorProductivo : option Z;
  sectorProductivoStr : option string;
  puestoPresidente : option string;
  puestoVicepresidente : option string;
  fechaIntegracion : option Z;
  idTipoComite : option Z;
  contacto : option string;
  delegacionStr : option string;
  entidadStr : option string;
  estandaresAsociados : option (list EstandarAsociado);
  com_id : Z
}.

(** One entry of [ec_certifiers_all.json]'s [ec_details]. *)
Record ECDetail : Type := {
  det_title : string;
  det_certifiers : list string;
  courses : option (list string);
  occupations : option (list string);
  committee_members : option (list string)
}.

Record ECCertifiersAllFile : Type := {
  extraction_date : string;
  failed_ecs : list string;
  ec_details : list (string * ECDetail)
}.

(** The JSON value of each record, members in the order of its interface:
    what [JSON.stringify] sees when [contentHash] is applied to it. *)
Module ToJson.
Definition str_opt : option string -> json := Json.of_option JStr.
Definition num_opt : option Z -> json := Json.of_option JNum.
Definition strs (l : list string) : json := JArr (map JStr l).

Definition of_ec (ec : ExtractedEC) : json :=
  JObj [ ("idEstandarCompetencia", JStr (idEstandarCompetencia ec));
         ("idSectorProductivo", JStr (idSectorProductivo ec));
         ("codigo", JStr (codigo ec));
         ("nivel", JStr (nivel ec));
         ("titulo", JStr (titulo ec));
         ("comite", JStr (comite ec));
         ("secProductivo", JStr (secProductivo ec)) ].

Definition of_certifier (c : ExtractedCertifier) : json :=
  JObj [ ("id", JStr (cert_id c));
         ("canonical_name", JStr (cert_canonical_name c));
         ("alternate_names", Json.of_option strs (cert_alternate_names c));
         ("normalized_key", str_opt (cert_normalized_key c));
         ("entity_type", str_opt (entity_type c));
         ("ec_codes", strs (cert_ec_codes c)) ].

Definition of_center (c : ExtractedCenter) : json :=
  JObj [ ("id", JStr (center_id c));
         ("canonical_name", JStr (center_canonical_name c));
         ("alternate_names", Json.of_option strs (center_alternate_names c));
         ("normalized_key", str_opt (center_normalized_key c));
         ("ec_codes", strs (ec_codes c));
         ("ec_count", JNum (ec_count c)) ].

Definition of_estandar (ea : EstandarAsociado) : json :=
  JObj [ ("codigo", JStr (ea_codigo ea)); ("titulo", JStr (ea_titulo ea)) ].

Definition of_committee (c : ExtractedCommittee) : json :=
  JObj [ ("clave", JStr (clave c));
         ("nombre", JStr (nombre c));
         ("presidente", str_opt (presidente c));
         ("vicepresidente", str_opt (vicepresidente c));
         ("calleNumero", str_opt (calleNumero c));
         ("colonia", str_opt (colonia c));
         ("codigoPostal", num_opt (codigoPostal c));
         ("localidad", str_opt (localidad c));
         ("telefonos", str_opt (telefonos c));
         ("correo", str_opt (correo c));
         ("url", str_opt (url c));
         ("idSectorProductivo", num_opt (com_idSectorProductivo c));
         ("sectorProductivoStr", str_opt (sectorProductivoStr c));
         ("puestoPresidente", str_opt (puestoPresidente c));
         ("puestoVicepresidente", str_opt (puestoVicepresidente c));
         ("fechaIntegracion", num_opt (fechaIntegracion c));
         ("idTipoComite", num_opt (idTipoComite c));
         ("contacto", str_opt (contacto c));
         ("delegacionStr", str_opt (delegacionStr c));
         ("entidadStr", str_opt (entidadStr c));
         ("estandaresAsociados",
          Json.of_option (fun l => JArr (map of_estandar l)) (estandaresAsociados c));
         ("id", JNum (com_id c)) ].
End ToJson.

(** ** The relational store

    The tables the pipeline writes.  Columns that the seed never writes
    (address and contact columns of certifiers and centers, [descripcion],
    [created_at], ...) are left out.  A canonical identity is a number drawn
    from [nextId]; it stands for the generated UUID, so it is always a
    truthy value in the code's [if (!id)] tests. *)

Definition Id : Type := nat.
Definition Date : Type := Z.

Definition sourceUrl : string := "https://conocer.gob.mx/conocer/#/renec".

(** A row of an entity table: canonical identity, natural key, the columns
    written by the upsert, and the time of the last sync. *)
Record Row (K D : Type) : Type := mkRow {
  row_id : Id;
  row_key : K;
  row_data : D;
  lastSyncedAt : Date
}.
Arguments mkRow {K D} _ _ _ _.
Arguments row_id {K D} _.
Arguments row_key {K D} _.
Arguments row_data {K D} _.
Arguments lastSyncedAt {K D} _.

Record SectorData : Type := {
  sec_nombre : string;
  sec_tipo : string;
  sec_sourceUrl : string;
  sec_contentHash : string
}.

Record CommitteeData : Type := {
  c_nombre : string;
  c_presidente : option string;
  c_vicepresidente : option string;
  c_puestoPresidente : option string;
  c_puestoVicepresidente : option string;
  c_contacto : option string;
  c_correo : option string;
  c_telefonos : option string;
  c_url : option string;
  c_calleNumero : option string;
  c_colonia : option string;
  c_codigoPostal : option string;
  c_localidad : option string;
  c_delegacion : option string;
  c_entidad : option string;
  c_fechaIntegracion : option Date;
  c_idTipoComite : option Z;
  c_sectorId : option Id;
  c_sourceUrl : string;
  c_contentHash : string
}.

Record ECData : Type := {
  e_titulo : string;
  e_version : string;
  e_vigente : bool;
  e_sector : option string;
  e_nivelCompetencia : option Z;
  e_proposito : option string;
  e_committeeId : option Id;
  e_sectorId : option Id;
  e_competencias : json;
  e_elementosJson : list json;
  e_critDesempeno : list json;
  e_critConocimiento : list json;
  e_critProducto : list json;
  e_sourceUrl : string;
  e_contentHash : string
}.

Record CertifierData : Type := {
  razonSocial : string;
  nombreComercial : option string;
  cert_activo : bool;
  tipo : CertifierTipo;
  cert_alternateNames : list string;
  cert_normalizedKey : option string;
  cert_sourceUrl : string;
  cert_contentHash : string
}.

Record CenterData : Type := {
  center_nombre : string;
  center_activo : bool;
  center_alternateNames : list string;
  center_normalizedKey : option string;
  center_sourceUrl : string;
  center_contentHash : string
}.

(** A row of a join table: its own identity, the pair that is unique in
    the table, and the flag column set at creation. *)
Record JoinRow (P F : Type) : Type := mkJoin {
  join_id : Id;
  join_pair : P;
  join_flag : F
}.
Arguments mkJoin {P F} _ _ _.
Arguments join_id {P F} _.
Arguments join_pair {P F} _.
Arguments join_flag {P F} _.

(** An occupation pair [(ecId, occupation)]. *)
Definition OccupationPair : Type := (Id * string)%type.
(** An accreditation pair, as [{ ecId, certifierId }]. *)
Record AccPair : Type := { acc_ecId : Id; acc_certifierId : Id }.
(** An offering pair, as [{ centerId, ecId }]. *)
Record OfferPair : Type := { off_centerId : Id; off_ecId : Id }.

Inductive JobStatus : Type := PENDING | RUNNING | COMPLETED | FAILED.

Record SyncJobRow : Type := {
  job_id : Id;
  jobType : string;
  status : JobStatus;
  startedAt : Date;
  completedAt : Date;
  itemsProcessed : nat;
  itemsCreated : nat;
  itemsUpdated : nat;
  itemsSkipped : nat;
  errors : list string
}.

Record Store : Type := mkStore {
  renecSector : list (Row Z SectorData);
  renecCommittee : list (Row string CommitteeData);
  renecEC : list (Row string ECData);
  renecCertifier : list (Row string CertifierData);
  renecCenter : list (Row string CenterData);
  renecECOccupation : list (JoinRow OccupationPair unit);
  renecAccreditation : list (JoinRow AccPair bool);
  renecCenterOffering : list (JoinRow OfferPair bool);
  renecSyncJob : list SyncJobRow;
  nextId : Id
}.

Definition emptyStore : Store :=
  mkStore [] [] [] [] [] [] [] [] [] 0.

#[global] Instance AccPair_eq_dec : EqDecision AccPair.
Proof. solve_decision. Defined.
#[global] Instance OfferPair_eq_dec : EqDecision OfferPair.
Proof. solve_decision. Defined.

(** *** Table primitives *)

Section EntityTable.
Context {K D : Type} `{EqDecision K}.

(** The [update] branch of an upsert: the row of key [k] gets the new
    columns and keeps its identity and place.  The key is unique in the
    table; were it not, the update would reach every row of that key, as
    an [UPDATE ... WHERE] does. *)
Definition touch (k : K) (d : D) (now : Date) (r : Row K D) : Row K D :=
  if decide (row_key r = k) then mkRow (row_id r) k d now else r.

(** [upsert({ where: { key }, update: data, create: { key, ...data } })]
    on a table and the identity supply; returns the written row first. *)
Definition table_upsert (k : K) (d : D) (now : Date)
    (t : list (Row K D)) (next : Id) : Row K D * list (Row K D) * Id :=
  match List.find (fun r => bool_decide (row_key r = k)) t with
  | Some r0 => (mkRow (row_id r0) k d now, map (touch k d now) t, next)
  | None => let r := mkRow next k d now in (r, t ++ [r], S next)
  end.
End EntityTable.

Section JoinTable.
Context {P F : Type} `{EqDecision P}.

Definition has_pair (p : P) (t : list (JoinRow P F)) : bool :=
  existsb (fun r => bool_decide (join_pair r = p)) t.

(** Modelled from the spec: the unique index of a join table, which the
    Prisma schema declares and the sources do not include; the data model
    gives the pair as the uniqueness of each join relation.  With it, one
    row of [createMany({ data, skipDuplicates: true })] is skipped when its
    pair is already in the table and appended otherwise.  The state is the
    table, the identity supply and the count of created rows. *)
Definition insert_skip (flag : F) (st : list (JoinRow P F) * Id * nat) (p : P)
  : list (JoinRow P F) * Id * nat :=
  let '(t, next, count) := st in
  if has_pair p t then (t, next, count)
  else (t ++ [mkJoin next p flag], S next, S count).

(** [createMany] with [skipDuplicates]; returns [{ count }] first. *)
Definition table_createMany (flag : F) (ps : list P)
    (t : list (JoinRow P F)) (next : Id) : nat * list (JoinRow P F) * Id :=
  let '(t', next', count) := foldl (insert_skip flag) (t, next, 0) ps in
  (count, t', next').
End JoinTable.

(** ** The Prisma client

    A store operation is a state transformer; [await] is sequencing. *)

Definition M (A : Type) : Type := Store -> A * Store.

Definition ret {A} (a : A) : M A := fun db => (a, db).

Definition bind {A B} (c : M A) (k : A -> M B) : M B :=
  fun db => let '(a, db') := c db in k a db'.

Notation "'let*' x ':=' c 'in' k" := (bind c (fun x => k))
  (at level 10, x name, c at level 100, k at level 200).

(** A model of the client ([prisma.renecEC], ...): how to read and replace
    its table in the store. *)
Record Table (R : Type) : Type := mkTable {
  view : Store -> list R;
  put : list R -> Store -> Store
}.
Arguments mkTable {R} _ _.
Arguments view {R} _ _.
Arguments put {R} _ _ _.

Definition set_nextId (n : Id) (db : Store) : Store :=
  mkStore (renecSector db) (renecCommittee db) (renecEC db) (renecCertifier db)
          (renecCenter db) (renecECOccupation db) (renecAccreditation db)
          (renecCenterOffering db) (renecSyncJob db) n.

Definition put_renecSector (t : list (Row Z SectorData))
    (db : Store) : Store :=
  mkStore t (renecCommittee db) (renecEC db) (renecCertifier db)
          (renecCenter db) (renecECOccupation db) (renecAccreditation db)
          (renecCenterOffering db) (renecSyncJob db) (nextId db).

Definition put_renecCommittee (t : list (Row string CommitteeData))
    (db : Store) : Store :=
  mkStore (renecSector db) t (renecEC db) (renecCertifier db) (renecCenter db)
          (renecECOccupation db) (renecAccreditation db)
          (renecCenterOffering db) (renecSyncJob db) (nextId db).

Definition put_renecEC (t : list (Row string ECData))
    (db : Store) : Store :=
  mkStore (renecSector db) (renecCommittee db) t (renecCertifier db)
          (renecCenter db) (renecECOccupation db) (renecAccreditation db)
          (renecCenterOffering db) (renecSyncJob db) (nextId db).

Definition put_renecCertifier (t : list (Row string CertifierData))
    (db : Store) : Store :=
  mkStore (renecSector db) (renecCommittee db) (renecEC db) t (renecCenter db)
          (renecECOccupation db) (renecAccreditation db)
          (renecCenterOffering db) (renecSyncJob db) (nextId db).

Definition put_renecCenter (t : list (Row string CenterData))
    (db : Store) : Store :=
  mkStore (renecSector db) (renecCommittee db) (renecEC db)
          (renecCertifier db) t (renecECOccupation db) (renecAccreditation db)
          (renecCenterOffering db) (renecSyncJob db) (nextId db).

Definition put_renecECOccupation (t : list (JoinRow OccupationPair unit))
    (db : Store) : Store :=
  mkStore (renecSector db) (renecCommittee db) (renecEC db)
          (renecCertifier db) (renecCenter db) t (renecAccreditation db)
          (renecCenterOffering db) (renecSyncJob db) (nextId db).

Definition put_renecAccreditation (t : list (JoinRow AccPair bool))
    (db : Store) : Store :=
  mkStore (renecSector db) (renecCommittee db) (renecEC db)
          (renecCertifier db) (renecCenter db) (renecECOccupation db) t
          (renecCenterOffering db) (renecSyncJob db) (nextId db).

Definition put_renecCenterOffering (t : list (JoinRow OfferPair bool))
    (db : Store) : Store :=
  mkStore (renecSector db) (renecCommittee db) (renecEC db)
          (renecCertifier db) (renecCenter db) (renecECOccupation db)
          (renecAccreditation db) t (renecSyncJob db) (nextId db).

Definition put_renecSyncJob (t : list (SyncJobRow))
    (db : Store) : Store :=
  mkStore (renecSector db) (renecCommittee db) (renecEC db)
          (renecCertifier db) (renecCenter db) (renecECOccupation db)
          (renecAccreditation db) (renecCenterOffering db) t (nextId db).

Module prisma.
Definition renecSector : Table (Row Z SectorData) :=
  mkTable renecSector put_renecSector.
Definition renecCommittee : Table (Row string CommitteeData) :=
  mkTable renecCommittee put_renecCommittee.
Definition renecEC : Table (Row string ECData) :=
  mkTable renecEC put_renecEC.
Definition renecCertifier : Table (Row string CertifierData) :=
  mkTable renecCertifier put_renecCertifier.
Definition renecCenter : Table (Row string CenterData) :=
  mkTable renecCenter put_renecCenter.
Definition renecECOccupation : Table (JoinRow OccupationPair unit) :=
  mkTable renecECOccupation put_renecECOccupation.
Definition renecAccreditation : Table (JoinRow AccPair bool) :=
  mkTable renecAccreditation put_renecAccreditation.
Definition renecCenterOffering : Table (JoinRow OfferPair bool) :=
  mkTable renecCenterOffering put_renecCenterOffering.
Definition renecSyncJob : Table SyncJobRow :=
  mkTable renecSyncJob put_renecSyncJob.
End prisma.

(** [model.upsert]. *)
Definition upsert {K D} `{EqDecision K} (T : Table (Row K D))
    (k : K) (d : D) (now : Date) : M (Row K D) :=
  fun db =>
    let '(r, t, n) := table_upsert k d now (view T db) (nextId db) in
    (r, set_nextId n (put T t db)).

(** [model.createMany({ data, skipDuplicates: true })]; returns the count. *)
Definition createMany {P F} `{EqDecision P} (T : Table (JoinRow P F))
    (flag : F) (ps : list P) : M nat :=
  fun db =>
    let '(c, t, n) := table_createMany flag ps (view T db) (nextId db) in
    (c, set_nextId n (put T t db)).

(** [model.findMany()] and [model.count()]. *)
Definition findMany {R} (T : Table R) : M (list R) := fun db => (view T db, db).
Definition count {R} (T : Table R) : M nat := fun db => (length (view T db), db).

(** [prisma.$transaction(ops)]: the operations in order, their results in
    order. *)
Fixpoint transaction {A} (ops : list (M A)) : M (list A) :=
  match ops with
  | [] => ret []
  | op :: ops' => let* a := op in let* rest := transaction ops' in ret (a :: rest)
  end.

(** [items.slice(i, j)]. *)
Definition slice {A} (i j : nat) (items : list A) : list A :=
  take (j - i) (drop i items).

(** [for (let i = 0; i < items.length; i += size) { batch = items.slice(i, i + size); ... }]
    with the loop's variables threaded as [acc].  The loop runs at most
    [items.length] times for a positive [size], which is the fuel. *)
Fixpoint forBatches_from {A S} (fuel size i : nat) (items : list A)
    (body : nat -> list A -> S -> M S) (acc : S) : M S :=
  match fuel with
  | O => ret acc
  | Datatypes.S fuel' =>
      if i <? length items
      then let* acc' := body i (slice i (i + size) items) acc in
           forBatches_from fuel' size (i + size) items body acc'
      else ret acc
  end.

Definition forBatches {A S} (size : nat) (items : list A)
    (body : nat -> list A -> S -> M S) (acc : S) : M S :=
  forBatches_from (length items) size 0 items body acc.

(** [new Map(rows.map(r => [r.key, r.id]))] and the loops
    [for (const r of results) lookup.set(r.key, r.id)]. *)
Definition index_rows {K D} `{Countable K} (lookup : gmap K Id)
    (rows : list (Row K D)) : gmap K Id :=
  foldl (fun m r => <[row_key r := row_id r]> m) lookup rows.

(** ** Step 1: sectors *)

(** The [sectorMap] built from the standards: the first name seen for each
    sector number, in order of first appearance. *)
Definition add_sector (sectorMap : list (Z * string)) (ec : ExtractedEC)
  : list (Z * string) :=
  match JS.parseInt (idSectorProductivo ec) with
  | Some sectorIdInt =>
      if existsb (fun e => Z.eqb (fst e) sectorIdInt) sectorMap
      then sectorMap
      else sectorMap ++
           [(sectorIdInt,
             JS.or_else (secProductivo ec) ("Sector " +:+ JS.string_of_Z sectorIdInt))]
  | None => sectorMap
  end.

Definition sectorData (sectorIdInt : Z) (nombre : string) : SectorData :=
  {| sec_nombre := nombre;
     sec_tipo := "productivo";
     sec_sourceUrl := sourceUrl;
     sec_contentHash :=
       contentHash (JObj [("sectorId", JNum sectorIdInt); ("nombre", JStr nombre)]) |}.

Definition seedSectors (ecStandards : list ExtractedEC) (now : Date)
  : M (gmap Z Id) :=
  let sectorMap := foldl add_sector [] ecStandards in
  let BATCH_SIZE := 50 in
  let entries := sectorMap in
  forBatches BATCH_SIZE entries
    (fun i batch sectorLookup =>
       let* results :=
         transaction
           (map (fun e => upsert prisma.renecSector (fst e)
                            (sectorData (fst e) (snd e)) now) batch) in
       ret (index_rows sectorLookup results))
    ∅.

(** ** Step 2: committees *)

Definition committeeData (sectorLookup : gmap Z Id) (committee : ExtractedCommittee)
  : CommitteeData :=
  let sectorDbId :=
    match com_idSectorProductivo committee with
    | Some sid => sectorLookup !! sid
    | None => None
    end in
  {| c_nombre := JS.or_else (nombre committee) "";
     c_presidente := presidente committee;
     c_vicepresidente := vicepresidente committee;
     c_puestoPresidente := puestoPresidente committee;
     c_puestoVicepresidente := puestoVicepresidente committee;
     c_contacto := contacto committee;
     c_correo := correo committee;
     c_telefonos := telefonos committee;
     c_url := url committee;
     c_calleNumero := calleNumero committee;
     c_colonia := colonia committee;
     c_codigoPostal := JS.string_of_Z <$> codigoPostal committee;
     c_localidad := localidad committee;
     c_delegacion := delegacionStr committee;
     c_entidad := entidadStr committee;
     c_fechaIntegracion := fechaIntegracion committee;
     c_idTipoComite := idTipoComite committee;
     c_sectorId := sectorDbId;
     c_sourceUrl := sourceUrl;
     c_contentHash := contentHash (ToJson.of_committee committee) |}.

Definition seedCommittees (committees : list ExtractedCommittee)
    (sectorLookup : gmap Z Id) (now : Date) : M (gmap string Id) :=
  let BATCH_SIZE := 50 in
  forBatches BATCH_SIZE committees
    (fun i batch committeeLookup =>
       let* results :=
         transaction
           (map (fun committee =>
                   upsert prisma.renecCommittee (clave committee)
                     (committeeData sectorLookup committee) now) batch) in
       ret (index_rows committeeLookup results))
    ∅.

(** ** Step 3: standards *)

(** The inner loops of [buildEcToCommitteeKeyIndex]: every associated
    standard with a non-empty code is bound to the committee's key, a later
    binding replacing an earlier one. *)
Definition index_committee (cache : gmap string string) (committee : ExtractedCommittee)
  : gmap string string :=
  foldl (fun m ea =>
           if JS.truthy (ea_codigo ea) then <[ea_codigo ea := clave committee]> m else m)
        cache (default [] (estandaresAsociados committee)).

(** [buildEcToCommitteeKeyIndex], with the module-level
    [_ecToCommitteeKeyCache] as an explicit state: the returned map and the
    cache after the call. *)
Definition buildEcToCommitteeKeyIndex (committees : list ExtractedCommittee)
    (_ecToCommitteeKeyCache : option (gmap string string))
  : gmap string string * option (gmap string string) :=
  match _ecToCommitteeKeyCache with
  | Some cache => (cache, Some cache)
  | None =>
      let cache := foldl index_committee ∅ committees in
      (cache, Some cache)
  end.

Definition null_of (s : string) : json :=
  if JS.truthy s then JStr s else JNull.

Definition null_of_opt (o : option string) : json :=
  match o with Some s => null_of s | None => JNull end.

Definition buildCompetenciasJson (ec : ExtractedEC)
    (committee : option ExtractedCommittee) (ecDetail : option ECDetail) : json :=
  JObj
    ([ ("comite", null_of (comite ec));
       ("idSectorProductivo", null_of (idSectorProductivo ec));
       ("idEstandarCompetencia", null_of (idEstandarCompetencia ec)) ]
     ++ match committee with
        | Some committee =>
            [ ("committeeKey", null_of (clave committee));
              ("committeeName", null_of (nombre committee));
              ("committeePresident", null_of_opt (presidente committee));
              ("committeeContact", null_of_opt (correo committee));
              ("committeeSector", null_of_opt (sectorProductivoStr committee));
              ("committeeState", null_of_opt (entidadStr committee)) ]
        | None => []
        end
     ++ match ecDetail with
        | Some ecDetail =>
            [ ("occupations", ToJson.strs (default [] (occupations ecDetail)));
              ("courses", ToJson.strs (default [] (courses ecDetail)));
              ("committeeMembers", ToJson.strs (default [] (committee_members ecDetail))) ]
        | None => []
        end).

(** [obj[key]] on the members of a parsed object. *)
Definition member {A} (key : string) (members : list (string * A)) : option A :=
  snd <$> List.find (fun m => bool_decide (fst m = key)) members.

(** The columns written for one standard.  A [nivel] that is not a number
    is stored as no value. *)
Definition ecData (committees : list ExtractedCommittee)
    (ecDetailsLookup : option (list (string * ECDetail)))
    (sectorLookup : gmap Z Id) (committeeLookup : gmap string Id)
    (ecToCommitteeKey : gmap string string) (ec : ExtractedEC) : ECData :=
  let ecClave := codigo ec in
  let committeeKey := ecToCommitteeKey !! ecClave in
  let committeeDbId :=
    match committeeKey with
    | Some key => if JS.truthy key then committeeLookup !! key else None
    | None => None
    end in
  let sectorDbId :=
    match JS.parseInt (idSectorProductivo ec) with
    | Some sectorIdInt => sectorLookup !! sectorIdInt
    | None => None
    end in
  let ecDetail :=
    match ecDetailsLookup with
    | Some details => member ecClave details
    | None => None
    end in
  let committeeData :=
    match committeeKey with
    | Some key =>
        if JS.truthy key
        then List.find (fun c => bool_decide (clave c = key)) committees
        else None
    | None => None
    end in
  {| e_titulo := JS.or_else (titulo ec) "";
     e_version := "01";
     e_vigente := true;
     e_sector := JS.or_null (secProductivo ec);
     e_nivelCompetencia := if JS.truthy (nivel ec) then JS.parseInt (nivel ec) else None;
     e_proposito := None;
     e_committeeId := committeeDbId;
     e_sectorId := sectorDbId;
     e_competencias := buildCompetenciasJson ec committeeData ecDetail;
     e_elementosJson := [];
     e_critDesempeno := [];
     e_critConocimiento := [];
     e_critProducto := [];
     e_sourceUrl := sourceUrl;
     e_contentHash := contentHash (ToJson.of_ec ec) |}.

(** One operation of a standards batch: the upsert, or the no-op
    [SELECT 1] (whose result carries no [ecClave]) for a record without
    code. *)
Definition ecOp (data : ExtractedEC -> ECData) (now : Date) (ec : ExtractedEC)
  : M (option (Row string ECData)) :=
  let ecClave := codigo ec in
  if negb (JS.truthy ecClave) then ret None
  else let* r := upsert prisma.renecEC ecClave (data ec) now in ret (Some r).

(** The occupation pairs of the resolved standards: trimmed, non-empty
    labels, in the order of the detail file. *)
Definition occupationPairs_of (ecDetailsLookup : list (string * ECDetail))
    (ecDbIds : gmap string Id) : list OccupationPair :=
  flat_map
    (fun entry =>
       match ecDbIds !! fst entry with
       | None => []
       | Some ecDbId =>
           flat_map
             (fun occupation =>
                if JS.truthy occupation && (0 <? String.length (JS.trim occupation))
                then [(ecDbId, JS.trim occupation)]
                else [])
             (default [] (occupations (snd entry)))
       end)
    ecDetailsLookup.

Record ECResult : Type := {
  ec_created : nat;
  ec_updated : nat;
  ec_skipped : nat
}.

Definition seedECStandards (ecStandards : list ExtractedEC)
    (committees : list ExtractedCommittee)
    (ecDetailsLookup : option (list (string * ECDetail)))
    (sectorLookup : gmap Z Id) (committeeLookup : gmap string Id) (now : Date)
    (_ecToCommitteeKeyCache : option (gmap string string))
  : M (ECResult * option (gmap string string)) :=
  let updated := 0 in
  let skipped := 0 in
  let '(ecToCommitteeKey, cache') :=
    buildEcToCommitteeKeyIndex committees _ecToCommitteeKeyCache in
  let BATCH_SIZE := 100 in
  let data := ecData committees ecDetailsLookup sectorLookup committeeLookup
                     ecToCommitteeKey in
  let* loop :=
    forBatches BATCH_SIZE ecStandards
      (fun i batch st =>
         let* results := transaction (map (ecOp data now) batch) in
         let ecDbIds := index_rows (fst st) (omap id results) in
         ret (ecDbIds, snd st + length batch))
      (∅, 0) in
  let ecDbIds := fst loop in
  let created := snd loop in
  let* _ :=
    match ecDetailsLookup with
    | Some details =>
        let occupationPairs := occupationPairs_of details ecDbIds in
        let OCC_BATCH_SIZE := 200 in
        forBatches OCC_BATCH_SIZE occupationPairs
          (fun i batch totalOccupations =>
             let* result := createMany prisma.renecECOccupation tt batch in
             ret (totalOccupations + result))
          0
    | None => ret 0
    end in
  ret ({| ec_created := created; ec_updated := updated; ec_skipped := skipped |}, cache').

(** ** Steps 4 and 5: certifiers and centers *)

Definition certifierData (cert : ExtractedCertifier) : CertifierData :=
  {| razonSocial := JS.or_else (cert_canonical_name cert) "";
     nombreComercial := None;
     cert_activo := true;
     tipo := resolveCertifierTipo (entity_type cert);
     cert_alternateNames := default [] (cert_alternate_names cert);
     cert_normalizedKey := cert_normalized_key cert;
     cert_sourceUrl := sourceUrl;
     cert_contentHash := contentHash (ToJson.of_certifier cert) |}.

Definition seedCertifiers (registry : list ExtractedCertifier) (now : Date) : M nat :=
  let BATCH_SIZE := 50 in
  forBatches BATCH_SIZE registry
    (fun i batch processed =>
       let* _ :=
         transaction
           (map (fun cert => upsert prisma.renecCertifier (cert_id cert)
                               (certifierData cert) now) batch) in
       ret (processed + length batch))
    0.

Definition centerData (center : ExtractedCenter) : CenterData :=
  {| center_nombre := JS.or_else (center_canonical_name center) "";
     center_activo := true;
     center_alternateNames := default [] (center_alternate_names center);
     center_normalizedKey := center_normalized_key center;
     center_sourceUrl := sourceUrl;
     center_contentHash := contentHash (ToJson.of_center center) |}.

Definition seedCenters (registry : list ExtractedCenter) (now : Date) : M nat :=
  let BATCH_SIZE := 50 in
  forBatches BATCH_SIZE registry
    (fun i batch processed =>
       let* _ :=
         transaction
           (map (fun center => upsert prisma.renecCenter (center_id center)
                                 (centerData center) now) batch) in
       ret (processed + length batch))
    0.

(** ** Steps 6 and 7: the relationship graph *)

Record JoinResult : Type := {
  created : nat;
  skipped : Z
}.

(** The inner loop of the accreditation pass over one matrix entry whose
    standard resolved to [ecId]: the state is the pairs collected so far and
    the [skipped] counter. *)
Definition acc_entry (certLookup : gmap string Id) (ecId : Id)
    (st : list AccPair * nat) (eceId : string) : list AccPair * nat :=
  match certLookup !! eceId with
  | None => (fst st, S (snd st))
  | Some certifierId =>
      (fst st ++ [{| acc_ecId := ecId; acc_certifierId := certifierId |}], snd st)
  end.

(** The outer loop: an entry whose standard does not resolve is passed over
    ([continue]) without counting. *)
Definition acc_collect (ecLookup certLookup : gmap string Id)
    (st : list AccPair * nat) (entry : string * MatrixEntry) : list AccPair * nat :=
  match ecLookup !! fst entry with
  | None => st
  | Some ecId => foldl (acc_entry certLookup ecId) st (ece_ids (snd entry))
  end.

Definition seedAccreditations (matrix : list (string * MatrixEntry)) : M JoinResult :=
  let* allECs := findMany prisma.renecEC in
  let ecLookup := index_rows ∅ allECs in
  let* allCerts := findMany prisma.renecCertifier in
  let certLookup := index_rows ∅ allCerts in
  let collected := foldl (acc_collect ecLookup certLookup) ([], 0) matrix in
  let pairs := fst collected in
  let skipped := snd collected in
  let BATCH_SIZE := 200 in
  let* created :=
    forBatches BATCH_SIZE pairs
      (fun i batch created =>
         let* result := createMany prisma.renecAccreditation true batch in
         ret (created + result))
      0 in
  (* skipped = pairs.length - created; the counter of the loop is dropped *)
  let skipped := (Z.of_nat (length pairs) - Z.of_nat created)%Z in
  ret {| created := created; skipped := skipped |}.

Definition offer_entry (ecLookup : gmap string Id) (centerDbId : Id)
    (st : list OfferPair * nat) (ecCode : string) : list OfferPair * nat :=
  match ecLookup !! ecCode with
  | None => (fst st, S (snd st))
  | Some ecId =>
      (fst st ++ [{| off_centerId := centerDbId; off_ecId := ecId |}], snd st)
  end.

Definition offer_collect (ecLookup centerLookup : gmap string Id)
    (st : list OfferPair * nat) (center : ExtractedCenter) : list OfferPair * nat :=
  match centerLookup !! center_id center with
  | None => st
  | Some centerDbId => foldl (offer_entry ecLookup centerDbId) st (ec_codes center)
  end.

Definition seedCenterOfferings (registry : list ExtractedCenter) : M JoinResult :=
  let* allECs := findMany prisma.renecEC in
  let ecLookup := index_rows ∅ allECs in
  let* allCenters := findMany prisma.renecCenter in
  let centerLookup := index_rows ∅ allCenters in
  let collected := foldl (offer_collect ecLookup centerLookup) ([], 0) registry in
  let pairs := fst collected in
  let skipped := snd collected in
  let BATCH_SIZE := 200 in
  let* created :=
    forBatches BATCH_SIZE pairs
      (fun i batch created =>
         let* result := createMany prisma.renecCenterOffering true batch in
         ret (created + result))
      0 in
  (* skipped = pairs.length - created + skipped *)
  let skipped := (Z.of_nat (length pairs) - Z.of_nat created + Z.of_nat skipped)%Z in
  ret {| created := created; skipped := skipped |}.

(** ** The sync ledger *)

(** [createSyncJobRecord]; [stats] lists the members of the [stats] object
    in insertion order. *)
Definition createSyncJobRecord (stats : list (string * nat)) (startTime now : Date)
  : M unit :=
  let totalProcessed := foldl (fun a b => a + b) 0 (map snd stats) in
  fun db =>
    let row :=
      {| job_id := nextId db;
         jobType := "FULL_SYNC";
         status := COMPLETED;
         startedAt := startTime;
         completedAt := now;
         itemsProcessed := totalProcessed;
         itemsCreated := totalProcessed;
         itemsUpdated := 0;
         itemsSkipped := 0;
         errors := [] |} in
    (tt, set_nextId (S (nextId db)) (put_renecSyncJob (renecSyncJob db ++ [row]) db)).

(** ** The run *)

(** What [loadJsonFile] finds for one file name. *)
Inductive FileState (T : Type) : Type :=
| Missing
| Unparsable
| Parsed (content : T).
Arguments Missing {T}.
Arguments Unparsable {T}.
Arguments Parsed {T} _.

Definition loadJsonFile {T} (file : FileState T) : option T :=
  match file with
  | Missing => None
  | Unparsable => None
  | Parsed content => Some content
  end.

(** The files of [EXTRACTED_DATA_DIR]. *)
Record DataDir : Type := {
  ec_standards_api : FileState (list ExtractedEC);
  ec_ece_matrix : FileState ECECEMatrixFile;
  master_ece_registry : FileState CertifierRegistryFile;
  master_ccap_registry : FileState CenterRegistryFile;
  committees_complete : FileState (list ExtractedCommittee);
  ec_certifiers_all : FileState ECCertifiersAllFile
}.

(** The steps of [main] after the inputs are loaded and the mandatory one
    is there; returns the [stats] object. *)
Definition run_steps (validEcStandards : list ExtractedEC)
    (eceMatrix : option ECECEMatrixFile)
    (certifierRegistry : option CertifierRegistryFile)
    (centerRegistry : option CenterRegistryFile)
    (validCommittees : list ExtractedCommittee)
    (ecCertifiersAll : option ECCertifiersAllFile)
    (now : Date) : M (list (string * nat)) :=
  let stats : list (string * nat) := [] in
  let* sectorLookup := seedSectors validEcStandards now in
  let stats := stats ++ [("sectors", size sectorLookup)] in
  let* stats :=
    if 0 <? length validCommittees then
      let* committeeLookup := seedCommittees validCommittees sectorLookup now in
      let stats := stats ++ [("committees", size committeeLookup)] in
      let* ecResult :=
        seedECStandards validEcStandards validCommittees
          (ec_details <$> ecCertifiersAll) sectorLookup committeeLookup now None in
      ret (stats ++ [("ecStandards", ec_created (fst ecResult))])
    else
      let emptyCommitteeLookup : gmap string Id := ∅ in
      let* ecResult :=
        seedECStandards validEcStandards validCommittees
          (ec_details <$> ecCertifiersAll) sectorLookup emptyCommitteeLookup now None in
      ret (stats ++ [("ecStandards", ec_created (fst ecResult))]) in
  let* stats :=
    match certifierRegistry ≫= cert_registry with
    | Some registry =>
        let* certCount := seedCertifiers registry now in
        ret (stats ++ [("certifiers", certCount)])
    | None => ret stats
    end in
  let* stats :=
    match centerRegistry ≫= center_registry with
    | Some registry =>
        let* centerCount := seedCenters registry now in
        ret (stats ++ [("centers", centerCount)])
    | None => ret stats
    end in
  let* stats :=
    match eceMatrix ≫= matrix with
    | Some matrix =>
        let* accResult := seedAccreditations matrix in
        ret (stats ++ [("accreditations", created accResult)])
    | None => ret stats
    end in
  let* stats :=
    match centerRegistry ≫= center_registry with
    | Some registry =>
        let* offerResult := seedCenterOfferings registry in
        ret (stats ++ [("centerOfferings", created offerResult)])
    | None => ret stats
    end in
  ret stats.

(** [main]: the exit code of the process and the store it leaves.
    [dataDir] is [None] when the directory does not exist; [startTime] is
    the clock at the start and [now] the clock read afterwards. *)
Definition main (dataDir : option DataDir) (startTime now : Date) : M nat :=
  match dataDir with
  | None => ret 1
  | Some dir =>
      let ecStandards := loadJsonFile (ec_standards_api dir) in
      let eceMatrix := loadJsonFile (ec_ece_matrix dir) in
      let certifierRegistry := loadJsonFile (master_ece_registry dir) in
      let centerRegistry := loadJsonFile (master_ccap_registry dir) in
      let committees := loadJsonFile (committees_complete dir) in
      let ecCertifiersAll := loadJsonFile (ec_certifiers_all dir) in
      match ecStandards with
      | None => ret 1
      | Some [] => ret 1
      | Some validEcStandards =>
          let validCommittees := default [] committees in
          let* stats :=
            run_steps validEcStandards eceMatrix certifierRegistry centerRegistry
                      validCommittees ecCertifiersAll now in
          let* _ := createSyncJobRecord stats startTime now in
          ret 0
      end
  end.

(** ** The coverage and integrity validator ([validate-renec.ts])

    The validator reads the store and never writes it.  Of each
    [ValidationResult] the embedding keeps the check's name and status; the
    [detail] text and the descriptive coverage lines carry no verdict and are
    left out. *)

Inductive CheckStatus : Type := PASS | WARN | FAIL.

#[global] Instance CheckStatus_eq_dec : EqDecision CheckStatus.
Proof. solve_decision. Defined.

Record ValidationResult : Type := {
  check : string;
  vstatus : CheckStatus
}.

(** *** Regular expressions, as far as the code pattern needs them *)

Inductive regex : Type :=
| Eps
| Lit (c : ascii)
| Range (lo hi : ascii)
| Seq (r1 r2 : regex)
| Opt (r : regex).

Module Regex.
(** Backtracking match of [r] against a prefix of [s], the rest of the
    input being handed to [k]. *)
Fixpoint run (r : regex) (s : list ascii) (k : list ascii -> bool) : bool :=
  match r with
  | Eps => k s
  | Lit c =>
      match s with
      | c' :: s' => if Ascii.eqb c c' then k s' else false
      | [] => false
      end
  | Range lo hi =>
      match s with
      | c' :: s' =>
          if (nat_of_ascii lo <=? nat_of_ascii c') && (nat_of_ascii c' <=? nat_of_ascii hi)
          then k s' else false
      | [] => false
      end
  | Seq r1 r2 => run r1 s (fun s' => run r2 s' k)
  | Opt r' => run r' s k || k s
  end.

(** [/^r$/.test(s)]: the whole input, no flags. *)
Definition test (r : regex) (s : string) : bool :=
  run r (list_ascii_of_string s)
      (fun rest => match rest with [] => true | _ => false end).

Definition digit : regex := Range "0" "9".
Definition upper : regex := Range "A" "Z".

Fixpoint times (n : nat) (r : regex) : regex :=
  match n with
  | O => Eps
  | S n' => Seq r (times n' r)
  end.
End Regex.

(** [/^EC\d{4}(\.\d{2})?$/] *)
Definition ecCodeRegex : regex :=
  Seq (Lit "E") (Seq (Lit "C")
    (Seq (Regex.times 4 Regex.digit)
         (Opt (Seq (Lit ".") (Regex.times 2 Regex.digit))))).

(** The pattern as the design document words it, [/^[A-Z]{2}\d{4}(\.\d{2})?$/]:
    any two upper-case letters in front.  It is here to be compared with
    [ecCodeRegex], the one the validator runs. *)
Definition documentedCodePattern : regex :=
  Seq (Regex.times 2 Regex.upper)
    (Seq (Regex.times 4 Regex.digit)
         (Opt (Seq (Lit ".") (Regex.times 2 Regex.digit)))).

(** *** The checks *)

(** The [counts] table: model, actual count, expected baseline. *)
Definition row_count {R} (t : list R) : Z := Z.of_nat (length t).

Definition counts (db : Store) : list (string * (Z * Z)) :=
  [ ("RenecEC", (row_count (renecEC db), 1477));
    ("RenecCertifier", (row_count (renecCertifier db), 482));
    ("RenecCenter", (row_count (renecCenter db), 340));
    ("RenecAccreditation", (row_count (renecAccreditation db), 7573));
    ("RenecCenterOffering", (row_count (renecCenterOffering db), 680));
    ("RenecSector", (row_count (renecSector db), 22));
    ("RenecCommittee", (row_count (renecCommittee db), 90));
    ("RenecECOccupation", (row_count (renecECOccupation db), 2000));
    ("RenecSyncJob", (row_count (renecSyncJob db), 1)) ]%Z.

(** [actual >= expected * 0.9 ? "PASS" : actual > 0 ? "WARN" : "FAIL"], the
    product taken exactly.  For the nine baselines of [counts] the rounded
    product of the code lies between the same two integers as the exact
    one (see [threshold_rounding]), so the comparison with a count is the
    same; [count_status_binary64_agrees] checks it for every count up to
    100000. *)
Definition count_status (actual expected : Z) : CheckStatus :=
  if Qle_bool (inject_Z expected * (9 # 10)) (inject_Z actual) then PASS
  else if (0 <? actual)%Z then WARN
  else FAIL.

(** The same product in binary64, as the code computes it; the literal is
    the double nearest to 0.9. *)
Definition float_of_Z (z : Z) : float := PrimFloat.of_uint63 (Uint63.of_Z z).

Definition js_threshold (expected : Z) : float :=
  PrimFloat.mul (float_of_Z expected) 0x1.ccccccccccccdp-1%float.

(** The status with the comparison done in binary64, as the code does it. *)
Definition count_status_binary64 (actual expected : Z) : CheckStatus :=
  if PrimFloat.leb (js_threshold expected) (float_of_Z actual) then PASS
  else if (0 <? actual)%Z then WARN
  else FAIL.

(** The least integer that is at least nine tenths of [expected]. *)
Definition ceil_9_10 (expected : Z) : Z := ((9 * expected + 9) / 10)%Z.

Definition count_check (entry : string * (Z * Z)) : ValidationResult :=
  {| check := fst entry +:+ " count";
     vstatus := count_status (fst (snd entry)) (snd (snd entry)) |}.

(** The standards whose code does not match. *)
Definition invalidCodes (db : Store) : list (Row string ECData) :=
  filter (fun ec => negb (Regex.test ecCodeRegex (row_key ec)) = true) (renecEC db).

(** The codes printed under the warning: [invalidCodes.slice(0, 10)]. *)
Definition listedCodes (db : Store) : list string :=
  map row_key (slice 0 10 (invalidCodes db)).

Definition format_check (db : Store) : ValidationResult :=
  if length (invalidCodes db) =? 0
  then {| check := "EC code format"; vstatus := PASS |}
  else {| check := "EC code format"; vstatus := WARN |}.

Definition has_id {K D} (i : Id) (t : list (Row K D)) : bool :=
  existsb (fun r => row_id r =? i) t.

(** The orphan counts of the six raw counting queries. *)
Definition orphanedAccreditations (db : Store) : nat :=
  length (filter (fun a =>
     (negb (has_id (acc_ecId (join_pair a)) (renecEC db))
      || negb (has_id (acc_certifierId (join_pair a)) (renecCertifier db))) = true)
    (renecAccreditation db)).

Definition orphanedOfferings (db : Store) : nat :=
  length (filter (fun o =>
     (negb (has_id (off_ecId (join_pair o)) (renecEC db))
      || negb (has_id (off_centerId (join_pair o)) (renecCenter db))) = true)
    (renecCenterOffering db)).

Definition dangling {K D} (fk : option Id) (t : list (Row K D)) : bool :=
  match fk with
  | Some i => negb (has_id i t)
  | None => false
  end.

Definition orphanedEcCommittee (db : Store) : nat :=
  length (filter (fun e => dangling (e_committeeId (row_data e)) (renecCommittee db) = true)
                 (renecEC db)).

Definition orphanedEcSector (db : Store) : nat :=
  length (filter (fun e => dangling (e_sectorId (row_data e)) (renecSector db) = true)
                 (renecEC db)).

Definition orphanedCommSector (db : Store) : nat :=
  length (filter (fun c => dangling (c_sectorId (row_data c)) (renecSector db) = true)
                 (renecCommittee db)).

Definition orphanedOccupations (db : Store) : nat :=
  length (filter (fun o => negb (has_id (fst (join_pair o)) (renecEC db)) = true)
                 (renecECOccupation db)).

Definition integrity_check (name : string) (orphans : nat) : ValidationResult :=
  {| check := name; vstatus := if orphans =? 0 then PASS else FAIL |}.

Definition integrity_checks (db : Store) : list ValidationResult :=
  [ integrity_check "Accreditation referential integrity" (orphanedAccreditations db);
    integrity_check "Center offering referential integrity" (orphanedOfferings db);
    integrity_check "EC->Committee referential integrity" (orphanedEcCommittee db);
    integrity_check "EC->Sector referential integrity" (orphanedEcSector db);
    integrity_check "Committee->Sector referential integrity" (orphanedCommSector db);
    integrity_check "ECOccupation->EC referential integrity" (orphanedOccupations db) ].

(** The [results] array at the end of the validator's [main]. *)
Definition validation_results (db : Store) : list ValidationResult :=
  map count_check (counts db) ++ [format_check db] ++ integrity_checks db.

Definition tally (st : CheckStatus) (results : list ValidationResult) : nat :=
  length (filter (fun r => vstatus r = st) results).

(** The exit code of the validator: [process.exit(1)] when [failed > 0]. *)
Definition validate_exit (db : Store) : nat :=
  if 0 <? tally FAIL (validation_results db) then 1 else 0.

(** *** The descriptive counts

    Besides the verdicts the validator prints counts that carry none: how
    many standards have each column filled, how many standards and
    certifiers take part in an accreditation, and the sum of the nine row
    counts.  They are kept for the columns the store model has. *)

(** [{ not: null }] on a nullable column. *)
Definition not_null {A} (o : option A) : bool :=
  match o with Some _ => true | None => false end.

(** [model.count({ where })], the filter as a test on the columns. *)
Definition count_where {K D} (p : D → bool) (t : list (Row K D)) : nat :=
  length (filter (fun r => p (row_data r) = true) t).

Definition ecsWithSector (db : Store) : nat :=
  count_where (fun d => not_null (e_sector d)) (renecEC db).
Definition ecsWithLevel (db : Store) : nat :=
  count_where (fun d => not_null (e_nivelCompetencia d)) (renecEC db).
Definition ecsWithProposito (db : Store) : nat :=
  count_where (fun d => not_null (e_proposito d)) (renecEC db).
Definition ecsVigente (db : Store) : nat :=
  count_where e_vigente (renecEC db).
Definition ecsWithCommitteeId (db : Store) : nat :=
  count_where (fun d => not_null (e_committeeId d)) (renecEC db).
Definition ecsWithSectorId (db : Store) : nat :=
  count_where (fun d => not_null (e_sectorId d)) (renecEC db).

(** [SELECT COUNT(DISTINCT column)]. *)
Definition count_distinct (column : list Id) : nat := length (remove_dups column).

(** The accreditation coverage: the standards with at least one certifier
    and the certifiers with at least one standard. *)
Definition ecsWithAcc (db : Store) : nat :=
  count_distinct (map (fun a => acc_ecId (join_pair a)) (renecAccreditation db)).
Definition certsWithAcc (db : Store) : nat :=
  count_distinct (map (fun a => acc_certifierId (join_pair a)) (renecAccreditation db)).

(** The [passed], [warned] and [failed] numbers of the summary. *)
Definition summary (db : Store) : nat * nat * nat :=
  (tally PASS (validation_results db), tally WARN (validation_results db),
   tally FAIL (validation_results db)).

(** [totalRecords]: the sum of the nine counts. *)
Definition totalRecords (db : Store) : Z :=
  foldl (fun total entry => (total + fst (snd entry))%Z) 0%Z (counts db).

(** * Specification vocabulary

    The predicates in which the properties below are stated. *)


(** [committee] lists the non-empty code [code] among its associated
    standards. *)
Definition lists_code (code : string) (committee : ExtractedCommittee) : bool :=
  JS.truthy code &&
  existsb (fun ea => bool_decide (ea_codigo ea = code))
          (default [] (estandaresAsociados committee)).

Definition digit_char (c : ascii) : Prop :=
  nat_of_ascii "0" ≤ nat_of_ascii c ≤ nat_of_ascii "9".

Definition str (cs : list ascii) : string := string_of_list_ascii cs.

(** The codes [ecCodeRegex] accepts: "EC", four digits, and optionally a
    dot and two digits. *)
Definition ec_code_shape (s : string) : Prop :=
  ∃ d1 d2 d3 d4 : ascii,
    Forall digit_char [d1; d2; d3; d4]
    ∧ (s = str ["E"; "C"; d1; d2; d3; d4]%char
       ∨ ∃ d5 d6 : ascii,
           Forall digit_char [d5; d6]
           ∧ s = str ["E"; "C"; d1; d2; d3; d4; "."; d5; d6]%char).


(** * Scenarios

    Concrete inputs used by the examples below. *)

(** A standard record that carries only a code and a sector number. *)
Definition bare_ec (code sector : string) : ExtractedEC :=
  {| idEstandarCompetencia := EmptyString;
     idSectorProductivo := sector;
     codigo := code;
     nivel := EmptyString;
     titulo := EmptyString;
     comite := EmptyString;
     secProductivo := EmptyString |}.

(** A data directory that holds the standard list and nothing else. *)
Definition only_standards (ecs : list ExtractedEC) : DataDir :=
  {| ec_standards_api := Parsed ecs;
     ec_ece_matrix := Missing;
     master_ece_registry := Missing;
     master_ccap_registry := Missing;
     committees_complete := Missing;
     ec_certifiers_all := Missing |}.

(** The store left by one run of the seed, on an empty store, over a
    standard list whose only record has the code "AB1234". *)
Definition store_AB1234 : Store :=
  snd (main (Some (only_standards [bare_ec "AB1234" "5"])) 0%Z 0%Z emptyStore).

(** * Table-level view of the store operations *)

(** Replace one table and the identity supply. *)
Definition write {R} (T : Table R) (t : list R) (n : Id) (db : Store) : Store :=
  set_nextId n (put T t db).

(** What a model of the client has to satisfy to be a table of the store. *)
Class TableOk {R} (T : Table R) : Prop := {
  view_write : ∀ t n db, view T (write T t n db) = t;
  next_write : ∀ t n db, nextId (write T t n db) = n;
  write_write : ∀ t n t' n' db, write T t' n' (write T t n db) = write T t' n' db;
  write_view : ∀ db, write T (view T db) (nextId db) db = db
}.

(** A sequence of upserts on one table: the written rows in order, the
    table and the identity supply after the last one. *)
Fixpoint upsert_all {K D} `{EqDecision K} (kvs : list (K * D)) (now : Date)
    (t : list (Row K D)) (n : Id) : list (Row K D) * list (Row K D) * Id :=
  match kvs with
  | [] => ([], t, n)
  | kv :: kvs' =>
      let u := table_upsert (fst kv) (snd kv) now t n in
      let u' := upsert_all kvs' now (snd (fst u)) (snd u) in
      (fst (fst u) :: fst (fst u'), snd (fst u'), snd u')
  end.

(** A row without the time of its last sync. *)
Definition untimed {K D} (r : Row K D) : Id * K * D :=
  (row_id r, row_key r, row_data r).

(** The natural key and the canonical identity of a row. *)
Definition kid {K D} (r : Row K D) : K * Id := (row_key r, row_id r).

(** The components of a table-level result [(x, table, next)]. *)
Definition first_of {X T} (u : X * T * Id) : X := fst (fst u).
Definition table_of {X T} (u : X * T * Id) : T := snd (fst u).
Definition next_of {X T} (u : X * T * Id) : Id := snd u.

(** The upserts of each step, as key and columns. *)
Definition sector_kvs (ecStandards : list ExtractedEC) : list (Z * SectorData) :=
  map (fun e => (fst e, sectorData (fst e) (snd e))) (foldl add_sector [] ecStandards).

Definition committee_kvs (sectorLookup : gmap Z Id)
    (committees : list ExtractedCommittee) : list (string * CommitteeData) :=
  map (fun c => (clave c, committeeData sectorLookup c)) committees.

Definition ec_kvs (data : ExtractedEC → ECData) (ecStandards : list ExtractedEC)
  : list (string * ECData) :=
  map (fun ec => (codigo ec, data ec))
      (filter (fun ec => JS.truthy (codigo ec) = true) ecStandards).

Definition cert_kvs (registry : list ExtractedCertifier)
  : list (string * CertifierData) :=
  map (fun c => (cert_id c, certifierData c)) registry.

Definition center_kvs (registry : list ExtractedCenter) : list (string * CenterData) :=
  map (fun c => (center_id c, centerData c)) registry.

(** The pairs each join step hands to [createMany]. *)
Definition occupation_pairs (details : option (list (string * ECDetail)))
    (ecDbIds : gmap string Id) : list OccupationPair :=
  match details with
  | Some d => occupationPairs_of d ecDbIds
  | None => []
  end.

Definition acc_pairs (ecLookup certLookup : gmap string Id)
    (matrix : list (string * MatrixEntry)) : list AccPair :=
  fst (foldl (acc_collect ecLookup certLookup) ([], 0) matrix).

Definition offer_pairs (ecLookup centerLookup : gmap string Id)
    (registry : list ExtractedCenter) : list OfferPair :=
  fst (foldl (offer_collect ecLookup centerLookup) ([], 0) registry).

(** The table-level result of each step, from the store before the run:
    each step works on its own table; the steps share the identity
    supply, which each takes from the step before.  A missing optional
    input counts as an empty one. *)
Section Steps.
Variable ecStandards : list ExtractedEC.
Variable committees : list ExtractedCommittee.
Variable details : option (list (string * ECDetail)).
Variable certifiers : list ExtractedCertifier.
Variable centers : list ExtractedCenter.
Variable mx : list (string * MatrixEntry).
Variable now : Date.
Variable db : Store.

Definition u_sectors : list (Row Z SectorData) * list (Row Z SectorData) * Id :=
  upsert_all (sector_kvs ecStandards) now (renecSector db) (nextId db).

Definition u_committees
  : list (Row string CommitteeData) * list (Row string CommitteeData) * Id :=
  upsert_all (committee_kvs (index_rows ∅ (first_of u_sectors)) committees) now
             (renecCommittee db) (next_of u_sectors).

Definition u_standards : list (Row string ECData) * list (Row string ECData) * Id :=
  upsert_all
    (ec_kvs (ecData committees details (index_rows ∅ (first_of u_sectors))
                    (index_rows ∅ (first_of u_committees))
                    (foldl index_committee ∅ committees))
            ecStandards)
    now (renecEC db) (next_of u_committees).

Definition j_occupations : nat * list (JoinRow OccupationPair unit) * Id :=
  table_createMany tt (occupation_pairs details (index_rows ∅ (first_of u_standards)))
                   (renecECOccupation db) (next_of u_standards).

Definition u_certifiers
  : list (Row string CertifierData) * list (Row string CertifierData) * Id :=
  upsert_all (cert_kvs certifiers) now (renecCertifier db) (next_of j_occupations).

Definition u_centers
  : list (Row string CenterData) * list (Row string CenterData) * Id :=
  upsert_all (center_kvs centers) now (renecCenter db) (next_of u_certifiers).

Definition j_accreditations : nat * list (JoinRow AccPair bool) * Id :=
  table_createMany true
    (acc_pairs (index_rows ∅ (table_of u_standards))
               (index_rows ∅ (table_of u_certifiers)) mx)
    (renecAccreditation db) (next_of u_centers).

Definition j_offerings : nat * list (JoinRow OfferPair bool) * Id :=
  table_createMany true
    (offer_pairs (index_rows ∅ (table_of u_standards))
                 (index_rows ∅ (table_of u_centers)) centers)
    (renecCenterOffering db) (next_of j_accreditations).

(** The store that the seven steps leave. *)
Definition steps_store : Store :=
  mkStore (table_of u_sectors) (table_of u_committees) (table_of u_standards)
          (table_of u_certifiers) (table_of u_centers) (table_of j_occupations)
          (table_of j_accreditations) (table_of j_offerings)
          (renecSyncJob db) (next_of j_offerings).
End Steps.

(** The [stats] object that the seven steps fill, member by member: a
    step that is skipped adds no member. *)
Definition steps_stats (ecStandards : list ExtractedEC)
    (committees : list ExtractedCommittee)
    (details : option (list (string * ECDetail)))
    (certifiers : option (list ExtractedCertifier))
    (centers : option (list ExtractedCenter))
    (mx : option (list (string * MatrixEntry))) (now : Date) (db : Store)
  : list (string * nat) :=
  let u1 := upsert_all (sector_kvs ecStandards) now (renecSector db) (nextId db) in
  let sectorLookup := index_rows ∅ (first_of u1) in
  let u2 := upsert_all (committee_kvs sectorLookup committees) now
                       (renecCommittee db) (next_of u1) in
  let committeeLookup := index_rows ∅ (first_of u2) in
  let data := ecData committees details sectorLookup committeeLookup
                     (foldl index_committee ∅ committees) in
  let u3 := upsert_all (ec_kvs data ecStandards) now (renecEC db) (next_of u2) in
  let j3 := table_createMany tt (occupation_pairs details (index_rows ∅ (first_of u3)))
                             (renecECOccupation db) (next_of u3) in
  let u4 := upsert_all (cert_kvs (default [] certifiers)) now
                       (renecCertifier db) (next_of j3) in
  let u5 := upsert_all (center_kvs (default [] centers)) now
                       (renecCenter db) (next_of u4) in
  let ecLookup := index_rows ∅ (table_of u3) in
  let j6 := table_createMany true
              (acc_pairs ecLookup (index_rows ∅ (table_of u4)) (default [] mx))
              (renecAccreditation db) (next_of u5) in
  let j7 := table_createMany true
              (offer_pairs ecLookup (index_rows ∅ (table_of u5)) (default [] centers))
              (renecCenterOffering db) (next_of j6) in
  (((((([("sectors", size sectorLookup)]
        ++ (if 0 <? length committees
            then [("committees", size committeeLookup)] else []))
       ++ [("ecStandards", length ecStandards)])
      ++ match certifiers with Some r => [("certifiers", length r)] | None => [] end)
     ++ match centers with Some r => [("centers", length r)] | None => [] end)
    ++ match mx with Some _ => [("accreditations", first_of j6)] | None => [] end)
   ++ match centers with Some _ => [("centerOfferings", first_of j7)] | None => [] end).

(** The sum of the values of a [stats] object. *)
Definition stats_total (stats : list (string * nat)) : nat :=
  foldl (fun a b => a + b) 0 (map snd stats).


(** The inputs of the steps, as [main] derives them from the directory. *)
Definition committees_in (dir : DataDir) : list ExtractedCommittee :=
  default [] (loadJsonFile (committees_complete dir)).
Definition details_in (dir : DataDir) : option (list (string * ECDetail)) :=
  ec_details <$> loadJsonFile (ec_certifiers_all dir).
Definition certifiers_in (dir : DataDir) : option (list ExtractedCertifier) :=
  loadJsonFile (master_ece_registry dir) ≫= cert_registry.
Definition centers_in (dir : DataDir) : option (list ExtractedCenter) :=
  loadJsonFile (master_ccap_registry dir) ≫= center_registry.
Definition matrix_in (dir : DataDir) : option (list (string * MatrixEntry)) :=
  loadJsonFile (ec_ece_matrix dir) ≫= matrix.


(** The ledger row that [createSyncJobRecord] writes for [stats]. *)
Definition ledger_row (stats : list (string * nat)) (startTime now : Date) (i : Id)
  : SyncJobRow :=
  {| job_id := i;
     jobType := "FULL_SYNC";
     status := COMPLETED;
     startedAt := startTime;
     completedAt := now;
     itemsProcessed := stats_total stats;
     itemsCreated := stats_total stats;
     itemsUpdated := 0;
     itemsSkipped := 0;
     errors := [] |}.

(** The store after [createSyncJobRecord]: one more ledger row. *)
Definition record_run (stats : list (string * nat)) (startTime now : Date)
    (db : Store) : Store :=
  set_nextId (S (nextId db))
    (put_renecSyncJob (renecSyncJob db ++ [ledger_row stats startTime now (nextId db)]) db).

(** The store and the [stats] object of a run that passes the mandatory
    input check with the standard list [ecStandards]. *)
Definition run_store (dir : DataDir) (ecStandards : list ExtractedEC) (now : Date)
    (db : Store) : Store :=
  steps_store ecStandards (committees_in dir) (details_in dir)
    (default [] (certifiers_in dir)) (default [] (centers_in dir))
    (default [] (matrix_in dir)) now db.

Definition run_stats (dir : DataDir) (ecStandards : list ExtractedEC) (now : Date)
    (db : Store) : list (string * nat) :=
  steps_stats ecStandards (committees_in dir) (details_in dir)
    (certifiers_in dir) (centers_in dir) (matrix_in dir) now db.

(** The ways an optional file can hold no data. *)
Inductive Blank : Type := Absent | Unreadable | EmptyContent.

Definition blank_matrix (b : Blank) : FileState ECECEMatrixFile :=
  match b with
  | Absent => Missing
  | Unreadable => Unparsable
  | EmptyContent =>
      Parsed {| mx_generated_at := EmptyString; total_ecs := 0; matrix := Some [] |}
  end.

Definition blank_certifiers (b : Blank) : FileState CertifierRegistryFile :=
  match b with
  | Absent => Missing
  | Unreadable => Unparsable
  | EmptyContent =>
      Parsed {| certs_generated_at := EmptyString; certs_total_count := 0;
                cert_registry := Some [] |}
  end.

Definition blank_centers (b : Blank) : FileState CenterRegistryFile :=
  match b with
  | Absent => Missing
  | Unreadable => Unparsable
  | EmptyContent =>
      Parsed {| centers_generated_at := EmptyString; centers_total_count := 0;
                center_registry := Some [] |}
  end.

(** The scenario of the design document: the standard list holds the one
    record of code EC0249 and sector 5; the matrix and the two registries
    are empty or absent; there is no committee or detail file. *)
Definition scenario_EC0249 (mx certs centers : Blank) : DataDir :=
  {| ec_standards_api := Parsed [bare_ec "EC0249" "5"];
     ec_ece_matrix := blank_matrix mx;
     master_ece_registry := blank_certifiers certs;
     master_ccap_registry := blank_centers centers;
     committees_complete := Missing;
     ec_certifiers_all := Missing |}.

(** The pairs that the matrix extract lists: every certifier id of every
    entry. *)
Definition pairs_attempted (matrix : list (string * MatrixEntry)) : nat :=
  foldl (fun a b => a + b) 0 (map (fun entry => length (ece_ids (snd entry))) matrix).

(** A store that holds the standard EC0249 and no certifier: what one run
    of the seed over the standard list alone leaves. *)
Definition store_EC0249 : Store :=
  snd (main (Some (only_standards [bare_ec "EC0249" "5"])) 0%Z 0%Z emptyStore).

(** A matrix that accredits the certifier ECE-00001, which the store does
    not hold, for the standard EC0249. *)
Definition matrix_unknown_certifier : list (string * MatrixEntry) :=
  [("EC0249", {| ece_ids := ["ECE-00001"]; ece_count := 1; title := EmptyString |})].

(** A registry with one center that offers a standard the store does not
    hold. *)
Definition center_unknown_standard : ExtractedCenter :=
  {| center_id := "CCAP-00001";
     center_canonical_name := "Centro";
     center_alternate_names := None;
     center_normalized_key := None;
     ec_codes := ["EC9999"];
     ec_count := 1 |}.





(** The last columns written for a key by a sequence of upserts. *)
Fixpoint final {K D} `{EqDecision K} (kvs : list (K * D)) (k : K) : option D :=
  match kvs with
  | [] => None
  | kv :: kvs' =>
      match final kvs' k with
      | Some d => Some d
      | None => if decide (fst kv = k) then Some (snd kv) else None
      end
  end.

(** A row after a sequence of upserts at time [now] that creates nothing
    new: it carries the last columns written for its key, if any. *)
Definition settle {K D} `{EqDecision K} (kvs : list (K * D)) (now : Date)
    (r : Row K D) : Row K D :=
  match final kvs (row_key r) with
  | Some d => mkRow (row_id r) (row_key r) d now
  | None => r
  end.

(** The identity bound to a key in a list of (key, identity) pairs: the
    first one, 0 when there is none. *)
Definition lookup_kid {K} `{EqDecision K} (k : K) (kids : list (K * Id)) : Id :=
  match List.find (fun p => bool_decide (fst p = k)) kids with
  | Some p => snd p
  | None => 0
  end.

(** Two stores hold the same entities: every entity table has the same
    rows (identity, natural key and columns) in the same order, the times
    of the last sync apart. *)
Definition same_entities (db1 db2 : Store) : Prop :=
  map untimed (renecSector db1) = map untimed (renecSector db2)
  ∧ map untimed (renecCommittee db1) = map untimed (renecCommittee db2)
  ∧ map untimed (renecEC db1) = map untimed (renecEC db2)
  ∧ map untimed (renecCertifier db1) = map untimed (renecCertifier db2)
  ∧ map untimed (renecCenter db1) = map untimed (renecCenter db2).

(** Two stores hold the same join rows. *)
Definition same_joins (db1 db2 : Store) : Prop :=
  renecECOccupation db1 = renecECOccupation db2
  ∧ renecAccreditation db1 = renecAccreditation db2
  ∧ renecCenterOffering db1 = renecCenterOffering db2.

(** The unique indexes of the store: a natural key names at most one row
    of its entity table, a pair at most one row of its join table. *)
Definition unique_keys (db : Store) : Prop :=
  NoDup (map row_key (renecSector db))
  ∧ NoDup (map row_key (renecCommittee db))
  ∧ NoDup (map row_key (renecEC db))
  ∧ NoDup (map row_key (renecCertifier db))
  ∧ NoDup (map row_key (renecCenter db)).

Definition unique_pairs (db : Store) : Prop :=
  NoDup (map join_pair (renecECOccupation db))
  ∧ NoDup (map join_pair (renecAccreditation db))
  ∧ NoDup (map join_pair (renecCenterOffering db)).

(** The integers [start], [start + 1], ..., [len] of them. *)
Fixpoint Z_range (start : Z) (len : nat) : list Z :=
  match len with
  | O => []
  | S len' => start :: Z_range (start + 1) len'
  end.

(** * Vocabulary of the further properties *)

(** Some row of [t] has the identity [i]. *)
Definition refers {K D} (i : Id) (t : list (Row K D)) : Prop :=
  ∃ r, r ∈ t ∧ row_id r = i.

(** A nullable reference, when set, names a row of [t]. *)
Definition refers_opt {K D} (fk : option Id) (t : list (Row K D)) : Prop :=
  ∀ i, fk = Some i → refers i t.

(** Every reference of the store names a row: the two sides of each
    accreditation and of each offering, the committee and the sector of each
    standard, the sector of each committee, the standard of each
    occupation. *)
Definition referential_integrity (db : Store) : Prop :=
  (∀ a, a ∈ renecAccreditation db →
        refers (acc_ecId (join_pair a)) (renecEC db)
        ∧ refers (acc_certifierId (join_pair a)) (renecCertifier db))
  ∧ (∀ o, o ∈ renecCenterOffering db →
          refers (off_ecId (join_pair o)) (renecEC db)
          ∧ refers (off_centerId (join_pair o)) (renecCenter db))
  ∧ (∀ e, e ∈ renecEC db → refers_opt (e_committeeId (row_data e)) (renecCommittee db))
  ∧ (∀ e, e ∈ renecEC db → refers_opt (e_sectorId (row_data e)) (renecSector db))
  ∧ (∀ c, c ∈ renecCommittee db → refers_opt (c_sectorId (row_data c)) (renecSector db))
  ∧ (∀ o, o ∈ renecECOccupation db → refers (fst (join_pair o)) (renecEC db)).


(** The codes listed by the centers of the registry that the lookup
    resolves, in order, with repetitions. *)
Definition offered_codes (centerLookup : gmap string Id)
    (registry : list ExtractedCenter) : list string :=
  flat_map ec_codes (filter (fun c => is_Some (centerLookup !! center_id c)) registry).

(** The batches a [forBatches] loop hands to its body, with their offsets:
    the control flow of the loop with the body left out. *)
Fixpoint batches_from {A} (fuel size i : nat) (items : list A) : list (nat * list A) :=
  match fuel with
  | O => []
  | S fuel' =>
      if i <? length items
      then (i, slice i (i + size) items) :: batches_from fuel' size (i + size) items
      else []
  end.

Definition batches {A} (size : nat) (items : list A) : list (nat * list A) :=
  batches_from (length items) size 0 items.





(** A small extract: the standard EC0249 of sector 5, one certifier
    accredited for it and one center that offers it. *)
Definition certifier_ECE1 : ExtractedCertifier :=
  {| cert_id := "ECE-00001";
     cert_canonical_name := "Entidad";
     cert_alternate_names := None;
     cert_normalized_key := None;
     entity_type := None;
     cert_ec_codes := ["EC0249"] |}.

Definition center_CCAP1 : ExtractedCenter :=
  {| center_id := "CCAP-00001";
     center_canonical_name := "Centro";
     center_alternate_names := None;
     center_normalized_key := None;
     ec_codes := ["EC0249"];
     ec_count := 1 |}.

Definition small_extract : DataDir :=
  {| ec_standards_api := Parsed [bare_ec "EC0249" "5"];
     ec_ece_matrix :=
       Parsed {| mx_generated_at := EmptyString; total_ecs := 1;
                 matrix := Some [("EC0249",
                                  {| ece_ids := ["ECE-00001"]; ece_count := 1;
                                     title := EmptyString |})] |};
     master_ece_registry :=
       Parsed {| certs_generated_at := EmptyString; certs_total_count := 1;
                 cert_registry := Some [certifier_ECE1] |};
     master_ccap_registry :=
       Parsed {| centers_generated_at := EmptyString; centers_total_count := 1;
                 center_registry := Some [center_CCAP1] |};
     committees_complete := Missing;
     ec_certifiers_all := Missing |}.

(** The store one run over the small extract leaves, from an empty store. *)
Definition store_small : Store :=
  snd (main (Some small_extract) 0%Z 1%Z emptyStore).


(** * Properties *)

(** ** Strings *)


Lemma append_Empty (t : string) : EmptyString +:+ t = t.
Proof. reflexivity. Qed.







(** ** The certifier kind *)


(** ** The reverse index standard code -> committee key *)

Lemma index_committee_lookup (cache : gmap string string)
    (committee : ExtractedCommittee) (code : string) :
  index_committee cache committee !! code =
  if lists_code code committee then Some (clave committee) else cache !! code.
Proof.
  unfold index_committee, lists_code.
  generalize (default [] (estandaresAsociados committee)) as eas.
  intros eas. revert cache. induction eas as [|ea eas IH]; intros cache; simpl.
  - by rewrite andb_false_r.
  - rewrite IH. destruct (JS.truthy code) eqn:Hc; simpl.
    + destruct (existsb _ eas); [by rewrite orb_true_r|].
      rewrite orb_false_r. case_bool_decide as Heq.
      * subst code. rewrite Hc. apply lookup_insert_eq.
      * destruct (JS.truthy (ea_codigo ea)); [by rewrite lookup_insert_ne | done].
    + destruct (JS.truthy (ea_codigo ea)) eqn:Ht; [|done].
      rewrite lookup_insert_ne; [done|]. intros Heq. rewrite Heq in Ht. congruence.
Qed.

Lemma index_committees_lookup (committees : list ExtractedCommittee)
    (cache : gmap string string) (code : string) :
  foldl index_committee cache committees !! code =
  match last (filter (fun c => lists_code code c = true) committees) with
  | Some committee => Some (clave committee)
  | None => cache !! code
  end.
Proof.
  revert cache. induction committees as [|c committees IH]; intros cache; simpl; [done|].
  rewrite IH, index_committee_lookup. rewrite filter_cons.
  destruct (decide (lists_code code c = true)) as [Hc|Hc].
  - rewrite Hc. destruct (filter _ committees) as [|c0 l] eqn:Hf; [done|].
    rewrite last_cons_cons. destruct (last (c0 :: l)) eqn:Hl; [done|].
    by apply last_None in Hl.
  - apply not_true_is_false in Hc. by rewrite Hc.
Qed.

(** C10.  The index builder answers from a cache that it fills on its
    first call: called with [c1] and then with [c2] in one process, the
    second call returns the map built from [c1], whatever [c2] is; and in
    that map a code listed by several committees is bound to the one that
    comes last in [c1]. *)
Theorem buildEcToCommitteeKeyIndex_cached (c1 c2 : list ExtractedCommittee) :
  let first := buildEcToCommitteeKeyIndex c1 None in
  let second := buildEcToCommitteeKeyIndex c2 (snd first) in
  fst second = fst first
  ∧ snd second = snd first
  ∧ fst first = foldl index_committee ∅ c1
  ∧ ∀ code : string,
      fst second !! code =
      clave <$> last (filter (fun c => lists_code code c = true) c1).
Proof.
  simpl. repeat split; try reflexivity.
  intros code. rewrite index_committees_lookup.
  by destruct (last _).
Qed.

(** In particular, when two committees of the first list both list a code
    and no later one does, the code is bound to the later of the two. *)
Lemma buildEcToCommitteeKeyIndex_later_wins
    (before between after c2 : list ExtractedCommittee)
    (a b : ExtractedCommittee) (code : string) :
  lists_code code a = true →
  lists_code code b = true →
  Forall (fun c => lists_code code c = false) after →
  fst (buildEcToCommitteeKeyIndex c2
         (snd (buildEcToCommitteeKeyIndex (before ++ a :: between ++ b :: after) None)))
    !! code = Some (clave b).
Proof.
  intros Ha Hb Hafter.
  simpl. rewrite index_committees_lookup.
  rewrite filter_app, filter_cons, filter_app, filter_cons.
  rewrite !decide_True by done.
  assert (filter (λ c, lists_code code c = true) after = []) as ->.
  { induction Hafter as [|c l Hc _ IH]; [done|].
    rewrite filter_cons, decide_False; [done | by rewrite Hc]. }
  set (fb := filter _ before). set (fm := filter _ between).
  replace (fb ++ a :: fm ++ [b]) with ((fb ++ a :: fm) ++ [b])
    by (by rewrite <- app_assoc).
  by rewrite last_snoc.
Qed.

(** ** The validator's format check *)

Lemma range_test (lo hi c : ascii) :
  (nat_of_ascii lo <=? nat_of_ascii c) && (nat_of_ascii c <=? nat_of_ascii hi) = true
  ↔ nat_of_ascii lo ≤ nat_of_ascii c ≤ nat_of_ascii hi.
Proof. rewrite andb_true_iff, !Nat.leb_le. tauto. Qed.

Ltac regex_eval :=
  cbn [Regex.run Regex.times Regex.digit Regex.upper list_ascii_of_string
       string_of_list_ascii str].

Ltac regex_eval_in H :=
  cbn [Regex.run Regex.times Regex.digit Regex.upper list_ascii_of_string
       string_of_list_ascii str] in H.

(** One step of a failed or successful match under hypothesis [H]. *)
Ltac regex_case H :=
  match type of H with
  | context [Ascii.eqb ?a ?b] =>
      let E := fresh "E" in
      destruct (Ascii.eqb a b) eqn:E;
      [apply Ascii.eqb_eq in E; subst | discriminate H]
  | context [(nat_of_ascii ?lo <=? nat_of_ascii ?c) && (nat_of_ascii ?c <=? nat_of_ascii ?hi)] =>
      let E := fresh "D" in
      destruct ((nat_of_ascii lo <=? nat_of_ascii c) && (nat_of_ascii c <=? nat_of_ascii hi)) eqn:E;
      [apply range_test in E | discriminate H]
  end.

Lemma ecCodeRegex_spec (s : string) :
  Regex.test ecCodeRegex s = true ↔ ec_code_shape s.
Proof.
  split.
  - unfold Regex.test, ecCodeRegex. intros H.
    destruct s as [|c1 [|c2 [|c3 [|c4 [|c5 [|c6 s]]]]]]; regex_eval_in H;
      repeat regex_case H; try discriminate H.
    exists c3, c4, c5, c6. split; [by repeat first [apply Forall_cons_2 | apply Forall_nil_2]|].
    destruct s as [|c7 [|c8 [|c9 [|c10 s]]]]; regex_eval_in H;
      repeat regex_case H; try discriminate H.
    + by left.
    + right. exists c8, c9.
      split; [by repeat first [apply Forall_cons_2 | apply Forall_nil_2] | done].
  - intros (d1 & d2 & d3 & d4 & Hd & Hs).
    apply Forall_cons in Hd as [H1%range_test Hd].
    apply Forall_cons in Hd as [H2%range_test Hd].
    apply Forall_cons in Hd as [H3%range_test Hd].
    apply Forall_cons in Hd as [H4%range_test _].
    destruct Hs as [->|(d5 & d6 & Hd & ->)].
    + unfold Regex.test, ecCodeRegex. regex_eval.
      by rewrite !Ascii.eqb_refl, H1, H2, H3, H4.
    + apply Forall_cons in Hd as [H5%range_test Hd].
      apply Forall_cons in Hd as [H6%range_test _].
      unfold Regex.test, ecCodeRegex. regex_eval.
      by rewrite !Ascii.eqb_refl, H1, H2, H3, H4, H5, H6.
Qed.

Lemma filter_nil_Forall {A} (P : A → Prop) `{∀ x, Decision (P x)} (l : list A) :
  filter P l = [] ↔ Forall (fun x => ¬ P x) l.
Proof.
  induction l as [|x l IH]; [by rewrite filter_nil|].
  rewrite filter_cons, Forall_cons. destruct (decide (P x)).
  - split; [done | tauto].
  - rewrite IH. tauto.
Qed.

Lemma filter_not_nil_Exists {A} (P : A → Prop) `{∀ x, Decision (P x)} (l : list A) :
  filter P l ≠ [] ↔ Exists P l.
Proof.
  induction l as [|x l IH]; [rewrite filter_nil, Exists_nil; tauto|].
  rewrite filter_cons, Exists_cons. destruct (decide (P x)).
  - split; [tauto | done].
  - rewrite IH. tauto.
Qed.

Lemma invalid_code_iff (ec : Row string ECData) :
  negb (Regex.test ecCodeRegex (row_key ec)) = true ↔ ¬ ec_code_shape (row_key ec).
Proof. by rewrite <- ecCodeRegex_spec, negb_true_iff, not_true_iff_false. Qed.

(** C1, as the validator implements it.  The format check tests every
    persisted standard code against the pattern: the letters EC, four
    digits, optionally a dot and two digits.  The non-conforming rows
    are exactly those whose code is not of that shape; the first ten of
    them are listed; the check is never FAIL, it is PASS exactly when every
    code conforms and WARN exactly when some code does not. *)
Theorem format_check_spec (db : Store) :
  (∀ ec, ec ∈ invalidCodes db ↔ ec ∈ renecEC db ∧ ¬ ec_code_shape (row_key ec))
  ∧ listedCodes db = map row_key (take 10 (invalidCodes db))
  ∧ length (listedCodes db) ≤ 10
  ∧ vstatus (format_check db) ≠ FAIL
  ∧ (vstatus (format_check db) = PASS
     ↔ Forall (fun ec => ec_code_shape (row_key ec)) (renecEC db))
  ∧ (vstatus (format_check db) = WARN
     ↔ Exists (fun ec => ¬ ec_code_shape (row_key ec)) (renecEC db)).
Proof.
  assert (Hlisted : listedCodes db = map row_key (take 10 (invalidCodes db))).
  { unfold listedCodes, slice. by rewrite drop_0. }
  assert (Hpass : vstatus (format_check db) = PASS ↔ invalidCodes db = []).
  { unfold format_check. destruct (invalidCodes db); simpl; split; congruence. }
  assert (Hwarn : vstatus (format_check db) = WARN ↔ invalidCodes db ≠ []).
  { unfold format_check. destruct (invalidCodes db); simpl; split; congruence. }
  split.
  { intros ec. unfold invalidCodes.
    by rewrite list_elem_of_filter, invalid_code_iff, (comm and). }
  split; [done|]. split.
  { rewrite Hlisted, length_map, length_take. lia. }
  split.
  { unfold format_check. by destruct (_ =? _). }
  split.
  - rewrite Hpass. unfold invalidCodes. rewrite filter_nil_Forall.
    apply Forall_iff. intros ec. rewrite invalid_code_iff. split; [|tauto].
    intros Hnn. destruct (Regex.test ecCodeRegex (row_key ec)) eqn:E.
    + by apply ecCodeRegex_spec.
    + exfalso. apply Hnn. intros Hs%ecCodeRegex_spec. congruence.
  - rewrite Hwarn. unfold invalidCodes. rewrite filter_not_nil_Exists.
    split; intros Hex; eapply Exists_impl; try exact Hex;
      intros ec; by rewrite invalid_code_iff.
Qed.

(** C1 as the design document words it fails.  In the store that one run
    of the seed leaves for the single code AB1234, every persisted code
    matches the documented pattern (two upper-case letters, four digits), so
    no non-conforming code exists; the check is nevertheless WARN and lists
    the code. *)
Lemma format_check_documented_pattern_fails :
  Forall (fun ec => Regex.test documentedCodePattern (row_key ec) = true)
         (renecEC store_AB1234)
  ∧ map row_key (renecEC store_AB1234) = ["AB1234"]
  ∧ vstatus (format_check store_AB1234) = WARN
  ∧ listedCodes store_AB1234 = ["AB1234"].
Proof.
  split; [|by vm_compute].
  vm_compute. by repeat first [apply Forall_cons_2 | apply Forall_nil_2].
Qed.

(** ** The validator's count check and exit status *)

(** Rounding does not move the threshold across an integer: for each of
    the nine baselines the binary64 product [expected * 0.9] is above
    [ceil_9_10 expected - 1] and at most [ceil_9_10 expected], as the exact
    product is.  A count is an integer, so comparing it with either product
    gives the same answer. *)
Lemma threshold_rounding :
  Forall (fun entry =>
            let expected := snd (snd entry) in
            PrimFloat.ltb (float_of_Z (ceil_9_10 expected - 1)) (js_threshold expected) = true
            ∧ PrimFloat.leb (js_threshold expected) (float_of_Z (ceil_9_10 expected)) = true)
         (counts emptyStore).
Proof.
  unfold counts.
  repeat first [apply Forall_cons_2 | apply Forall_nil_2]; by vm_compute.
Qed.

(** For each baseline and every count from 0 to 100000 the status computed
    in binary64 is the status computed exactly. *)
Lemma count_status_binary64_agrees :
  forallb
    (fun entry =>
       forallb
         (fun actual =>
            bool_decide
              (count_status_binary64 actual (snd (snd entry))
               = count_status actual (snd (snd entry))))
         (Z_range 0 (Z.to_nat 100001)))
    (counts emptyStore)
  = true.
Proof. by vm_compute. Qed.

Lemma Qle_bool_9_10 (actual expected : Z) :
  Qle_bool (inject_Z expected * (9 # 10)) (inject_Z actual) = true
  ↔ (9 * expected ≤ 10 * actual)%Z.
Proof.
  rewrite Qle_bool_iff. unfold Qle, Qmult, inject_Z. simpl.
  change (Z.pos (1 * 10)) with 10%Z. lia.
Qed.

Lemma count_status_spec (actual expected : Z) :
  (0 ≤ actual)%Z → (0 < expected)%Z →
  (count_status actual expected = PASS ↔ (9 * expected ≤ 10 * actual)%Z)
  ∧ (count_status actual expected = WARN
     ↔ (0 < actual)%Z ∧ (10 * actual < 9 * expected)%Z)
  ∧ (count_status actual expected = FAIL ↔ actual = 0%Z).
Proof.
  intros Ha He. unfold count_status.
  destruct (Qle_bool _ _) eqn:Hq.
  - apply Qle_bool_9_10 in Hq. repeat split; try done; lia.
  - assert (¬ (9 * expected ≤ 10 * actual)%Z) as Hn.
    { rewrite <- Qle_bool_9_10. congruence. }
    destruct (0 <? actual)%Z eqn:Hpos.
    + apply Z.ltb_lt in Hpos. repeat split; try done; lia.
    + apply Z.ltb_ge in Hpos. repeat split; try done; lia.
Qed.





(** ** The store operations at table level *)

#[global] Instance renecSector_ok : TableOk prisma.renecSector.
Proof. split; intros; try destruct db; reflexivity. Qed.
#[global] Instance renecCommittee_ok : TableOk prisma.renecCommittee.
Proof. split; intros; try destruct db; reflexivity. Qed.
#[global] Instance renecEC_ok : TableOk prisma.renecEC.
Proof. split; intros; try destruct db; reflexivity. Qed.
#[global] Instance renecCertifier_ok : TableOk prisma.renecCertifier.
Proof. split; intros; try destruct db; reflexivity. Qed.
#[global] Instance renecCenter_ok : TableOk prisma.renecCenter.
Proof. split; intros; try destruct db; reflexivity. Qed.
#[global] Instance renecECOccupation_ok : TableOk prisma.renecECOccupation.
Proof. split; intros; try destruct db; reflexivity. Qed.
#[global] Instance renecAccreditation_ok : TableOk prisma.renecAccreditation.
Proof. split; intros; try destruct db; reflexivity. Qed.
#[global] Instance renecCenterOffering_ok : TableOk prisma.renecCenterOffering.
Proof. split; intros; try destruct db; reflexivity. Qed.

Lemma bind_eq {A B} (c : M A) (k : A → M B) (db : Store) :
  (let* x := c in k x) db = k (fst (c db)) (snd (c db)).
Proof. unfold bind. by destruct (c db). Qed.

Lemma transaction_cons {A} (op : M A) (ops : list (M A)) (db : Store) :
  transaction (op :: ops) db =
  (fst (op db) :: fst (transaction ops (snd (op db))),
   snd (transaction ops (snd (op db)))).
Proof.
  change (transaction (op :: ops))
    with (let* a := op in let* rest := transaction ops in ret (a :: rest)).
  unfold bind, ret. destruct (op db) as [a db1]. simpl.
  by destruct (transaction ops db1).
Qed.

Lemma transaction_app {A} (ops1 ops2 : list (M A)) (db : Store) :
  transaction (ops1 ++ ops2) db =
  (fst (transaction ops1 db) ++ fst (transaction ops2 (snd (transaction ops1 db))),
   snd (transaction ops2 (snd (transaction ops1 db)))).
Proof.
  revert db. induction ops1 as [|op ops1 IH]; intros db.
  - simpl. by destruct (transaction ops2 db).
  - rewrite <- app_comm_cons, !transaction_cons, IH. reflexivity.
Qed.

Lemma transaction_length {A} (ops : list (M A)) (db : Store) :
  length (fst (transaction ops db)) = length ops.
Proof.
  revert db. induction ops as [|op ops IH]; intros db; [done|].
  rewrite transaction_cons. simpl. by rewrite IH.
Qed.

Section Loop.
Context {A S : Type}.
Variable size : nat.
Variable body : nat → list A → S → M S.
Variable whole : list A → S → M S.
Hypothesis size_pos : 0 < size.
Hypothesis whole_nil : ∀ acc db, whole [] acc db = (acc, db).
Hypothesis whole_step : ∀ i b1 b2 acc db,
  whole (b1 ++ b2) acc db = whole b2 (fst (body i b1 acc db)) (snd (body i b1 acc db)).

Lemma forBatches_from_spec (fuel i : nat) (items : list A) (acc : S) (db : Store) :
  length items ≤ i + fuel →
  forBatches_from fuel size i items body acc db = whole (drop i items) acc db.
Proof.
  revert i acc db. induction fuel as [|fuel IH]; intros i acc db Hfuel; simpl.
  - rewrite drop_ge by lia. by rewrite whole_nil.
  - destruct (i <? length items) eqn:Hi.
    + rewrite bind_eq, IH by lia.
      rewrite <- (take_drop size (drop i items)) at 1.
      rewrite whole_step with (i := i). unfold slice.
      replace (i + size - i) with size by lia.
      by rewrite drop_drop.
    + apply Nat.ltb_ge in Hi. rewrite drop_ge by lia. by rewrite whole_nil.
Qed.

(** The batched loop does what the same work does in one go. *)
Lemma forBatches_spec (items : list A) (acc : S) (db : Store) :
  forBatches size items body acc db = whole items acc db.
Proof. unfold forBatches. rewrite forBatches_from_spec by lia. by rewrite drop_0. Qed.
End Loop.

Lemma batched_transaction {A B S} (op : A → M B) (g : S → list A → list B → S)
    (size : nat) (items : list A) (acc : S) (db : Store) :
  0 < size →
  (∀ acc, g acc [] [] = acc) →
  (∀ acc b1 b2 r1 r2, g acc (b1 ++ b2) (r1 ++ r2) = g (g acc b1 r1) b2 r2) →
  forBatches size items
    (fun i batch acc => let* rs := transaction (map op batch) in ret (g acc batch rs))
    acc db
  = (g acc items (fst (transaction (map op items) db)),
     snd (transaction (map op items) db)).
Proof.
  intros Hsize Hnil Happ.
  rewrite forBatches_spec
    with (whole := fun items acc =>
                     let* rs := transaction (map op items) in ret (g acc items rs)).
  - by rewrite bind_eq.
  - done.
  - intros acc' db'. by rewrite bind_eq; simpl; rewrite Hnil.
  - intros i b1 b2 acc' db'. rewrite !bind_eq. unfold ret. simpl.
    rewrite map_app, transaction_app. simpl. by rewrite Happ.
Qed.

Section UpsertLoop.
Context {K D A : Type} `{EqDecision K}.
Context (T : Table (Row K D)) `{!TableOk T}.
Variables (kf : A → K) (df : A → D) (now : Date).

Lemma upsert_eq (k : K) (d : D) (db : Store) :
  upsert T k d now db =
  (fst (fst (table_upsert k d now (view T db) (nextId db))),
   write T (snd (fst (table_upsert k d now (view T db) (nextId db))))
           (snd (table_upsert k d now (view T db) (nextId db))) db).
Proof. unfold upsert. by destruct (table_upsert _ _ _ _ _) as [[r t] n]. Qed.

Lemma transaction_upsert (items : list A) (db : Store) :
  transaction (map (fun x => upsert T (kf x) (df x) now) items) db =
  (fst (fst (upsert_all (map (fun x => (kf x, df x)) items) now (view T db) (nextId db))),
   write T
     (snd (fst (upsert_all (map (fun x => (kf x, df x)) items) now (view T db) (nextId db))))
     (snd (upsert_all (map (fun x => (kf x, df x)) items) now (view T db) (nextId db)))
     db).
Proof.
  revert db. induction items as [|x items IH]; intros db.
  - simpl. unfold ret. by rewrite write_view.
  - rewrite map_cons, transaction_cons, IH, upsert_eq.
    cbn [fst snd map upsert_all].
    by rewrite view_write, next_write, write_write.
Qed.
End UpsertLoop.

Section CreateManyLoop.
Context {P F : Type} `{EqDecision P}.
Context (T : Table (JoinRow P F)) `{!TableOk T}.
Variable flag : F.

Lemma insert_skip_count (ps : list P) (t : list (JoinRow P F)) (n c : nat) :
  foldl (insert_skip flag) (t, n, c) ps =
  (fst (fst (foldl (insert_skip flag) (t, n, 0) ps)),
   snd (fst (foldl (insert_skip flag) (t, n, 0) ps)),
   c + snd (foldl (insert_skip flag) (t, n, 0) ps)).
Proof.
  revert t n c. induction ps as [|p ps IH]; intros t n c; simpl.
  - by rewrite Nat.add_0_r.
  - destruct (has_pair p t).
    + apply IH.
    + rewrite (IH _ _ (S c)), (IH _ _ 1). simpl. by rewrite Nat.add_succ_r.
Qed.

Lemma table_createMany_eq (ps : list P) (t : list (JoinRow P F)) (n : Id) :
  table_createMany flag ps t n =
  (snd (foldl (insert_skip flag) (t, n, 0) ps),
   fst (fst (foldl (insert_skip flag) (t, n, 0) ps)),
   snd (fst (foldl (insert_skip flag) (t, n, 0) ps))).
Proof. unfold table_createMany. by destruct (foldl _ _ _) as [[t' n'] c]. Qed.

Lemma table_createMany_app (p1 p2 : list P) (t : list (JoinRow P F)) (n : Id) :
  table_createMany flag (p1 ++ p2) t n =
  (fst (fst (table_createMany flag p1 t n))
   + fst (fst (table_createMany flag p2 (snd (fst (table_createMany flag p1 t n)))
                                  (snd (table_createMany flag p1 t n)))),
   snd (fst (table_createMany flag p2 (snd (fst (table_createMany flag p1 t n)))
                                  (snd (table_createMany flag p1 t n)))),
   snd (table_createMany flag p2 (snd (fst (table_createMany flag p1 t n)))
                                  (snd (table_createMany flag p1 t n)))).
Proof.
  rewrite !table_createMany_eq. simpl. rewrite foldl_app.
  destruct (foldl (insert_skip flag) (t, n, 0) p1) as [[t1 n1] c1]. simpl.
  by rewrite insert_skip_count.
Qed.

Lemma createMany_eq (ps : list P) (db : Store) :
  createMany T flag ps db =
  (fst (fst (table_createMany flag ps (view T db) (nextId db))),
   write T (snd (fst (table_createMany flag ps (view T db) (nextId db))))
           (snd (table_createMany flag ps (view T db) (nextId db))) db).
Proof. unfold createMany. by destruct (table_createMany _ _ _ _) as [[c t] n]. Qed.

Lemma batched_createMany (size : nat) (ps : list P) (acc : nat) (db : Store) :
  0 < size →
  forBatches size ps
    (fun i batch acc => let* result := createMany T flag batch in ret (acc + result))
    acc db
  = (acc + fst (fst (table_createMany flag ps (view T db) (nextId db))),
     write T (snd (fst (table_createMany flag ps (view T db) (nextId db))))
             (snd (table_createMany flag ps (view T db) (nextId db))) db).
Proof.
  intros Hsize.
  rewrite forBatches_spec
    with (whole := fun items acc =>
                     let* result := createMany T flag items in ret (acc + result)).
  - by rewrite bind_eq, createMany_eq.
  - done.
  - intros acc' db'. rewrite bind_eq, createMany_eq. unfold ret.
    cbn [fst snd table_createMany foldl].
    by rewrite Nat.add_0_r, write_view.
  - intros i b1 b2 acc' db'. rewrite !bind_eq, !createMany_eq. unfold ret.
    cbn [fst snd].
    rewrite view_write, next_write, write_write, table_createMany_app.
    cbn [fst snd]. by rewrite Nat.add_assoc.
Qed.
End CreateManyLoop.

(** ** The steps at table level *)

Lemma index_rows_app {K D} `{Countable K} (m : gmap K Id) (r1 r2 : list (Row K D)) :
  index_rows m (r1 ++ r2) = index_rows (index_rows m r1) r2.
Proof. unfold index_rows. by rewrite foldl_app. Qed.

Lemma seedSectors_spec (ecStandards : list ExtractedEC) (now : Date) (db : Store) :
  let u := upsert_all (sector_kvs ecStandards) now (renecSector db) (nextId db) in
  seedSectors ecStandards now db =
  (index_rows ∅ (first_of u), write prisma.renecSector (table_of u) (next_of u) db).
Proof.
  intros u. unfold seedSectors.
  rewrite batched_transaction
    with (g := fun (acc : gmap Z Id) (_ : list (Z * string)) rs => index_rows acc rs);
    [|lia|done|intros; apply index_rows_app].
  by rewrite (transaction_upsert prisma.renecSector fst
                (fun e => sectorData (fst e) (snd e))).
Qed.

Lemma seedCommittees_spec (committees : list ExtractedCommittee)
    (sectorLookup : gmap Z Id) (now : Date) (db : Store) :
  let u := upsert_all (committee_kvs sectorLookup committees) now
                      (renecCommittee db) (nextId db) in
  seedCommittees committees sectorLookup now db =
  (index_rows ∅ (first_of u), write prisma.renecCommittee (table_of u) (next_of u) db).
Proof.
  intros u. unfold seedCommittees.
  rewrite batched_transaction
    with (g := fun (acc : gmap string Id) (_ : list ExtractedCommittee) rs =>
                 index_rows acc rs);
    [|lia|done|intros; apply index_rows_app].
  by rewrite (transaction_upsert prisma.renecCommittee clave
                (committeeData sectorLookup)).
Qed.

Lemma seedCertifiers_spec (registry : list ExtractedCertifier) (now : Date) (db : Store) :
  let u := upsert_all (cert_kvs registry) now (renecCertifier db) (nextId db) in
  seedCertifiers registry now db =
  (length registry, write prisma.renecCertifier (table_of u) (next_of u) db).
Proof.
  intros u. unfold seedCertifiers.
  rewrite batched_transaction
    with (g := fun (acc : nat) (b : list ExtractedCertifier)
                   (_ : list (Row string CertifierData)) => acc + length b);
    [|lia|intros; simpl; lia|intros; rewrite length_app; lia].
  by rewrite (transaction_upsert prisma.renecCertifier cert_id certifierData).
Qed.

Lemma seedCenters_spec (registry : list ExtractedCenter) (now : Date) (db : Store) :
  let u := upsert_all (center_kvs registry) now (renecCenter db) (nextId db) in
  seedCenters registry now db =
  (length registry, write prisma.renecCenter (table_of u) (next_of u) db).
Proof.
  intros u. unfold seedCenters.
  rewrite batched_transaction
    with (g := fun (acc : nat) (b : list ExtractedCenter)
                   (_ : list (Row string CenterData)) => acc + length b);
    [|lia|intros; simpl; lia|intros; rewrite length_app; lia].
  by rewrite (transaction_upsert prisma.renecCenter center_id centerData).
Qed.

Lemma ecOp_eq (data : ExtractedEC → ECData) (now : Date) (ec : ExtractedEC)
    (db : Store) :
  ecOp data now ec db =
  if JS.truthy (codigo ec)
  then (Some (fst (fst (table_upsert (codigo ec) (data ec) now (renecEC db) (nextId db)))),
        write prisma.renecEC
          (snd (fst (table_upsert (codigo ec) (data ec) now (renecEC db) (nextId db))))
          (snd (table_upsert (codigo ec) (data ec) now (renecEC db) (nextId db))) db)
  else (None, db).
Proof.
  unfold ecOp. destruct (JS.truthy (codigo ec)); [|done].
  cbn [negb]. by rewrite bind_eq, (upsert_eq prisma.renecEC).
Qed.

Lemma omap_id_cons {X} (o : option X) (l : list (option X)) :
  omap id (o :: l) = match o with Some x => x :: omap id l | None => omap id l end.
Proof. by destruct o. Qed.

Lemma transaction_ecOp (data : ExtractedEC → ECData) (now : Date)
    (items : list ExtractedEC) (db : Store) :
  omap id (fst (transaction (map (ecOp data now) items) db))
  = first_of (upsert_all (ec_kvs data items) now (renecEC db) (nextId db))
  ∧ snd (transaction (map (ecOp data now) items) db)
    = write prisma.renecEC
        (table_of (upsert_all (ec_kvs data items) now (renecEC db) (nextId db)))
        (next_of (upsert_all (ec_kvs data items) now (renecEC db) (nextId db))) db.
Proof.
  revert db. induction items as [|ec items IH]; intros db.
  - split; [done|]. by destruct db.
  - rewrite map_cons, transaction_cons, ecOp_eq. unfold ec_kvs. rewrite filter_cons.
    destruct (JS.truthy (codigo ec)) eqn:Ht.
    + rewrite decide_True by done. cbn [fst snd].
      match goal with |- context [write prisma.renecEC ?t ?n db] =>
        destruct (IH (write prisma.renecEC t n db)) as [IH1 IH2];
        change (renecEC (write prisma.renecEC t n db)) with t in IH1, IH2;
        change (nextId (write prisma.renecEC t n db)) with n in IH1, IH2
      end.
      split.
      * rewrite omap_id_cons, IH1. reflexivity.
      * rewrite IH2. by rewrite (write_write (T := prisma.renecEC)).
    + rewrite decide_False by congruence. cbn [fst snd].
      rewrite omap_id_cons. apply IH.
Qed.

Lemma seedECStandards_spec (ecStandards : list ExtractedEC)
    (committees : list ExtractedCommittee)
    (details : option (list (string * ECDetail)))
    (sectorLookup : gmap Z Id) (committeeLookup : gmap string Id)
    (now : Date) (db : Store) :
  let index := foldl index_committee ∅ committees in
  let data := ecData committees details sectorLookup committeeLookup index in
  let u := upsert_all (ec_kvs data ecStandards) now (renecEC db) (nextId db) in
  let j := table_createMany tt (occupation_pairs details (index_rows ∅ (first_of u)))
                            (renecECOccupation db) (next_of u) in
  seedECStandards ecStandards committees details sectorLookup committeeLookup now None db
  = (({| ec_created := length ecStandards; ec_updated := 0; ec_skipped := 0 |},
      Some index),
     write prisma.renecECOccupation (table_of j) (next_of j)
       (write prisma.renecEC (table_of u) (next_of u) db)).
Proof.
  intros index data u j. unfold seedECStandards.
  cbn [buildEcToCommitteeKeyIndex]. fold index. fold data.
  rewrite bind_eq.
  rewrite batched_transaction
    with (g := fun (st : gmap string Id * nat) (b : list ExtractedEC)
                   (rs : list (option (Row string ECData))) =>
                 (index_rows (fst st) (omap id rs), snd st + length b));
    [|lia| |].
  2:{ intros [m c]. simpl. by rewrite Nat.add_0_r. }
  2:{ intros [m c] b1 b2 r1 r2. simpl.
      by rewrite omap_app, index_rows_app, length_app, Nat.add_assoc. }
  destruct (transaction_ecOp data now ecStandards db) as [Hrows Hdb].
  cbn [fst snd]. rewrite Hrows, Hdb. fold u.
  rewrite bind_eq. unfold ret. cbn [fst snd].
  assert (Hnext : nextId (write prisma.renecEC (table_of u) (next_of u) db) = next_of u)
    by apply (next_write (T := prisma.renecEC)).
  assert (Hocc : renecECOccupation (write prisma.renecEC (table_of u) (next_of u) db)
                 = renecECOccupation db) by reflexivity.
  f_equal.
  destruct details as [d|]; cbn [occupation_pairs] in j.
  - rewrite (batched_createMany prisma.renecECOccupation) by lia.
    cbn [snd view prisma.renecECOccupation]. by rewrite Hnext, Hocc.
  - subst j. cbn [snd table_createMany foldl table_of next_of fst].
    by destruct db.
Qed.

Lemma seedAccreditations_spec (matrix : list (string * MatrixEntry)) (db : Store) :
  let pairs := acc_pairs (index_rows ∅ (renecEC db)) (index_rows ∅ (renecCertifier db))
                         matrix in
  let j := table_createMany true pairs (renecAccreditation db) (nextId db) in
  seedAccreditations matrix db =
  ({| created := first_of j;
      skipped := Z.of_nat (length pairs) - Z.of_nat (first_of j) |},
   write prisma.renecAccreditation (table_of j) (next_of j) db).
Proof.
  intros pairs j. unfold seedAccreditations.
  rewrite bind_eq. unfold findMany at 1 2. cbn [fst snd].
  rewrite bind_eq. unfold findMany at 1 2. cbn [fst snd].
  rewrite bind_eq.
  rewrite (batched_createMany prisma.renecAccreditation) by lia.
  unfold ret. cbn [fst snd]. reflexivity.
Qed.

Lemma seedCenterOfferings_spec (registry : list ExtractedCenter) (db : Store) :
  let collected := foldl (offer_collect (index_rows ∅ (renecEC db))
                                        (index_rows ∅ (renecCenter db)))
                         ([], 0) registry in
  let pairs := offer_pairs (index_rows ∅ (renecEC db)) (index_rows ∅ (renecCenter db))
                           registry in
  let j := table_createMany true pairs (renecCenterOffering db) (nextId db) in
  seedCenterOfferings registry db =
  ({| created := first_of j;
      skipped := Z.of_nat (length pairs) - Z.of_nat (first_of j)
                 + Z.of_nat (snd collected) |},
   write prisma.renecCenterOffering (table_of j) (next_of j) db).
Proof.
  intros collected pairs j. unfold seedCenterOfferings.
  rewrite bind_eq. unfold findMany at 1 2. cbn [fst snd].
  rewrite bind_eq. unfold findMany at 1 2. cbn [fst snd].
  rewrite bind_eq.
  rewrite (batched_createMany prisma.renecCenterOffering) by lia.
  unfold ret. cbn [fst snd]. reflexivity.
Qed.

Lemma snd_optional {X R Y} (o : option X) (step : X → M R) (f : R → Y) (s : Y)
    (db : Store) :
  snd ((match o with
        | Some r => let* c := step r in ret (f c)
        | None => ret s
        end) db)
  = match o with Some r => snd (step r db) | None => db end.
Proof. destruct o; [by rewrite bind_eq | done]. Qed.

Lemma certifiers_step (o : option (list ExtractedCertifier)) (now : Date) (db : Store) :
  match o with Some r => snd (seedCertifiers r now db) | None => db end
  = write prisma.renecCertifier
      (table_of (upsert_all (cert_kvs (default [] o)) now (renecCertifier db) (nextId db)))
      (next_of (upsert_all (cert_kvs (default [] o)) now (renecCertifier db) (nextId db)))
      db.
Proof. destruct o; [by rewrite seedCertifiers_spec | by destruct db]. Qed.

Lemma centers_step (o : option (list ExtractedCenter)) (now : Date) (db : Store) :
  match o with Some r => snd (seedCenters r now db) | None => db end
  = write prisma.renecCenter
      (table_of (upsert_all (center_kvs (default [] o)) now (renecCenter db) (nextId db)))
      (next_of (upsert_all (center_kvs (default [] o)) now (renecCenter db) (nextId db)))
      db.
Proof. destruct o; [by rewrite seedCenters_spec | by destruct db]. Qed.

Lemma accreditations_step (o : option (list (string * MatrixEntry))) (db : Store) :
  match o with Some m => snd (seedAccreditations m db) | None => db end
  = write prisma.renecAccreditation
      (table_of (table_createMany true
         (acc_pairs (index_rows ∅ (renecEC db)) (index_rows ∅ (renecCertifier db))
                    (default [] o))
         (renecAccreditation db) (nextId db)))
      (next_of (table_createMany true
         (acc_pairs (index_rows ∅ (renecEC db)) (index_rows ∅ (renecCertifier db))
                    (default [] o))
         (renecAccreditation db) (nextId db)))
      db.
Proof. destruct o; [by rewrite seedAccreditations_spec | by destruct db]. Qed.

Lemma offerings_step (o : option (list ExtractedCenter)) (db : Store) :
  match o with Some r => snd (seedCenterOfferings r db) | None => db end
  = write prisma.renecCenterOffering
      (table_of (table_createMany true
         (offer_pairs (index_rows ∅ (renecEC db)) (index_rows ∅ (renecCenter db))
                      (default [] o))
         (renecCenterOffering db) (nextId db)))
      (next_of (table_createMany true
         (offer_pairs (index_rows ∅ (renecEC db)) (index_rows ∅ (renecCenter db))
                      (default [] o))
         (renecCenterOffering db) (nextId db)))
      db.
Proof. destruct o; [by rewrite seedCenterOfferings_spec | by destruct db]. Qed.

(** Steps 2 and 3 together, whichever branch [main] takes. *)
Lemma committees_standards_step (ecStandards : list ExtractedEC)
    (committees : list ExtractedCommittee)
    (details : option (list (string * ECDetail)))
    (sectorLookup : gmap Z Id) (stats : list (string * nat)) (now : Date) (db : Store) :
  let u2 := upsert_all (committee_kvs sectorLookup committees) now
                       (renecCommittee db) (nextId db) in
  let data := ecData committees details sectorLookup (index_rows ∅ (first_of u2))
                     (foldl index_committee ∅ committees) in
  let u3 := upsert_all (ec_kvs data ecStandards) now (renecEC db) (next_of u2) in
  let j3 := table_createMany tt (occupation_pairs details (index_rows ∅ (first_of u3)))
                             (renecECOccupation db) (next_of u3) in
  snd ((if 0 <? length committees then
          let* committeeLookup := seedCommittees committees sectorLookup now in
          let stats := stats ++ [("committees", size committeeLookup)] in
          let* ecResult :=
            seedECStandards ecStandards committees details sectorLookup
                            committeeLookup now None in
          ret (stats ++ [("ecStandards", ec_created (fst ecResult))])
        else
          let emptyCommitteeLookup : gmap string Id := ∅ in
          let* ecResult :=
            seedECStandards ecStandards committees details sectorLookup
                            emptyCommitteeLookup now None in
          ret (stats ++ [("ecStandards", ec_created (fst ecResult))])) db)
  = write prisma.renecECOccupation (table_of j3) (next_of j3)
      (write prisma.renecEC (table_of u3) (next_of u3)
         (write prisma.renecCommittee (table_of u2) (next_of u2) db)).
Proof.
  destruct committees as [|c cs].
  - cbn [length Nat.ltb Nat.leb]. cbv zeta.
    rewrite bind_eq, seedECStandards_spec. by destruct db.
  - cbn [length Nat.ltb Nat.leb]. cbv zeta.
    rewrite bind_eq, seedCommittees_spec. cbn [fst snd].
    rewrite bind_eq, seedECStandards_spec. reflexivity.
Qed.

(** The seven steps write the store that [steps_store] describes. *)
Lemma run_steps_store (ecStandards : list ExtractedEC)
    (eceMatrix : option ECECEMatrixFile)
    (certifierRegistry : option CertifierRegistryFile)
    (centerRegistry : option CenterRegistryFile)
    (committees : list ExtractedCommittee)
    (ecCertifiersAll : option ECCertifiersAllFile) (now : Date) (db : Store) :
  snd (run_steps ecStandards eceMatrix certifierRegistry centerRegistry committees
                 ecCertifiersAll now db)
  = steps_store ecStandards committees (ec_details <$> ecCertifiersAll)
      (default [] (certifierRegistry ≫= cert_registry))
      (default [] (centerRegistry ≫= center_registry))
      (default [] (eceMatrix ≫= matrix)) now db.
Proof.
  unfold run_steps. rewrite bind_eq, seedSectors_spec. cbn [fst snd].
  rewrite bind_eq.
  rewrite bind_eq. rewrite bind_eq. rewrite bind_eq. rewrite bind_eq.
  unfold ret at 1. cbn [snd].
  rewrite snd_optional, offerings_step.
  rewrite snd_optional, accreditations_step.
  rewrite snd_optional, centers_step.
  rewrite snd_optional, certifiers_step.
  rewrite committees_standards_step.
  reflexivity.
Qed.

Lemma fst_optional {X R Y} (o : option X) (step : X → M R) (f : R → Y) (s : Y)
    (db : Store) :
  fst ((match o with
        | Some r => let* c := step r in ret (f c)
        | None => ret s
        end) db)
  = match o with Some r => f (fst (step r db)) | None => s end.
Proof. destruct o; [by rewrite bind_eq | done]. Qed.

Lemma certifiers_stats (o : option (list ExtractedCertifier)) (now : Date)
    (stats : list (string * nat)) (db : Store) :
  match o with
  | Some r => stats ++ [("certifiers", fst (seedCertifiers r now db))]
  | None => stats
  end
  = stats ++ match o with Some r => [("certifiers", length r)] | None => [] end.
Proof. destruct o; [by rewrite seedCertifiers_spec | by rewrite app_nil_r]. Qed.

Lemma centers_stats (o : option (list ExtractedCenter)) (now : Date)
    (stats : list (string * nat)) (db : Store) :
  match o with
  | Some r => stats ++ [("centers", fst (seedCenters r now db))]
  | None => stats
  end
  = stats ++ match o with Some r => [("centers", length r)] | None => [] end.
Proof. destruct o; [by rewrite seedCenters_spec | by rewrite app_nil_r]. Qed.

Lemma accreditations_stats (o : option (list (string * MatrixEntry)))
    (stats : list (string * nat)) (db : Store) :
  match o with
  | Some m => stats ++ [("accreditations", created (fst (seedAccreditations m db)))]
  | None => stats
  end
  = stats ++
    match o with
    | Some _ =>
        [("accreditations",
          first_of (table_createMany true
            (acc_pairs (index_rows ∅ (renecEC db)) (index_rows ∅ (renecCertifier db))
                       (default [] o))
            (renecAccreditation db) (nextId db)))]
    | None => []
    end.
Proof. destruct o; [by rewrite seedAccreditations_spec | by rewrite app_nil_r]. Qed.

Lemma offerings_stats (o : option (list ExtractedCenter))
    (stats : list (string * nat)) (db : Store) :
  match o with
  | Some r => stats ++ [("centerOfferings", created (fst (seedCenterOfferings r db)))]
  | None => stats
  end
  = stats ++
    match o with
    | Some _ =>
        [("centerOfferings",
          first_of (table_createMany true
            (offer_pairs (index_rows ∅ (renecEC db)) (index_rows ∅ (renecCenter db))
                         (default [] o))
            (renecCenterOffering db) (nextId db)))]
    | None => []
    end.
Proof. destruct o; [by rewrite seedCenterOfferings_spec | by rewrite app_nil_r]. Qed.

Lemma committees_standards_stats (ecStandards : list ExtractedEC)
    (committees : list ExtractedCommittee)
    (details : option (list (string * ECDetail)))
    (sectorLookup : gmap Z Id) (stats : list (string * nat)) (now : Date) (db : Store) :
  fst ((if 0 <? length committees then
          let* committeeLookup := seedCommittees committees sectorLookup now in
          let stats := stats ++ [("committees", size committeeLookup)] in
          let* ecResult :=
            seedECStandards ecStandards committees details sectorLookup
                            committeeLookup now None in
          ret (stats ++ [("ecStandards", ec_created (fst ecResult))])
        else
          let emptyCommitteeLookup : gmap string Id := ∅ in
          let* ecResult :=
            seedECStandards ecStandards committees details sectorLookup
                            emptyCommitteeLookup now None in
          ret (stats ++ [("ecStandards", ec_created (fst ecResult))])) db)
  = (stats
     ++ (if 0 <? length committees
         then [("committees",
                size (index_rows ∅
                        (first_of (upsert_all (committee_kvs sectorLookup committees) now
                                     (renecCommittee db) (nextId db)))))]
         else []))
    ++ [("ecStandards", length ecStandards)].
Proof.
  destruct committees as [|c cs].
  - cbn [length Nat.ltb Nat.leb]. cbv zeta.
    by rewrite bind_eq, seedECStandards_spec, app_nil_r.
  - cbn [length Nat.ltb Nat.leb]. cbv zeta.
    rewrite bind_eq, seedCommittees_spec. cbn [fst snd].
    by rewrite bind_eq, seedECStandards_spec.
Qed.

(** The [stats] object after the seven steps. *)
Lemma run_steps_stats (ecStandards : list ExtractedEC)
    (eceMatrix : option ECECEMatrixFile)
    (certifierRegistry : option CertifierRegistryFile)
    (centerRegistry : option CenterRegistryFile)
    (committees : list ExtractedCommittee)
    (ecCertifiersAll : option ECCertifiersAllFile) (now : Date) (db : Store) :
  fst (run_steps ecStandards eceMatrix certifierRegistry centerRegistry committees
                 ecCertifiersAll now db)
  = steps_stats ecStandards committees (ec_details <$> ecCertifiersAll)
      (certifierRegistry ≫= cert_registry)
      (centerRegistry ≫= center_registry)
      (eceMatrix ≫= matrix) now db.
Proof.
  unfold run_steps. rewrite bind_eq, seedSectors_spec. cbn [fst snd].
  rewrite bind_eq.
  rewrite bind_eq. rewrite bind_eq. rewrite bind_eq. rewrite bind_eq.
  unfold ret at 1. cbn [fst].
  rewrite !fst_optional, !snd_optional.
  rewrite offerings_stats, accreditations_stats, centers_stats, certifiers_stats.
  rewrite centers_step, certifiers_step, accreditations_step.
  rewrite committees_standards_step, committees_standards_stats.
  reflexivity.
Qed.

(** ** The run as a whole *)

Lemma createSyncJobRecord_eq (stats : list (string * nat)) (startTime now : Date)
    (db : Store) :
  createSyncJobRecord stats startTime now db = (tt, record_run stats startTime now db).
Proof. reflexivity. Qed.

(** What [main] does, by cases on the mandatory input. *)
Lemma main_spec (dataDir : option DataDir) (startTime now : Date) (db : Store) :
  main dataDir startTime now db =
  match dataDir with
  | Some dir =>
      match loadJsonFile (ec_standards_api dir) with
      | Some (ec :: ecs) =>
          (0, record_run (run_stats dir (ec :: ecs) now db) startTime now
                (run_store dir (ec :: ecs) now db))
      | _ => (1, db)
      end
  | None => (1, db)
  end.
Proof.
  unfold main. destruct dataDir as [dir|]; [|done].
  destruct (loadJsonFile (ec_standards_api dir)) as [[|ec ecs]|]; [done| |done].
  rewrite bind_eq, bind_eq, createSyncJobRecord_eq. unfold ret. cbn [fst snd].
  by rewrite run_steps_stats, run_steps_store.
Qed.



(** ** The sync ledger *)


(** A run in which the accreditation pass meets an unknown certifier
    still records a COMPLETED row with nothing skipped. *)
Lemma ledger_row_with_unresolved_pair :
  let dir :=
    {| ec_standards_api := Parsed [bare_ec "EC0249" "5"];
       ec_ece_matrix :=
         Parsed {| mx_generated_at := EmptyString; total_ecs := 1;
                   matrix := Some matrix_unknown_certifier |};
       master_ece_registry := Missing;
       master_ccap_registry := Missing;
       committees_complete := Missing;
       ec_certifiers_all := Missing |} in
  let result := main (Some dir) 0%Z 1%Z emptyStore in
  fst result = 0
  ∧ map (fun row => (status row, itemsProcessed row, itemsCreated row,
                     itemsUpdated row, itemsSkipped row, errors row))
        (renecSyncJob (snd result))
    = [(COMPLETED, 2, 2, 0, 0, [])]
  ∧ renecAccreditation (snd result) = [].
Proof. by vm_compute. Qed.

(** ** The scenario of the single standard *)

(** C3, with the count the code records.  Given the standard list with the
    one record of code EC0249 and sector 5, and the matrix and the two
    registries empty or absent, a run on an empty store exits with 0 and
    leaves exactly one standard row (of that code), no accreditation row,
    and one ledger row; that row counts two items processed: the sector
    that the first step derives from the record, and the standard. *)
Theorem scenario_single_standard (mx certs centers : Blank) (startTime now : Date) :
  let result := main (Some (scenario_EC0249 mx certs centers)) startTime now emptyStore in
  fst result = 0
  ∧ map row_key (renecEC (snd result)) = ["EC0249"]
  ∧ map row_key (renecSector (snd result)) = [5%Z]
  ∧ renecAccreditation (snd result) = []
  ∧ map itemsProcessed (renecSyncJob (snd result)) = [2]
  ∧ run_stats (scenario_EC0249 mx certs centers) [bare_ec "EC0249" "5"] now emptyStore
    = [("sectors", 1)] ++ [("ecStandards", 1)]
      ++ match certs with EmptyContent => [("certifiers", 0)] | _ => [] end
      ++ match centers with EmptyContent => [("centers", 0)] | _ => [] end
      ++ match mx with EmptyContent => [("accreditations", 0)] | _ => [] end
      ++ match centers with EmptyContent => [("centerOfferings", 0)] | _ => [] end.
Proof. destruct mx, certs, centers; by vm_compute. Qed.

(** C3 as stated fails: in the scenario the ledger row counts two items,
    not one. *)
Lemma scenario_single_standard_counts_two :
  let result :=
    main (Some (scenario_EC0249 Absent Absent Absent)) 0%Z 0%Z emptyStore in
  length (renecEC (snd result)) = 1
  ∧ length (renecAccreditation (snd result)) = 0
  ∧ map itemsProcessed (renecSyncJob (snd result)) = [2]
  ∧ map itemsProcessed (renecSyncJob (snd result)) ≠ [1].
Proof. by vm_compute. Qed.

(** ** Skip accounting of the relationship passes *)

(** What the accreditation pass reports: the created rows and the resolved
    pairs that were not created.  The two add up to the resolved pairs. *)
Lemma seedAccreditations_accounting (matrix : list (string * MatrixEntry)) (db : Store) :
  let result := fst (seedAccreditations matrix db) in
  let pairs := acc_pairs (index_rows ∅ (renecEC db)) (index_rows ∅ (renecCertifier db))
                         matrix in
  (Z.of_nat (created result) + skipped result = Z.of_nat (length pairs))%Z.
Proof.
  intros result pairs. subst result. rewrite seedAccreditations_spec.
  cbn [fst created skipped]. fold pairs. lia.
Qed.

(** C2 on the code.  The store holds the standard EC0249 and no certifier;
    the matrix lists one pair, whose certifier is unknown.  One pair is
    attempted; the pass reports nothing created and nothing skipped. *)
Theorem seedAccreditations_drops_unresolved :
  let result := fst (seedAccreditations matrix_unknown_certifier store_EC0249) in
  pairs_attempted matrix_unknown_certifier = 1
  ∧ created result = 0
  ∧ skipped result = 0%Z
  ∧ Z.of_nat (pairs_attempted matrix_unknown_certifier)
    ≠ (Z.of_nat (created result) + skipped result)%Z.
Proof. by vm_compute. Qed.

(** The offering pass keeps the counter of its loop: a center of the store
    that offers an unknown standard is reported as one skipped pair. *)
Lemma seedCenterOfferings_counts_unresolved :
  let db := snd (seedCenters [center_unknown_standard] 0%Z store_EC0249) in
  let result := fst (seedCenterOfferings [center_unknown_standard] db) in
  created result = 0 ∧ skipped result = 1%Z.
Proof. by vm_compute. Qed.

(** ** The content fingerprint *)

(** The digest on the test vectors of the standard. *)
Lemma sha256_test_vectors :
  Sha256.hex_digest "abc"
  = "ba7816bf8f01cfea414140de5dae2223b00361a396177a9cb410ff61f20015ad"
  ∧ Sha256.hex_digest EmptyString
    = "e3b0c44298fc1c149afbf4c8996fb92427ae41e4649b934ca495991b7852b855"
  ∧ Sha256.hex_digest "abcdbcdecdefdefgefghfghighijhijkijkljklmklmnlmnomnopnopq"
    = "248d6a61d20638b8e5c026930c3e6039a33ce45964ff2167f6ecedd419db06c1".
Proof. by vm_compute. Qed.















(** ** Upserts at table level *)

Section UpsertAll.
Context {K D : Type} `{EqDecision K}.
Implicit Types (t : list (Row K D)) (kvs : list (K * D)) (r : Row K D).

Lemma kid_touch (k : K) (d : D) (now : Date) r : kid (touch k d now r) = kid r.
Proof. unfold touch, kid. by destruct (decide (row_key r = k)) as [<-|]. Qed.

Lemma find_key_kid (k : K) t :
  kid <$> List.find (fun r => bool_decide (row_key r = k)) t
  = List.find (fun p => bool_decide (fst p = k)) (map kid t).
Proof.
  induction t as [|r t IH]; [done|]. simpl.
  by destruct (bool_decide (row_key r = k)).
Qed.

Lemma find_key_None (k : K) t :
  List.find (fun r => bool_decide (row_key r = k)) t = None ↔ k ∉ map row_key t.
Proof.
  induction t as [|r t IH]; simpl.
  - split; [intros _; apply not_elem_of_nil | done].
  - rewrite not_elem_of_cons. case_bool_decide as Hk.
    + split; [done | intros [Hne _]; by destruct Hne].
    + rewrite IH. split; [by intros ? | by intros [_ ?]].
Qed.

(** The two cases of one upsert. *)
Lemma table_upsert_found (k : K) (d : D) (now : Date) t (n : Id) :
  k ∈ map row_key t →
  table_upsert k d now t n
  = (mkRow (lookup_kid k (map kid t)) k d now, map (touch k d now) t, n).
Proof.
  intros Hin. unfold table_upsert, lookup_kid. rewrite <- find_key_kid.
  destruct (List.find _ t) as [r0|] eqn:Hf; [done|].
  by apply find_key_None in Hf.
Qed.

Lemma table_upsert_new (k : K) (d : D) (now : Date) t (n : Id) :
  k ∉ map row_key t →
  table_upsert k d now t n = (mkRow n k d now, t ++ [mkRow n k d now], S n).
Proof. intros Hin%find_key_None. unfold table_upsert. by rewrite Hin. Qed.

Lemma lookup_kid_app (k : K) (kids ext : list (K * Id)) :
  k ∈ map fst kids → lookup_kid k (kids ++ ext) = lookup_kid k kids.
Proof.
  unfold lookup_kid. induction kids as [|p kids IH]; simpl.
  - by intros ?%not_elem_of_nil.
  - intros Hin. case_bool_decide as Hp; [done|].
    apply IH. apply elem_of_cons in Hin as [Hin|Hin]; [by destruct Hp | done].
Qed.

Lemma lookup_kid_snoc (k : K) (i : Id) (kids : list (K * Id)) :
  k ∉ map fst kids → lookup_kid k (kids ++ [(k, i)]) = i.
Proof.
  unfold lookup_kid. induction kids as [|p kids IH]; simpl.
  - intros _. by rewrite bool_decide_true.
  - rewrite not_elem_of_cons. intros [Hne Hin].
    rewrite bool_decide_false by done. by apply IH.
Qed.

Lemma map_fst_kid t : map fst (map kid t) = map row_key t.
Proof. by rewrite map_map. Qed.

(** One upsert keeps the (key, identity) pairs of the table, in order,
    and may add one; afterwards the key is in the table, bound to the
    identity of the returned row, and every row of that key carries the
    written columns. *)
Lemma table_upsert_facts (k : K) (d : D) (now : Date) t (n : Id) :
  let u := table_upsert k d now t n in
  (∃ ext, map kid (table_of u) = map kid t ++ ext)
  ∧ k ∈ map row_key (table_of u)
  ∧ first_of u = mkRow (lookup_kid k (map kid (table_of u))) k d now
  ∧ (∀ r, r ∈ table_of u → row_key r = k → r = mkRow (row_id r) k d now)
  ∧ (∀ r, r ∈ table_of u → row_key r ≠ k → r ∈ t).
Proof.
  destruct (decide (k ∈ map row_key t)) as [Hin|Hnin].
  - rewrite table_upsert_found by done. cbn [table_of first_of fst snd].
    assert (Hkid : map kid (map (touch k d now) t) = map kid t).
    { rewrite map_map. apply map_ext. intros r. apply kid_touch. }
    repeat split.
    + exists []. by rewrite app_nil_r.
    + by rewrite <- map_fst_kid, Hkid, map_fst_kid.
    + by rewrite Hkid.
    + intros r (r' & -> & Hr')%list_elem_of_fmap Hk. unfold touch in *.
      destruct (decide (row_key r' = k)); [done|]. by destruct n0.
    + intros r (r' & -> & Hr')%list_elem_of_fmap Hk. unfold touch in *.
      destruct (decide (row_key r' = k)); [by destruct Hk | done].
  - rewrite table_upsert_new by done. cbn [table_of first_of fst snd].
    repeat split.
    + exists [(k, n)]. by rewrite map_app.
    + rewrite map_app. apply elem_of_app. right. apply list_elem_of_here.
    + rewrite map_app. change (map kid [mkRow n k d now]) with [(k, n)].
      rewrite lookup_kid_snoc; [done | by rewrite map_fst_kid].
    + intros r [Hr|Hr%list_elem_of_singleton]%elem_of_app Hk; [|by subst r].
      destruct Hnin. rewrite <- Hk. by apply list_elem_of_fmap_2.
    + intros r [Hr|Hr%list_elem_of_singleton]%elem_of_app Hk; [done|].
      subst r. by destruct Hk.
Qed.
End UpsertAll.

Section UpsertAllFacts.
Context {K D : Type} `{EqDecision K}.
Implicit Types (t : list (Row K D)) (kvs : list (K * D)) (r : Row K D).

Lemma upsert_all_cons (kv : K * D) kvs (now : Date) t (n : Id) :
  upsert_all (kv :: kvs) now t n =
  (first_of (table_upsert (fst kv) (snd kv) now t n)
     :: first_of (upsert_all kvs now (table_of (table_upsert (fst kv) (snd kv) now t n))
                             (next_of (table_upsert (fst kv) (snd kv) now t n))),
   table_of (upsert_all kvs now (table_of (table_upsert (fst kv) (snd kv) now t n))
                        (next_of (table_upsert (fst kv) (snd kv) now t n))),
   next_of (upsert_all kvs now (table_of (table_upsert (fst kv) (snd kv) now t n))
                       (next_of (table_upsert (fst kv) (snd kv) now t n)))).
Proof. reflexivity. Qed.

Lemma keys_of_kids t1 t2 (ext : list (K * Id)) :
  map kid t1 = map kid t2 ++ ext →
  ∀ k, k ∈ map row_key t2 → k ∈ map row_key t1.
Proof.
  intros Hk k Hin. rewrite <- (map_fst_kid t1), Hk, map_app, map_fst_kid.
  apply elem_of_app. by left.
Qed.

(** A sequence of upserts keeps the (key, identity) pairs of the table
    and appends the new ones; afterwards every written key is in the
    table, the returned rows carry the identities bound in the table,
    every row is settled, and a row whose key was not written is a row of
    the table before. *)
Lemma upsert_all_facts kvs (now : Date) t (n : Id) :
  let u := upsert_all kvs now t n in
  (∃ ext, map kid (table_of u) = map kid t ++ ext)
  ∧ (∀ kv, kv ∈ kvs → fst kv ∈ map row_key (table_of u))
  ∧ first_of u
    = map (fun kv => mkRow (lookup_kid (fst kv) (map kid (table_of u)))
                           (fst kv) (snd kv) now) kvs
  ∧ (∀ r, r ∈ table_of u → settle kvs now r = r)
  ∧ (∀ r, r ∈ table_of u → final kvs (row_key r) = None → r ∈ t).
Proof.
  revert t n. induction kvs as [|kv kvs IH]; intros t n.
  - cbn. repeat split; try done.
    + exists []. by rewrite app_nil_r.
    + by intros kv ?%not_elem_of_nil.
  - rewrite upsert_all_cons.
    destruct (table_upsert_facts (fst kv) (snd kv) now t n)
      as ([e0 He0] & Hk0 & Hf0 & Hw0 & Hu0).
    set (u0 := table_upsert (fst kv) (snd kv) now t n) in *.
    destruct (IH (table_of u0) (next_of u0)) as ([e1 He1] & Hk1 & Hf1 & Hs1 & Hu1).
    set (u1 := upsert_all kvs now (table_of u0) (next_of u0)) in *.
    cbn [table_of first_of next_of fst snd].
    change (u1.1.2) with (table_of u1). change (u1.1.1) with (first_of u1).
    change (u0.1.1) with (first_of u0).
    repeat split.
    + exists (e0 ++ e1). by rewrite He1, He0, app_assoc.
    + intros kv' [->|Hin]%elem_of_cons; [|by apply Hk1].
      by eapply keys_of_kids.
    + cbn [map]. rewrite <- Hf1, Hf0, He1. f_equal. f_equal.
      symmetry. apply lookup_kid_app. by rewrite map_fst_kid.
    + intros r Hr. specialize (Hs1 r Hr). unfold settle in *. cbn [final].
      destruct (final kvs (row_key r)) as [d'|] eqn:Hfin; [done|].
      destruct (decide (fst kv = row_key r)) as [Hkr|Hkr]; [|done].
      rewrite <- Hkr. symmetry. apply Hw0; [by apply Hu1 | done].
    + intros r Hr. cbn [final].
      destruct (final kvs (row_key r)) as [d'|] eqn:Hfin; [done|].
      destruct (decide (fst kv = row_key r)) as [Hkr|Hkr]; [done|].
      intros _. apply Hu0; [by apply Hu1 | done].
Qed.

Lemma settle_touch (kv : K * D) kvs (now : Date) r :
  settle kvs now (touch (fst kv) (snd kv) now r) = settle (kv :: kvs) now r.
Proof.
  unfold settle, touch. cbn [final].
  destruct (decide (row_key r = fst kv)) as [Hk|Hk].
  - cbn [row_key row_id]. rewrite <- Hk.
    destruct (final kvs (row_key r)); [done|]. by rewrite decide_True.
  - destruct (final kvs (row_key r)); [done|]. by rewrite decide_False.
Qed.

(** When every written key is already in the table, the upserts create
    nothing: they settle the rows in place. *)
Lemma upsert_all_present kvs (now : Date) t (n : Id) :
  (∀ kv, kv ∈ kvs → fst kv ∈ map row_key t) →
  upsert_all kvs now t n
  = (map (fun kv => mkRow (lookup_kid (fst kv) (map kid t)) (fst kv) (snd kv) now) kvs,
     map (settle kvs now) t, n).
Proof.
  revert t. induction kvs as [|kv kvs IH]; intros t Hin.
  - cbn [upsert_all map]. f_equal. f_equal.
    clear. induction t as [|r t IHt]; [done|]. cbn [map]. by rewrite <- IHt.
  - rewrite upsert_all_cons, table_upsert_found by (apply Hin, list_elem_of_here).
    cbn [table_of first_of next_of fst snd].
    assert (Hkid : map kid (map (touch (fst kv) (snd kv) now) t) = map kid t).
    { rewrite map_map. apply map_ext. intros r. apply kid_touch. }
    rewrite IH.
    + cbn [fst snd map]. rewrite Hkid, map_map. f_equal. f_equal.
      apply map_ext. intros r. apply settle_touch.
    + intros kv' Hkv'. rewrite <- map_fst_kid, Hkid, map_fst_kid.
      apply Hin. by apply list_elem_of_further.
Qed.

Lemma untimed_settle kvs (now now' : Date) r :
  untimed (settle kvs now' r) = untimed (settle kvs now r).
Proof. unfold settle. by destruct (final kvs (row_key r)). Qed.

(** Running the same upserts again on the table they left changes
    nothing but the times: no identity is drawn, every row keeps its
    identity, key and columns, and the same identities are returned. *)
Lemma upsert_all_again kvs (now now' : Date) t (n n' : Id) :
  let u := upsert_all kvs now t n in
  let u' := upsert_all kvs now' (table_of u) n' in
  next_of u' = n'
  ∧ map untimed (table_of u') = map untimed (table_of u)
  ∧ map kid (first_of u') = map kid (first_of u).
Proof.
  intros u u'.
  destruct (upsert_all_facts kvs now t n) as (_ & Hk & Hf & Hs & _). fold u in Hk, Hf, Hs.
  subst u'. rewrite upsert_all_present by done.
  cbn [table_of first_of next_of fst snd]. repeat split.
  - rewrite map_map. apply map_ext_in. intros r Hr%list_elem_of_In.
    by rewrite (untimed_settle kvs now now'), Hs.
  - rewrite Hf, !map_map. by apply map_ext.
Qed.

Lemma kid_of_untimed t1 t2 :
  map untimed t1 = map untimed t2 → map kid t1 = map kid t2.
Proof.
  intros Hu.
  assert (∀ t, map kid t = map (fun x : Id * K * D => (snd (fst x), fst (fst x)))
                            (map untimed t)) as Hk.
  { intros t. rewrite map_map. by apply map_ext. }
  by rewrite (Hk t1), (Hk t2), Hu.
Qed.
End UpsertAllFacts.

Lemma index_rows_kid {K D} `{Countable K} (m : gmap K Id) (r1 r2 : list (Row K D)) :
  map kid r1 = map kid r2 → index_rows m r1 = index_rows m r2.
Proof.
  assert (∀ (r : list (Row K D)) m,
            index_rows m r = foldl (fun m p => <[fst p := snd p]> m) m (map kid r)) as Hk.
  { intros r. induction r as [|x r IH]; intros m'; [done|]. simpl. by rewrite <- IH. }
  intros Heq. by rewrite !Hk, Heq.
Qed.

(** ** Skip-duplicate inserts at table level *)

Section CreateManyAgain.
Context {P F : Type} `{EqDecision P}.
Implicit Types (t : list (JoinRow P F)) (ps : list P).

Lemma has_pair_app (p : P) t1 t2 :
  has_pair p (t1 ++ t2) = has_pair p t1 || has_pair p t2.
Proof. unfold has_pair. apply existsb_app. Qed.

Lemma insert_skip_facts (flag : F) ps t (n c : nat) :
  let st := foldl (insert_skip flag) (t, n, c) ps in
  (∀ p, has_pair p t = true → has_pair p (fst (fst st)) = true)
  ∧ (∀ p, p ∈ ps → has_pair p (fst (fst st)) = true).
Proof.
  revert t n c. induction ps as [|q ps IH]; intros t n c.
  - cbn. split; [done | by intros p ?%not_elem_of_nil].
  - cbn [foldl insert_skip]. destruct (has_pair q t) eqn:Hq.
    + destruct (IH t n c) as [Hmono Hin]. split; [done|].
      intros p [->|Hp]%elem_of_cons; [by apply Hmono | by apply Hin].
    + destruct (IH (t ++ [mkJoin n q flag]) (S n) (S c)) as [Hmono Hin].
      assert (∀ p, has_pair p t = true → has_pair p (t ++ [mkJoin n q flag]) = true)
        as Hstep.
      { intros p Hp. by rewrite has_pair_app, Hp. }
      split; [intros p Hp; by apply Hmono, Hstep|].
      intros p [->|Hp]%elem_of_cons; [|by apply Hin].
      apply Hmono. rewrite has_pair_app. apply orb_true_iff. right.
      unfold has_pair. cbn. by rewrite bool_decide_true.
Qed.

Lemma insert_skip_present (flag : F) ps t (n c : nat) :
  (∀ p, p ∈ ps → has_pair p t = true) →
  foldl (insert_skip flag) (t, n, c) ps = (t, n, c).
Proof.
  induction ps as [|q ps IH]; intros Hin; [done|].
  cbn [foldl insert_skip]. rewrite Hin by apply list_elem_of_here.
  apply IH. intros p Hp. by apply Hin, list_elem_of_further.
Qed.

(** Inserting the same pairs again creates nothing. *)
Lemma table_createMany_again (flag : F) ps t (n n' : Id) :
  table_createMany flag ps (table_of (table_createMany flag ps t n)) n'
  = (0, table_of (table_createMany flag ps t n), n').
Proof.
  rewrite (table_createMany_eq flag ps t n). cbn [table_of fst snd].
  rewrite table_createMany_eq.
  destruct (insert_skip_facts flag ps t n 0) as [_ Hin].
  by rewrite insert_skip_present.
Qed.
End CreateManyAgain.

(** ** Idempotence of the run *)

Section Again.
Variable ecStandards : list ExtractedEC.
Variable committees : list ExtractedCommittee.
Variable details : option (list (string * ECDetail)).
Variable certifiers : list ExtractedCertifier.
Variable centers : list ExtractedCenter.
Variable mx : list (string * MatrixEntry).
Variables now now' : Date.
(** [db] is the store before the first run, [db'] a store that holds the
    tables the first run left: the store before the second run. *)
Variables db db' : Store.
Hypothesis Hsector :
  renecSector db' = table_of (u_sectors ecStandards now db).
Hypothesis Hcommittee :
  renecCommittee db' = table_of (u_committees ecStandards committees now db).
Hypothesis Hec :
  renecEC db' = table_of (u_standards ecStandards committees details now db).
Hypothesis Hocc :
  renecECOccupation db'
  = table_of (j_occupations ecStandards committees details now db).
Hypothesis Hcert :
  renecCertifier db'
  = table_of (u_certifiers ecStandards committees details certifiers now db).
Hypothesis Hcenter :
  renecCenter db'
  = table_of (u_centers ecStandards committees details certifiers centers now db).
Hypothesis Hacc :
  renecAccreditation db'
  = table_of (j_accreditations ecStandards committees details certifiers centers mx
                               now db).
Hypothesis Hoffer :
  renecCenterOffering db'
  = table_of (j_offerings ecStandards committees details certifiers centers mx now db).

Lemma sectors_again :
  next_of (u_sectors ecStandards now' db') = nextId db'
  ∧ map untimed (table_of (u_sectors ecStandards now' db')) = map untimed (renecSector db')
  ∧ index_rows ∅ (first_of (u_sectors ecStandards now' db'))
    = index_rows (∅ : gmap Z Id) (first_of (u_sectors ecStandards now db)).
Proof.
  unfold u_sectors at 1 2 3. rewrite Hsector. unfold u_sectors.
  destruct (upsert_all_again (sector_kvs ecStandards) now now'
              (renecSector db) (nextId db) (nextId db')) as (Hn & Ht & Hr).
  repeat split; [done | done | by apply index_rows_kid].
Qed.

Lemma committees_again :
  next_of (u_committees ecStandards committees now' db') = nextId db'
  ∧ map untimed (table_of (u_committees ecStandards committees now' db'))
    = map untimed (renecCommittee db')
  ∧ index_rows ∅ (first_of (u_committees ecStandards committees now' db'))
    = index_rows (∅ : gmap string Id)
                 (first_of (u_committees ecStandards committees now db)).
Proof.
  destruct sectors_again as (Hn & _ & Hl).
  unfold u_committees at 1 2 3. rewrite Hl, Hn, Hcommittee. unfold u_committees.
  destruct (upsert_all_again
              (committee_kvs (index_rows ∅ (first_of (u_sectors ecStandards now db)))
                             committees)
              now now' (renecCommittee db) (next_of (u_sectors ecStandards now db))
              (nextId db')) as (Hn' & Ht & Hr).
  repeat split; [done | done | by apply index_rows_kid].
Qed.

Lemma standards_again :
  next_of (u_standards ecStandards committees details now' db') = nextId db'
  ∧ map untimed (table_of (u_standards ecStandards committees details now' db'))
    = map untimed (renecEC db')
  ∧ index_rows ∅ (first_of (u_standards ecStandards committees details now' db'))
    = index_rows (∅ : gmap string Id)
                 (first_of (u_standards ecStandards committees details now db)).
Proof.
  destruct sectors_again as (_ & _ & Hl1).
  destruct committees_again as (Hn & _ & Hl2).
  unfold u_standards at 1 2 3. rewrite Hl1, Hl2, Hn, Hec. unfold u_standards.
  match goal with |- context [upsert_all ?kvs now ?t ?n] =>
    destruct (upsert_all_again kvs now now' t n (nextId db')) as (Hn' & Ht & Hr)
  end.
  repeat split; [done | done | by apply index_rows_kid].
Qed.

Lemma occupations_again :
  j_occupations ecStandards committees details now' db'
  = (0, renecECOccupation db', nextId db').
Proof.
  destruct standards_again as (Hn & _ & Hl).
  unfold j_occupations. rewrite Hl, Hn, Hocc. unfold j_occupations.
  apply table_createMany_again.
Qed.

Lemma certifiers_again :
  next_of (u_certifiers ecStandards committees details certifiers now' db') = nextId db'
  ∧ map untimed (table_of (u_certifiers ecStandards committees details certifiers now' db'))
    = map untimed (renecCertifier db').
Proof.
  unfold u_certifiers at 1 2. rewrite occupations_again. cbn [next_of snd].
  rewrite Hcert. unfold u_certifiers.
  match goal with |- context [upsert_all ?kvs now ?t ?n] =>
    destruct (upsert_all_again kvs now now' t n (nextId db')) as (Hn' & Ht & Hr)
  end.
  by split.
Qed.

Lemma centers_again :
  next_of (u_centers ecStandards committees details certifiers centers now' db')
  = nextId db'
  ∧ map untimed
      (table_of (u_centers ecStandards committees details certifiers centers now' db'))
    = map untimed (renecCenter db').
Proof.
  destruct certifiers_again as (Hn & _).
  unfold u_centers at 1 2. rewrite Hn, Hcenter. unfold u_centers.
  match goal with |- context [upsert_all ?kvs now ?t ?n] =>
    destruct (upsert_all_again kvs now now' t n (nextId db')) as (Hn' & Ht & Hr)
  end.
  by split.
Qed.

Lemma ecLookup_again :
  index_rows ∅ (table_of (u_standards ecStandards committees details now' db'))
  = index_rows (∅ : gmap string Id)
               (table_of (u_standards ecStandards committees details now db)).
Proof.
  destruct standards_again as (_ & Ht & _).
  apply index_rows_kid, kid_of_untimed. by rewrite Ht, Hec.
Qed.

Lemma accreditations_again :
  j_accreditations ecStandards committees details certifiers centers mx now' db'
  = (0, renecAccreditation db', nextId db').
Proof.
  destruct certifiers_again as (_ & Ht).
  destruct centers_again as (Hn & _).
  unfold j_accreditations. rewrite ecLookup_again, Hn.
  rewrite (index_rows_kid ∅ _ (table_of (u_certifiers ecStandards committees details
                                           certifiers now db)))
    by (apply kid_of_untimed; by rewrite Ht, Hcert).
  rewrite Hacc. unfold j_accreditations. apply table_createMany_again.
Qed.

Lemma offerings_again :
  j_offerings ecStandards committees details certifiers centers mx now' db'
  = (0, renecCenterOffering db', nextId db').
Proof.
  destruct centers_again as (_ & Ht).
  unfold j_offerings. rewrite ecLookup_again, accreditations_again. cbn [next_of snd].
  rewrite (index_rows_kid ∅ _ (table_of (u_centers ecStandards committees details
                                           certifiers centers now db)))
    by (apply kid_of_untimed; by rewrite Ht, Hcenter).
  rewrite Hoffer. unfold j_offerings.
  match goal with |- table_createMany ?f ?ps (table_of (table_createMany ?f ?ps ?t ?n)) ?n'
                     = _ =>
    apply (table_createMany_again f ps t n n')
  end.
Qed.

(** The second pass of the steps leaves the entities and the join rows
    as the first pass left them, and draws no identity. *)
Lemma steps_store_again :
  let db2 := steps_store ecStandards committees details certifiers centers mx now' db' in
  same_entities db' db2 ∧ same_joins db' db2 ∧ nextId db2 = nextId db'
  ∧ renecSyncJob db2 = renecSyncJob db'.
Proof.
  unfold steps_store, same_entities, same_joins.
  cbn [renecSector renecCommittee renecEC renecCertifier renecCenter
       renecECOccupation renecAccreditation renecCenterOffering renecSyncJob nextId].
  destruct sectors_again as (_ & H1 & _).
  destruct committees_again as (_ & H2 & _).
  destruct standards_again as (_ & H3 & _).
  destruct certifiers_again as (_ & H4).
  destruct centers_again as (_ & H5).
  rewrite H1, H2, H3, H4, H5.
  rewrite occupations_again, accreditations_again, offerings_again.
  by repeat split.
Qed.
End Again.

(** C6.  The pipeline is idempotent.  Run twice over the same input files,
    the second run ends as the first did and leaves every entity table with
    the rows the first run left, identity for identity, key for key and
    column for column (only the times of the last sync are new), and the
    three join tables exactly as they were: it creates no canonical row
    and no join pair.  The second run adds its own ledger row. *)
Theorem seed_idempotent (dataDir : option DataDir)
    (start1 now1 start2 now2 : Date) (db : Store) :
  let first := main dataDir start1 now1 db in
  let second := main dataDir start2 now2 (snd first) in
  fst second = fst first
  ∧ same_entities (snd first) (snd second)
  ∧ same_joins (snd first) (snd second)
  ∧ length (renecSyncJob (snd second))
    = length (renecSyncJob (snd first)) + (if fst first =? 0 then 1 else 0).
Proof.
  intros first second. subst first second. rewrite !main_spec.
  destruct dataDir as [dir|]; [|by cbn; rewrite Nat.add_0_r].
  destruct (loadJsonFile (ec_standards_api dir)) as [[|ec ecs]|];
    try (by cbn; rewrite Nat.add_0_r).
  cbn [fst snd Nat.eqb].
  set (db1 := record_run (run_stats dir (ec :: ecs) now1 db) start1 now1
                (run_store dir (ec :: ecs) now1 db)).
  destruct (steps_store_again (ec :: ecs) (committees_in dir) (details_in dir)
              (default [] (certifiers_in dir)) (default [] (centers_in dir))
              (default [] (matrix_in dir)) now1 now2 db db1)
    as (He & Hj & _ & Hl); try reflexivity.
  fold (run_store dir (ec :: ecs) now2 db1) in He, Hj, Hl.
  split; [done|]. split; [exact He|]. split; [exact Hj|].
  unfold record_run at 1. cbn [renecSyncJob set_nextId put_renecSyncJob].
  rewrite length_app, Hl. reflexivity.
Qed.

(** ** The unique indexes are kept *)

Section UniqueKeys.
Context {K D : Type} `{EqDecision K}.
Implicit Types (t : list (Row K D)) (kvs : list (K * D)).

Lemma table_upsert_unique (k : K) (d : D) (now : Date) t (n : Id) :
  NoDup (map row_key t) → NoDup (map row_key (table_of (table_upsert k d now t n))).
Proof.
  intros Hnd. destruct (decide (k ∈ map row_key t)) as [Hin|Hnin].
  - rewrite table_upsert_found by done. cbn [table_of fst snd].
    replace (map row_key (map (touch k d now) t)) with (map row_key t); [done|].
    rewrite map_map. apply map_ext. intros r. unfold touch.
    by destruct (decide (row_key r = k)).
  - rewrite table_upsert_new by done. cbn [table_of fst snd].
    rewrite map_app. apply NoDup_app. repeat split; [done| |apply NoDup_singleton].
    intros k' Hk' Hq. apply list_elem_of_singleton in Hq. cbn [row_key] in Hq.
    by subst k'.
Qed.

Lemma upsert_all_unique kvs (now : Date) t (n : Id) :
  NoDup (map row_key t) → NoDup (map row_key (table_of (upsert_all kvs now t n))).
Proof.
  revert t n. induction kvs as [|kv kvs IH]; intros t n Hnd; [done|].
  rewrite upsert_all_cons. cbn [table_of fst snd]. apply IH.
  by apply table_upsert_unique.
Qed.
End UniqueKeys.

Section UniquePairs.
Context {P F : Type} `{EqDecision P}.
Implicit Types (t : list (JoinRow P F)) (ps : list P).

Lemma has_pair_elem (p : P) t : has_pair p t = true ↔ p ∈ map join_pair t.
Proof.
  unfold has_pair. rewrite existsb_exists, list_elem_of_fmap. split.
  - intros (r & Hr%list_elem_of_In & Hp%bool_decide_eq_true). by exists r.
  - intros (r & -> & Hr). exists r. split; [by apply list_elem_of_In|].
    by apply bool_decide_eq_true.
Qed.

Lemma insert_skip_unique (flag : F) ps t (n c : nat) :
  NoDup (map join_pair t) →
  NoDup (map join_pair (fst (fst (foldl (insert_skip flag) (t, n, c) ps)))).
Proof.
  revert t n c. induction ps as [|p ps IH]; intros t n c Hnd; [done|].
  cbn [foldl insert_skip]. destruct (has_pair p t) eqn:Hp; [by apply IH|].
  apply IH. rewrite map_app. apply NoDup_app. repeat split; [done| |apply NoDup_singleton].
  intros p' Hp' Hq. apply list_elem_of_singleton in Hq. cbn [join_pair] in Hq.
  subst p'. apply has_pair_elem in Hp'. congruence.
Qed.

Lemma table_createMany_unique (flag : F) ps t (n : Id) :
  NoDup (map join_pair t) →
  NoDup (map join_pair (table_of (table_createMany flag ps t n))).
Proof. rewrite table_createMany_eq. apply insert_skip_unique. Qed.
End UniquePairs.

(** X1.  A run keeps the unique indexes of the store: if before the run
    no natural key names two rows of its entity table and no pair two rows
    of its join table, the same holds after it, so a run never leaves two
    canonical rows for one natural key, nor two join rows for one pair. *)
Lemma main_keeps_unique (dataDir : option DataDir) (startTime now : Date) (db : Store) :
  unique_keys db → unique_pairs db →
  unique_keys (snd (main dataDir startTime now db))
  ∧ unique_pairs (snd (main dataDir startTime now db)).
Proof.
  intros (K1 & K2 & K3 & K4 & K5) (P1 & P2 & P3). rewrite main_spec.
  destruct dataDir as [dir|]; [|done].
  destruct (loadJsonFile (ec_standards_api dir)) as [[|ec ecs]|]; try done.
  unfold unique_keys, unique_pairs, run_store, steps_store.
  cbn [snd record_run set_nextId put_renecSyncJob
       renecSector renecCommittee renecEC renecCertifier renecCenter
       renecECOccupation renecAccreditation renecCenterOffering].
  repeat split;
    first [by apply upsert_all_unique | by apply table_createMany_unique].
Qed.

Lemma main_keeps_unique_witness :
  unique_keys emptyStore
  ∧ unique_pairs emptyStore
  ∧ unique_keys store_small
  ∧ unique_pairs store_small.
Proof.
  assert (unique_keys emptyStore) as Hk by (repeat split; apply NoDup_nil_2).
  assert (unique_pairs emptyStore) as Hp by (repeat split; apply NoDup_nil_2).
  split; [exact Hk|]. split; [exact Hp|].
  exact (main_keeps_unique (Some small_extract) 0%Z 1%Z emptyStore Hk Hp).
Defined.

(** * Further properties of the seed and of the validator *)

(** ** References and the rows they name *)

Lemma has_id_refers {K D} (i : Id) (t : list (Row K D)) :
  has_id i t = true ↔ refers i t.
Proof.
  unfold has_id, refers. rewrite existsb_exists. split.
  - intros (r & Hin & E). exists r. split; [by apply list_elem_of_In|].
    by apply Nat.eqb_eq in E.
  - intros (r & Hin & E). exists r. split; [by apply list_elem_of_In|].
    by apply Nat.eqb_eq.
Qed.

Lemma dangling_refers {K D} (fk : option Id) (t : list (Row K D)) :
  dangling fk t = false ↔ refers_opt fk t.
Proof.
  unfold dangling, refers_opt. destruct fk as [i|].
  - rewrite negb_false_iff, has_id_refers. split.
    + intros H j [= <-]. exact H.
    + intros H. by apply H.
  - split; [intros _ j [=] | done].
Qed.

Lemma filter_length_0 {A} (P : A → Prop) `{∀ x, Decision (P x)} (l : list A) :
  length (filter P l) = 0 ↔ ∀ x, x ∈ l → ¬ P x.
Proof.
  rewrite length_zero_iff_nil, filter_nil_Forall, Forall_forall. done.
Qed.

Lemma refers_mono {K D} (i : Id) (t t' : list (Row K D)) (ext : list (K * Id)) :
  map kid t' = map kid t ++ ext → refers i t → refers i t'.
Proof.
  intros E (r & Hin & <-).
  assert (kid r ∈ map kid t') as Hk.
  { rewrite E. apply elem_of_app. left. by apply list_elem_of_fmap_2. }
  apply list_elem_of_fmap in Hk as (r' & Er & Hin').
  exists r'. split; [done|]. unfold kid in Er. congruence.
Qed.

Lemma index_rows_refers {K D} `{Countable K} (m : gmap K Id) (rows : list (Row K D))
    (k : K) (i : Id) :
  index_rows m rows !! k = Some i →
  m !! k = Some i ∨ ∃ r, r ∈ rows ∧ row_key r = k ∧ row_id r = i.
Proof.
  unfold index_rows. revert m. induction rows as [|r rows IH]; intros m; cbn [foldl].
  - by left.
  - intros Hl. apply IH in Hl as [Hl | (r' & Hin & E)].
    + destruct (decide (row_key r = k)) as [<-|Hne].
      * rewrite lookup_insert_eq in Hl. injection Hl as <-.
        right. exists r. split; [left | done].
      * rewrite lookup_insert_ne in Hl by done. by left.
    + right. exists r'. split; [by right | done].
Qed.

Lemma index_rows_empty_refers {K D} `{Countable K} (rows : list (Row K D))
    (k : K) (i : Id) :
  index_rows ∅ rows !! k = Some i → refers i rows.
Proof.
  intros Hl. apply index_rows_refers in Hl as [Hl | (r & Hin & _ & E)].
  - by rewrite lookup_empty in Hl.
  - by exists r.
Qed.

(** ** The rows an upsert sequence and a bulk insert leave *)

Section UpsertRows.
Context {K D : Type} `{EqDecision K}.
Implicit Types t : list (Row K D).

Lemma lookup_kid_refers (k : K) t :
  k ∈ map row_key t →
  ∃ r, r ∈ t ∧ row_key r = k ∧ row_id r = lookup_kid k (map kid t).
Proof.
  intros Hk. unfold lookup_kid. rewrite <- find_key_kid.
  destruct (List.find (fun r => bool_decide (row_key r = k)) t) as [r|] eqn:E.
  - apply find_some in E as [Hin Hr]. apply bool_decide_eq_true in Hr.
    exists r. split; [by apply list_elem_of_In | done].
  - apply find_key_None in E. done.
Qed.

Lemma final_Some (kvs : list (K * D)) (k : K) (d : D) :
  final kvs k = Some d → ∃ kv, kv ∈ kvs ∧ fst kv = k ∧ snd kv = d.
Proof.
  induction kvs as [|kv kvs IH]; cbn [final]; [done|].
  destruct (final kvs k) as [d'|].
  - intros [= <-]. destruct IH as (kv' & ? & ? & ?); [done|].
    exists kv'. split; [by right | done].
  - destruct (decide (fst kv = k)); [|done].
    intros [= <-]. exists kv. split; [left | done].
Qed.

Lemma final_None (kvs : list (K * D)) (k : K) :
  final kvs k = None ↔ k ∉ map fst kvs.
Proof.
  induction kvs as [|kv kvs IH]; cbn [final map].
  - split; [intros _ Hin; by apply elem_of_nil in Hin | done].
  - rewrite not_elem_of_cons. destruct (final kvs k) as [d'|].
    + split; [done|]. intros [_ Hn]. by apply IH in Hn.
    + destruct (decide (fst kv = k)) as [E|E].
      * split; [done|]. intros [Hn _]. by destruct Hn.
      * split; [|done]. intros _. split; [congruence | by apply IH].
Qed.

(** The rows after a sequence of upserts: a row whose key was not written
    is a row of the table before; a row whose key was written carries the
    columns of one of the writes and the time of the run. *)
Lemma upsert_all_rows kvs (now : Date) t (n : Id) r :
  r ∈ table_of (upsert_all kvs now t n) →
  (r ∈ t ∧ row_key r ∉ map fst kvs)
  ∨ (∃ kv, kv ∈ kvs ∧ fst kv = row_key r ∧ snd kv = row_data r ∧ lastSyncedAt r = now
           ∧ final kvs (row_key r) = Some (row_data r)).
Proof.
  intros Hin.
  destruct (upsert_all_facts kvs now t n) as (_ & _ & _ & Hsettle & Hold).
  specialize (Hsettle r Hin). specialize (Hold r Hin).
  unfold settle in Hsettle.
  destruct (final kvs (row_key r)) as [d|] eqn:E.
  - right. apply final_Some in E as (kv & Hkv & Ek & Ed).
    exists kv. rewrite <- Hsettle. cbn. repeat split; done.
  - left. split; [by apply Hold | by apply final_None].
Qed.

Lemma upsert_all_keys kvs (now : Date) t (n : Id) (k : K) :
  k ∈ map row_key (table_of (upsert_all kvs now t n))
  ↔ k ∈ map row_key t ∨ k ∈ map fst kvs.
Proof.
  destruct (upsert_all_facts kvs now t n) as ((ext & Hext) & Hkeys & _).
  split.
  - intros Hk. apply list_elem_of_fmap in Hk as (r & -> & Hin).
    apply upsert_all_rows in Hin as [[Hin _] | (kv & Hkv & E & _)].
    + left. by apply list_elem_of_fmap_2.
    + right. rewrite <- E. by apply list_elem_of_fmap_2.
  - intros [Hk | Hk].
    + by eapply keys_of_kids.
    + apply list_elem_of_fmap in Hk as (kv & -> & Hkv). by apply Hkeys.
Qed.

(** The rows an upsert sequence returns carry identities of rows of the
    table it leaves. *)
Lemma upsert_all_returned kvs (now : Date) t (n : Id) r :
  r ∈ first_of (upsert_all kvs now t n) →
  ∃ r', r' ∈ table_of (upsert_all kvs now t n)
        ∧ row_key r' = row_key r ∧ row_id r' = row_id r.
Proof.
  destruct (upsert_all_facts kvs now t n) as (_ & Hkeys & Hfirst & _).
  rewrite Hfirst. intros Hin.
  apply list_elem_of_fmap in Hin as (kv & -> & Hkv). cbn.
  apply lookup_kid_refers. by apply Hkeys.
Qed.

End UpsertRows.

Section CreateManyRows.
Context {P F : Type} `{EqDecision P}.

Lemma insert_skip_rows (flag : F) ps (t : list (JoinRow P F)) (n c : nat) :
  let st := foldl (insert_skip flag) (t, n, c) ps in
  ∃ ext, fst (fst st) = t ++ ext
         ∧ Forall (fun r => join_pair r ∈ ps ∧ join_flag r = flag) ext
         ∧ snd st = c + length ext.
Proof.
  cbn zeta. revert t n c. induction ps as [|p ps IH]; intros t n c; cbn [foldl].
  - exists []. rewrite app_nil_r. cbn. split; [done|]. split; [constructor | lia].
  - change (insert_skip flag (t, n, c) p)
      with (if has_pair p t then (t, n, c) else (t ++ [mkJoin n p flag], S n, S c)).
    destruct (has_pair p t).
    + destruct (IH t n c) as (ext & E1 & E2 & E3). exists ext.
      split; [done|]. split; [|done].
      eapply Forall_impl; [exact E2|]. intros r [? ?]. split; [by right | done].
    + destruct (IH (t ++ [mkJoin n p flag]) (S n) (S c)) as (ext & E1 & E2 & E3).
      exists (mkJoin n p flag :: ext). rewrite E1, E3, <- app_assoc. cbn.
      split; [done|]. split; [|lia].
      apply Forall_cons_2; [split; [left | done]|].
      eapply Forall_impl; [exact E2|]. intros r [? ?]. split; [by right | done].
Qed.

(** [createMany] appends: the table before is a prefix of the table after,
    the new rows carry pairs of the input, and the count is their number. *)
Lemma table_createMany_rows (flag : F) ps (t : list (JoinRow P F)) (n : Id) :
  ∃ ext, table_of (table_createMany flag ps t n) = t ++ ext
         ∧ Forall (fun r => join_pair r ∈ ps ∧ join_flag r = flag) ext
         ∧ first_of (table_createMany flag ps t n) = length ext.
Proof.
  rewrite table_createMany_eq. unfold table_of, first_of. cbn [fst snd].
  destruct (insert_skip_rows flag ps t n 0) as (ext & E1 & E2 & E3).
  exists ext. done.
Qed.

End CreateManyRows.

(** ** The pairs of the relationship passes *)

Lemma acc_entry_pairs (certLookup : gmap string Id) (ecId : Id)
    (st : list AccPair * nat) (ids : list string) :
  let st' := foldl (acc_entry certLookup ecId) st ids in
  ∃ ext, fst st' = fst st ++ ext
         ∧ Forall (fun p => acc_ecId p = ecId
                            ∧ ∃ c, c ∈ ids ∧ certLookup !! c = Some (acc_certifierId p)) ext
         ∧ snd st' + length ext = snd st + length ids.
Proof.
  cbn zeta. revert st. induction ids as [|c ids IH]; intros st; cbn [foldl].
  - exists []. rewrite app_nil_r. cbn. split; [done|]. split; [constructor | lia].
  - assert (∀ ext, Forall (fun p => acc_ecId p = ecId
                             ∧ ∃ c', c' ∈ ids
                                     ∧ certLookup !! c' = Some (acc_certifierId p)) ext →
            Forall (fun p => acc_ecId p = ecId
                             ∧ ∃ c', c' ∈ c :: ids
                                     ∧ certLookup !! c' = Some (acc_certifierId p)) ext)
      as Hweak.
    { intros ext E2. eapply Forall_impl; [exact E2|]. intros p (? & c' & ? & ?).
      split; [done|]. exists c'. split; [by right | done]. }
    change (acc_entry certLookup ecId st c)
      with (match certLookup !! c with
            | None => (fst st, S (snd st))
            | Some certifierId =>
                (fst st ++ [{| acc_ecId := ecId; acc_certifierId := certifierId |}], snd st)
            end).
    destruct (certLookup !! c) as [certifierId|] eqn:El.
    + destruct (IH (fst st ++ [{| acc_ecId := ecId; acc_certifierId := certifierId |}],
                    snd st)) as (ext & E1 & E2 & E3).
      cbn [fst snd] in E1, E3.
      exists ({| acc_ecId := ecId; acc_certifierId := certifierId |} :: ext).
      rewrite E1, <- app_assoc. cbn [length app]. split; [done|]. split; [|lia].
      apply Forall_cons_2; [|by apply Hweak]. cbn. split; [done|].
      exists c. split; [left | done].
    + destruct (IH (fst st, S (snd st))) as (ext & E1 & E2 & E3).
      cbn [fst snd] in E1, E3.
      exists ext. cbn [length]. split; [done|]. split; [by apply Hweak | lia].
Qed.

(** The pairs collected from the matrix: both identities come from the
    lookups. *)
Lemma acc_collect_pairs (ecLookup certLookup : gmap string Id)
    (st : list AccPair * nat) (mx : list (string * MatrixEntry)) :
  let st' := foldl (acc_collect ecLookup certLookup) st mx in
  ∃ ext, fst st' = fst st ++ ext
         ∧ Forall (fun p => (∃ code, ecLookup !! code = Some (acc_ecId p))
                            ∧ ∃ c, certLookup !! c = Some (acc_certifierId p)) ext.
Proof.
  cbn zeta. revert st. induction mx as [|entry mx IH]; intros st; cbn [foldl].
  - exists []. rewrite app_nil_r. split; [done | constructor].
  - change (acc_collect ecLookup certLookup st entry)
      with (match ecLookup !! fst entry with
            | None => st
            | Some ecId => foldl (acc_entry certLookup ecId) st (ece_ids (snd entry))
            end).
    destruct (ecLookup !! fst entry) as [ecId|] eqn:El; [|apply IH].
    destruct (acc_entry_pairs certLookup ecId st (ece_ids (snd entry)))
      as (ext1 & E1 & E2 & _).
    destruct (IH (foldl (acc_entry certLookup ecId) st (ece_ids (snd entry))))
      as (ext2 & E3 & E4).
    exists (ext1 ++ ext2). rewrite E3, E1, <- app_assoc. split; [done|].
    apply Forall_app. split; [|done].
    eapply Forall_impl; [exact E2|]. intros p (<- & c & _ & Hc).
    split; [by exists (fst entry) | by exists c].
Qed.

Lemma acc_pairs_refer (ecLookup certLookup : gmap string Id)
    (mx : list (string * MatrixEntry)) (p : AccPair) :
  p ∈ acc_pairs ecLookup certLookup mx →
  (∃ code, ecLookup !! code = Some (acc_ecId p))
  ∧ ∃ c, certLookup !! c = Some (acc_certifierId p).
Proof.
  unfold acc_pairs.
  destruct (acc_collect_pairs ecLookup certLookup ([], 0) mx) as (ext & E1 & E2).
  rewrite E1. cbn [fst app]. intros Hin.
  rewrite Forall_forall in E2. by apply E2.
Qed.

Lemma offer_entry_pairs (ecLookup : gmap string Id) (centerDbId : Id)
    (st : list OfferPair * nat) (codes : list string) :
  let st' := foldl (offer_entry ecLookup centerDbId) st codes in
  ∃ ext, fst st' = fst st ++ ext
         ∧ Forall (fun p => off_centerId p = centerDbId
                            ∧ ∃ code, ecLookup !! code = Some (off_ecId p)) ext
         ∧ snd st' + length ext = snd st + length codes.
Proof.
  cbn zeta. revert st. induction codes as [|c codes IH]; intros st; cbn [foldl].
  - exists []. rewrite app_nil_r. cbn. split; [done|]. split; [constructor | lia].
  - change (offer_entry ecLookup centerDbId st c)
      with (match ecLookup !! c with
            | None => (fst st, S (snd st))
            | Some ecId =>
                (fst st ++ [{| off_centerId := centerDbId; off_ecId := ecId |}], snd st)
            end).
    destruct (ecLookup !! c) as [ecId|] eqn:El.
    + destruct (IH (fst st ++ [{| off_centerId := centerDbId; off_ecId := ecId |}],
                    snd st)) as (ext & E1 & E2 & E3).
      cbn [fst snd] in E1, E3.
      exists ({| off_centerId := centerDbId; off_ecId := ecId |} :: ext).
      rewrite E1, <- app_assoc. cbn [length app]. split; [done|]. split; [|lia].
      apply Forall_cons_2; [|done]. cbn. split; [done|]. by exists c.
    + destruct (IH (fst st, S (snd st))) as (ext & E1 & E2 & E3).
      cbn [fst snd] in E1, E3.
      exists ext. cbn [length]. split; [done|]. split; [done | lia].
Qed.

(** The pairs collected from the center registry, and the accounting of
    the loop: every code of a resolved center is either a pair or counted
    as unresolved. *)
Lemma offer_collect_pairs (ecLookup centerLookup : gmap string Id)
    (st : list OfferPair * nat) (registry : list ExtractedCenter) :
  let st' := foldl (offer_collect ecLookup centerLookup) st registry in
  ∃ ext, fst st' = fst st ++ ext
         ∧ Forall (fun p => (∃ c, centerLookup !! c = Some (off_centerId p))
                            ∧ ∃ code, ecLookup !! code = Some (off_ecId p)) ext
         ∧ snd st' + length ext
           = snd st + length (offered_codes centerLookup registry).
Proof.
  cbn zeta. revert st. induction registry as [|center registry IH]; intros st;
    cbn [foldl].
  - exists []. rewrite app_nil_r. cbn. split; [done|]. split; [constructor | lia].
  - change (offer_collect ecLookup centerLookup st center)
      with (match centerLookup !! center_id center with
            | None => st
            | Some centerDbId =>
                foldl (offer_entry ecLookup centerDbId) st (ec_codes center)
            end).
    unfold offered_codes. rewrite filter_cons.
    destruct (centerLookup !! center_id center) as [centerDbId|] eqn:El.
    + rewrite decide_True by done. cbn [flat_map]. rewrite length_app.
      destruct (offer_entry_pairs ecLookup centerDbId st (ec_codes center))
        as (ext1 & E1 & E2 & E3).
      destruct (IH (foldl (offer_entry ecLookup centerDbId) st (ec_codes center)))
        as (ext2 & E4 & E5 & E6).
      exists (ext1 ++ ext2). rewrite E4, E1, <- app_assoc. split; [done|].
      split.
      * apply Forall_app. split; [|done].
        eapply Forall_impl; [exact E2|]. intros p (<- & code & Hc).
        split; [by exists (center_id center) | by exists code].
      * rewrite length_app. unfold offered_codes in E6. lia.
    + rewrite decide_False by (intros [? ?]; done). apply IH.
Qed.

Lemma offer_pairs_refer (ecLookup centerLookup : gmap string Id)
    (registry : list ExtractedCenter) (p : OfferPair) :
  p ∈ offer_pairs ecLookup centerLookup registry →
  (∃ c, centerLookup !! c = Some (off_centerId p))
  ∧ ∃ code, ecLookup !! code = Some (off_ecId p).
Proof.
  unfold offer_pairs.
  destruct (offer_collect_pairs ecLookup centerLookup ([], 0) registry)
    as (ext & E1 & E2 & _).
  rewrite E1. cbn [fst app]. intros Hin.
  rewrite Forall_forall in E2. by apply E2.
Qed.

(** ** Occupation labels *)





Lemma occupationPairs_of_elem (details : list (string * ECDetail))
    (ecDbIds : gmap string Id) (i : Id) (label : string) :
  (i, label) ∈ occupationPairs_of details ecDbIds
  ↔ ∃ entry occupation,
      entry ∈ details
      ∧ ecDbIds !! fst entry = Some i
      ∧ occupation ∈ default [] (occupations (snd entry))
      ∧ label = JS.trim occupation
      ∧ label ≠ EmptyString.
Proof.
  unfold occupationPairs_of. rewrite list_elem_of_In, in_flat_map. split.
  - intros (entry & Hentry & Hin). exists entry.
    destruct (ecDbIds !! fst entry) as [ecDbId|] eqn:El; [|done].
    apply in_flat_map in Hin as (occ & Hocc & Hin). exists occ.
    destruct (JS.truthy occ && (0 <? String.length (JS.trim occ))) eqn:Ec; [|done].
    destruct Hin as [[= <- <-]|[]].
    apply andb_true_iff in Ec as [_ Ec]. apply Nat.ltb_lt in Ec.
    repeat split; try by apply list_elem_of_In.
    intros E. rewrite E in Ec. cbn in Ec. lia.
  - intros (entry & occ & Hentry & El & Hocc & -> & Hne). exists entry.
    split; [by apply list_elem_of_In|]. rewrite El.
    apply in_flat_map. exists occ. split; [by apply list_elem_of_In|].
    assert (JS.truthy occ && (0 <? String.length (JS.trim occ)) = true) as ->; [|by left].
    apply andb_true_iff. split.
    + destruct occ; [done | done].
    + apply Nat.ltb_lt. destruct (JS.trim occ); [done | cbn; lia].
Qed.

(** ** A run keeps every reference resolved *)

Lemma ecData_committeeId committees details (sectorLookup : gmap Z Id)
    (committeeLookup : gmap string Id) index ec (i : Id) :
  e_committeeId (ecData committees details sectorLookup committeeLookup index ec) = Some i →
  ∃ key, committeeLookup !! key = Some i.
Proof.
  cbn [ecData e_committeeId].
  destruct (index !! codigo ec) as [key|]; [|done].
  destruct (JS.truthy key); [|done]. intros Hl. by exists key.
Qed.

Lemma ecData_sectorId committees details (sectorLookup : gmap Z Id)
    (committeeLookup : gmap string Id) index ec (i : Id) :
  e_sectorId (ecData committees details sectorLookup committeeLookup index ec) = Some i →
  ∃ n, sectorLookup !! n = Some i.
Proof.
  cbn [ecData e_sectorId].
  destruct (JS.parseInt (idSectorProductivo ec)) as [n|]; [|done].
  intros Hl. by exists n.
Qed.

Lemma committeeData_sectorId (sectorLookup : gmap Z Id) committee (i : Id) :
  c_sectorId (committeeData sectorLookup committee) = Some i →
  ∃ n, sectorLookup !! n = Some i.
Proof.
  cbn [committeeData c_sectorId].
  destruct (com_idSectorProductivo committee) as [n|]; [|done].
  intros Hl. by exists n.
Qed.

(** A lookup built from the rows an upsert sequence returned binds
    identities of the table the sequence leaves. *)
Lemma returned_lookup_refers {K D} `{Countable K} (kvs : list (K * D)) (now : Date)
    (t : list (Row K D)) (n : Id) (k : K) (i : Id) :
  index_rows ∅ (first_of (upsert_all kvs now t n)) !! k = Some i →
  refers i (table_of (upsert_all kvs now t n)).
Proof.
  intros Hl. apply index_rows_empty_refers in Hl as (r & Hin & <-).
  apply upsert_all_returned in Hin as (r' & Hin' & _ & E). by exists r'.
Qed.

Lemma upsert_all_refers_mono {K D} `{EqDecision K} (kvs : list (K * D)) (now : Date)
    (t : list (Row K D)) (n : Id) (i : Id) :
  refers i t → refers i (table_of (upsert_all kvs now t n)).
Proof.
  destruct (upsert_all_facts kvs now t n) as ((ext & Hext) & _).
  by apply refers_mono with ext.
Qed.

Lemma occupationPairs_of_refer (details : list (string * ECDetail))
    (ecDbIds : gmap string Id) (p : OccupationPair) :
  p ∈ occupationPairs_of details ecDbIds → ∃ code, ecDbIds !! code = Some (fst p).
Proof.
  destruct p as [i label]. intros Hp.
  apply occupationPairs_of_elem in Hp as (entry & occ & _ & Hl & _).
  by exists (fst entry).
Qed.

Section StepsIntegrity.
Variable ecStandards : list ExtractedEC.
Variable committees : list ExtractedCommittee.
Variable details : option (list (string * ECDetail)).
Variable certifiers : list ExtractedCertifier.
Variable centers : list ExtractedCenter.
Variable mx : list (string * MatrixEntry).
Variable now : Date.
Variable db : Store.
Hypothesis Hdb : referential_integrity db.

Lemma steps_accreditations a :
  a ∈ table_of (j_accreditations ecStandards committees details certifiers centers mx
                                  now db) →
  refers (acc_ecId (join_pair a))
         (table_of (u_standards ecStandards committees details now db))
  ∧ refers (acc_certifierId (join_pair a))
           (table_of (u_certifiers ecStandards committees details certifiers now db)).
Proof.
  destruct Hdb as (Hacc & _). unfold j_accreditations.
  destruct (table_createMany_rows true
    (acc_pairs (index_rows ∅ (table_of (u_standards ecStandards committees details now db)))
               (index_rows ∅ (table_of (u_certifiers ecStandards committees details
                                                     certifiers now db))) mx)
    (renecAccreditation db)
    (next_of (u_centers ecStandards committees details certifiers centers now db)))
    as (ext & -> & Hext & _).
  intros Hin. apply elem_of_app in Hin as [Hin | Hin].
  - destruct (Hacc a Hin). split; by apply upsert_all_refers_mono.
  - rewrite Forall_forall in Hext. destruct (Hext a Hin) as [Hp _].
    apply acc_pairs_refer in Hp as [(code & H1) (c & H2)].
    split; by eapply index_rows_empty_refers.
Qed.

Lemma steps_offerings o :
  o ∈ table_of (j_offerings ecStandards committees details certifiers centers mx now db) →
  refers (off_ecId (join_pair o))
         (table_of (u_standards ecStandards committees details now db))
  ∧ refers (off_centerId (join_pair o))
           (table_of (u_centers ecStandards committees details certifiers centers now db)).
Proof.
  destruct Hdb as (_ & Hoff & _). unfold j_offerings.
  destruct (table_createMany_rows true
    (offer_pairs
       (index_rows ∅ (table_of (u_standards ecStandards committees details now db)))
       (index_rows ∅ (table_of (u_centers ecStandards committees details certifiers
                                          centers now db))) centers)
    (renecCenterOffering db)
    (next_of (j_accreditations ecStandards committees details certifiers centers mx
                               now db)))
    as (ext & -> & Hext & _).
  intros Hin. apply elem_of_app in Hin as [Hin | Hin].
  - destruct (Hoff o Hin). split; by apply upsert_all_refers_mono.
  - rewrite Forall_forall in Hext. destruct (Hext o Hin) as [Hp _].
    apply offer_pairs_refer in Hp as [(c & H1) (code & H2)].
    split; by eapply index_rows_empty_refers.
Qed.

Lemma steps_standards e :
  e ∈ table_of (u_standards ecStandards committees details now db) →
  refers_opt (e_committeeId (row_data e))
             (table_of (u_committees ecStandards committees now db))
  ∧ refers_opt (e_sectorId (row_data e)) (table_of (u_sectors ecStandards now db)).
Proof.
  destruct Hdb as (_ & _ & Hcom & Hsec & _). unfold u_standards.
  intros Hin. apply upsert_all_rows in Hin as [[Hin _] | (kv & Hkv & _ & Ed & _)].
  - split; intros i Hi.
    + apply upsert_all_refers_mono. by apply (Hcom e Hin).
    + apply upsert_all_refers_mono. by apply (Hsec e Hin).
  - unfold ec_kvs in Hkv. apply list_elem_of_fmap in Hkv as (ec & -> & _).
    cbn [snd] in Ed. rewrite <- Ed. split; intros i Hi.
    + apply ecData_committeeId in Hi as (key & Hl).
      by eapply returned_lookup_refers.
    + apply ecData_sectorId in Hi as (n & Hl).
      by eapply returned_lookup_refers.
Qed.

Lemma steps_committees c :
  c ∈ table_of (u_committees ecStandards committees now db) →
  refers_opt (c_sectorId (row_data c)) (table_of (u_sectors ecStandards now db)).
Proof.
  destruct Hdb as (_ & _ & _ & _ & Hsec & _). unfold u_committees.
  intros Hin. apply upsert_all_rows in Hin as [[Hin _] | (kv & Hkv & _ & Ed & _)].
  - intros i Hi. apply upsert_all_refers_mono. by apply (Hsec c Hin).
  - unfold committee_kvs in Hkv. apply list_elem_of_fmap in Hkv as (com & -> & _).
    cbn [snd] in Ed. rewrite <- Ed. intros i Hi.
    apply committeeData_sectorId in Hi as (n & Hl).
    by eapply returned_lookup_refers.
Qed.

Lemma steps_occupations o :
  o ∈ table_of (j_occupations ecStandards committees details now db) →
  refers (fst (join_pair o)) (table_of (u_standards ecStandards committees details now db)).
Proof.
  destruct Hdb as (_ & _ & _ & _ & _ & Hocc). unfold j_occupations.
  destruct (table_createMany_rows tt
    (occupation_pairs details
       (index_rows ∅ (first_of (u_standards ecStandards committees details now db))))
    (renecECOccupation db)
    (next_of (u_standards ecStandards committees details now db)))
    as (ext & -> & Hext & _).
  intros Hin. apply elem_of_app in Hin as [Hin | Hin].
  - apply upsert_all_refers_mono. by apply Hocc.
  - rewrite Forall_forall in Hext. destruct (Hext o Hin) as [Hp _].
    unfold occupation_pairs in Hp. destruct details as [d|]; [|by apply elem_of_nil in Hp].
    apply occupationPairs_of_refer in Hp as (code & Hl).
    by eapply returned_lookup_refers.
Qed.

Lemma steps_store_integrity :
  referential_integrity
    (steps_store ecStandards committees details certifiers centers mx now db).
Proof.
  unfold referential_integrity, steps_store.
  cbn [renecSector renecCommittee renecEC renecCertifier renecCenter renecECOccupation
       renecAccreditation renecCenterOffering].
  split; [exact steps_accreditations|].
  split; [exact steps_offerings|].
  split; [intros e He; by apply steps_standards|].
  split; [intros e He; by apply steps_standards|].
  split; [exact steps_committees | exact steps_occupations].
Qed.

End StepsIntegrity.

Lemma record_run_integrity stats (startTime now : Date) (db : Store) :
  referential_integrity db → referential_integrity (record_run stats startTime now db).
Proof. done. Qed.

Lemma main_integrity (dataDir : option DataDir) (startTime now : Date) (db : Store) :
  referential_integrity db →
  referential_integrity (snd (main dataDir startTime now db)).
Proof.
  intros Hdb. rewrite main_spec.
  destruct dataDir as [dir|]; [|done].
  destruct (loadJsonFile (ec_standards_api dir)) as [[|ec ecs]|]; [done| |done].
  cbn [snd]. apply record_run_integrity. unfold run_store.
  by apply steps_store_integrity.
Qed.

(** ** The integrity checks of the validator *)

Lemma integrity_check_pass (name : string) (orphans : nat) :
  vstatus (integrity_check name orphans) = PASS ↔ orphans = 0.
Proof.
  unfold integrity_check. cbn [vstatus].
  destruct (Nat.eqb_spec orphans 0); split; done.
Qed.

Lemma integrity_check_status (name : string) (orphans : nat) :
  vstatus (integrity_check name orphans) = (if decide (orphans = 0) then PASS else FAIL).
Proof.
  unfold integrity_check. cbn [vstatus].
  destruct (Nat.eqb_spec orphans 0); [by rewrite decide_True | by rewrite decide_False].
Qed.

Lemma no_orphan_pair {K D K' D'} (i j : Id) (t : list (Row K D)) (t' : list (Row K' D')) :
  ¬ ((negb (has_id i t) || negb (has_id j t')) = true) ↔ refers i t ∧ refers j t'.
Proof.
  rewrite <- !has_id_refers.
  destruct (has_id i t), (has_id j t'); cbn; split; try done; intros []; done.
Qed.

Lemma orphanedAccreditations_0 (db : Store) :
  orphanedAccreditations db = 0
  ↔ ∀ a, a ∈ renecAccreditation db →
         refers (acc_ecId (join_pair a)) (renecEC db)
         ∧ refers (acc_certifierId (join_pair a)) (renecCertifier db).
Proof.
  unfold orphanedAccreditations. rewrite filter_length_0.
  split; intros Hall a Ha; apply no_orphan_pair; by apply Hall.
Qed.

Lemma orphanedOfferings_0 (db : Store) :
  orphanedOfferings db = 0
  ↔ ∀ o, o ∈ renecCenterOffering db →
         refers (off_ecId (join_pair o)) (renecEC db)
         ∧ refers (off_centerId (join_pair o)) (renecCenter db).
Proof.
  unfold orphanedOfferings. rewrite filter_length_0.
  split; intros Hall a Ha; apply no_orphan_pair; by apply Hall.
Qed.

Lemma not_dangling {K D} (fk : option Id) (t : list (Row K D)) :
  ¬ (dangling fk t = true) ↔ refers_opt fk t.
Proof. rewrite <- dangling_refers. by destruct (dangling fk t). Qed.

Lemma orphanedEcCommittee_0 (db : Store) :
  orphanedEcCommittee db = 0
  ↔ ∀ e, e ∈ renecEC db → refers_opt (e_committeeId (row_data e)) (renecCommittee db).
Proof.
  unfold orphanedEcCommittee. rewrite filter_length_0.
  split; intros Hall a Ha; apply not_dangling; by apply Hall.
Qed.

Lemma orphanedEcSector_0 (db : Store) :
  orphanedEcSector db = 0
  ↔ ∀ e, e ∈ renecEC db → refers_opt (e_sectorId (row_data e)) (renecSector db).
Proof.
  unfold orphanedEcSector. rewrite filter_length_0.
  split; intros Hall a Ha; apply not_dangling; by apply Hall.
Qed.

Lemma orphanedCommSector_0 (db : Store) :
  orphanedCommSector db = 0
  ↔ ∀ c, c ∈ renecCommittee db → refers_opt (c_sectorId (row_data c)) (renecSector db).
Proof.
  unfold orphanedCommSector. rewrite filter_length_0.
  split; intros Hall a Ha; apply not_dangling; by apply Hall.
Qed.

Lemma orphanedOccupations_0 (db : Store) :
  orphanedOccupations db = 0
  ↔ ∀ o, o ∈ renecECOccupation db → refers (fst (join_pair o)) (renecEC db).
Proof.
  unfold orphanedOccupations. rewrite filter_length_0.
  split; intros Hall a Ha.
  - apply has_id_refers. specialize (Hall a Ha).
    by destruct (has_id (fst (join_pair a)) (renecEC db)).
  - specialize (Hall a Ha). apply has_id_refers in Hall. by rewrite Hall.
Qed.

Lemma integrity_pass_iff (db : Store) :
  Forall (fun r => vstatus r = PASS) (integrity_checks db) ↔ referential_integrity db.
Proof.
  unfold integrity_checks, referential_integrity.
  rewrite !Forall_cons, Forall_nil, !integrity_check_pass.
  rewrite orphanedAccreditations_0, orphanedOfferings_0, orphanedEcCommittee_0,
    orphanedEcSector_0, orphanedCommSector_0, orphanedOccupations_0.
  tauto.
Qed.






(** X3.  A run never introduces an orphan: if the six integrity checks
    of the validator pass on the store before a run, whatever the input
    directory, they pass on the store the run leaves. *)
Theorem main_keeps_integrity (dataDir : option DataDir) (startTime now : Date)
    (db : Store) :
  Forall (fun r => vstatus r = PASS) (integrity_checks db) →
  Forall (fun r => vstatus r = PASS)
         (integrity_checks (snd (main dataDir startTime now db))).
Proof. rewrite !integrity_pass_iff. apply main_integrity. Qed.

Lemma main_keeps_integrity_witness :
  Forall (fun r => vstatus r = PASS) (integrity_checks emptyStore)
  ∧ Forall (fun r => vstatus r = PASS) (integrity_checks store_small).
Proof.
  assert (Forall (fun r => vstatus r = PASS) (integrity_checks emptyStore)) as H.
  { repeat apply Forall_cons_2; try apply Forall_nil_2; reflexivity. }
  split; [exact H|].
  exact (main_keeps_integrity (Some small_extract) 0%Z 1%Z emptyStore H).
Defined.

(** ** A run only appends *)

Lemma upsert_all_prefix {K D} `{EqDecision K} (kvs : list (K * D)) (now : Date)
    (t : list (Row K D)) (n : Id) :
  map kid t `prefix_of` map kid (table_of (upsert_all kvs now t n)).
Proof. destruct (upsert_all_facts kvs now t n) as ((ext & Hext) & _). by exists ext. Qed.

Lemma table_createMany_prefix {P F} `{EqDecision P} (flag : F) (ps : list P)
    (t : list (JoinRow P F)) (n : Id) :
  t `prefix_of` table_of (table_createMany flag ps t n).
Proof. destruct (table_createMany_rows flag ps t n) as (ext & E & _). by exists ext. Qed.

(** X4.  A run only appends.  In every entity table the rows before the
    run keep their place, natural key and canonical identity; in every join
    table and in the ledger the rows before the run are a prefix of the
    rows after it.  Nothing is deleted or re-keyed, also by a run that
    stops at the mandatory-input check. *)
Theorem main_only_appends (dataDir : option DataDir) (startTime now : Date) (db : Store) :
  let db' := snd (main dataDir startTime now db) in
  map kid (renecSector db) `prefix_of` map kid (renecSector db')
  ∧ map kid (renecCommittee db) `prefix_of` map kid (renecCommittee db')
  ∧ map kid (renecEC db) `prefix_of` map kid (renecEC db')
  ∧ map kid (renecCertifier db) `prefix_of` map kid (renecCertifier db')
  ∧ map kid (renecCenter db) `prefix_of` map kid (renecCenter db')
  ∧ renecECOccupation db `prefix_of` renecECOccupation db'
  ∧ renecAccreditation db `prefix_of` renecAccreditation db'
  ∧ renecCenterOffering db `prefix_of` renecCenterOffering db'
  ∧ renecSyncJob db `prefix_of` renecSyncJob db'.
Proof.
  cbn zeta. rewrite main_spec.
  destruct dataDir as [dir|]; [|by repeat split].
  destruct (loadJsonFile (ec_standards_api dir)) as [[|ec ecs]|]; [by repeat split| |by repeat split].
  cbn [snd]. unfold record_run, run_store, steps_store.
  cbn [set_nextId put_renecSyncJob renecSector renecCommittee renecEC renecCertifier
       renecCenter renecECOccupation renecAccreditation renecCenterOffering renecSyncJob].
  repeat apply conj;
    try apply upsert_all_prefix; try apply table_createMany_prefix.
  by eexists.
Qed.

(** ** The accounting of the relationship passes *)

Lemma insert_skip_bound {P F} `{EqDecision P} (flag : F) (ps : list P)
    (t : list (JoinRow P F)) (n c : nat) :
  snd (foldl (insert_skip flag) (t, n, c) ps) ≤ c + length ps.
Proof.
  revert t n c. induction ps as [|p ps IH]; intros t n c; cbn [foldl length]; [cbn; lia|].
  change (insert_skip flag (t, n, c) p)
    with (if has_pair p t then (t, n, c) else (t ++ [mkJoin n p flag], S n, S c)).
  destruct (has_pair p t).
  - specialize (IH t n c). lia.
  - specialize (IH (t ++ [mkJoin n p flag]) (S n) (S c)). lia.
Qed.

Lemma table_createMany_bound {P F} `{EqDecision P} (flag : F) (ps : list P)
    (t : list (JoinRow P F)) (n : Id) :
  first_of (table_createMany flag ps t n) ≤ length ps.
Proof.
  rewrite table_createMany_eq. unfold first_of. cbn [fst].
  apply (insert_skip_bound flag ps t n 0).
Qed.

Lemma table_createMany_length {P F} `{EqDecision P} (flag : F) (ps : list P)
    (t : list (JoinRow P F)) (n : Id) :
  length (table_of (table_createMany flag ps t n))
  = length t + first_of (table_createMany flag ps t n).
Proof.
  destruct (table_createMany_rows flag ps t n) as (ext & -> & _ & ->).
  by rewrite length_app.
Qed.


Lemma offer_entry_unresolved (ecLookup : gmap string Id) (centerDbId : Id)
    (st : list OfferPair * nat) (codes : list string) :
  snd (foldl (offer_entry ecLookup centerDbId) st codes)
  = snd st + length (filter (fun code => ecLookup !! code = None) codes).
Proof.
  revert st. induction codes as [|c codes IH]; intros st; cbn [foldl]; [cbn; lia|].
  rewrite IH, filter_cons. unfold offer_entry.
  destruct (ecLookup !! c) as [ecId|] eqn:El.
  - rewrite decide_False by done. done.
  - rewrite decide_True by done. cbn [snd length]. lia.
Qed.

Lemma offer_collect_unresolved (ecLookup centerLookup : gmap string Id)
    (st : list OfferPair * nat) (registry : list ExtractedCenter) :
  snd (foldl (offer_collect ecLookup centerLookup) st registry)
  = snd st + length (filter (fun code => ecLookup !! code = None)
                            (offered_codes centerLookup registry)).
Proof.
  revert st. induction registry as [|center registry IH]; intros st; cbn [foldl];
    [cbn; lia|].
  rewrite IH. unfold offered_codes. rewrite filter_cons. unfold offer_collect.
  destruct (centerLookup !! center_id center) as [centerDbId|] eqn:El.
  - rewrite decide_True by done. cbn [flat_map].
    rewrite offer_entry_unresolved, filter_app, length_app. lia.
  - rewrite decide_False by (intros [? ?]; done). done.
Qed.

(** X6.  The accounting of the offering pass.  Unlike the accreditation
    pass it keeps the counter of unresolved codes: created and skipped sum
    to the number of codes listed by the centers that the store holds, and
    the skipped count is at least the number of those codes that name no
    standard of the store.  The table grows by exactly the created
    count. *)
Theorem seedCenterOfferings_accounting (registry : list ExtractedCenter) (db : Store) :
  let result := fst (seedCenterOfferings registry db) in
  let db' := snd (seedCenterOfferings registry db) in
  let ecLookup := index_rows ∅ (renecEC db) in
  let centerLookup := index_rows ∅ (renecCenter db) in
  (Z.of_nat (created result) + skipped result
   = Z.of_nat (length (offered_codes centerLookup registry)))%Z
  ∧ (Z.of_nat (length (filter (fun code => ecLookup !! code = None)
                              (offered_codes centerLookup registry)))
     ≤ skipped result)%Z
  ∧ length (renecCenterOffering db')
    = length (renecCenterOffering db) + created result
  ∧ renecCenterOffering db `prefix_of` renecCenterOffering db'.
Proof.
  cbn zeta. rewrite seedCenterOfferings_spec. cbn [fst snd created skipped].
  set (ecLookup := index_rows ∅ (renecEC db)).
  set (centerLookup := index_rows ∅ (renecCenter db)).
  set (pairs := offer_pairs ecLookup centerLookup registry).
  pose proof (table_createMany_bound true pairs (renecCenterOffering db) (nextId db)) as Hb.
  pose proof (table_createMany_length true pairs (renecCenterOffering db) (nextId db)) as Hl.
  pose proof (table_createMany_prefix true pairs (renecCenterOffering db) (nextId db)) as Hp.
  destruct (offer_collect_pairs ecLookup centerLookup ([], 0) registry)
    as (ext & E1 & _ & E3).
  pose proof (offer_collect_unresolved ecLookup centerLookup ([], 0) registry) as Hu.
  cbn [fst snd app] in E1, E3, Hu.
  assert (length pairs = length ext) as Hpairs by (unfold pairs, offer_pairs; by rewrite E1).
  change (renecCenterOffering (write prisma.renecCenterOffering ?t ?n db)) with t.
  repeat apply conj; try done; try lia.
Qed.

(** ** The batching loop *)

Lemma forBatches_from_fold {A S} (body : nat → list A → S → M S)
    (fuel size i : nat) (items : list A) (acc : S) (db : Store) :
  forBatches_from fuel size i items body acc db
  = foldl (fun st b => body (fst b) (snd b) (fst st) (snd st)) (acc, db)
          (batches_from fuel size i items).
Proof.
  revert i acc db. induction fuel as [|fuel IH]; intros i acc db;
    cbn [forBatches_from batches_from]; [done|].
  destruct (i <? length items); [|done].
  rewrite bind_eq, IH. cbn [foldl fst snd]. 
  by destruct (body i (slice i (i + size) items) acc db).
Qed.

Lemma batches_from_concat {A} (fuel size i : nat) (items : list A) :
  0 < size → length items ≤ i + fuel →
  concat (map snd (batches_from fuel size i items)) = drop i items.
Proof.
  intros Hsize. revert i. induction fuel as [|fuel IH]; intros i Hlen;
    cbn [batches_from].
  - rewrite drop_ge by lia. done.
  - destruct (Nat.ltb_spec i (length items)) as [Hi|Hi].
    + cbn [map concat snd]. rewrite IH by lia. unfold slice.
      replace (i + size - i) with size by lia.
      rewrite <- (take_drop size (drop i items)) at 2.
      by rewrite drop_drop.
    + rewrite drop_ge by lia. done.
Qed.

Lemma batches_from_shape {A} (fuel size i : nat) (items : list A) :
  0 < size →
  Forall (fun b => fst b < length items
                   ∧ snd b = slice (fst b) (fst b + size) items
                   ∧ 0 < length (snd b) ≤ size)
         (batches_from fuel size i items).
Proof.
  intros Hsize. revert i. induction fuel as [|fuel IH]; intros i; cbn [batches_from].
  - constructor.
  - destruct (Nat.ltb_spec i (length items)) as [Hi|Hi]; [|constructor].
    apply Forall_cons_2; [|apply IH]. cbn [fst snd]. split; [done|]. split; [done|].
    unfold slice. rewrite length_take, length_drop. lia.
Qed.

(** X7.  The batching loop, for a positive batch size: running a body
    over the items in batches is folding it over the list of batches with
    their offsets; the batches, in order, concatenate to the items, so
    every item is handed over exactly once; each batch is the slice at its
    offset, is not empty and has at most [size] items. *)
Theorem forBatches_partition {A} (size : nat) (items : list A) :
  0 < size →
  (∀ S (body : nat → list A → S → M S) (acc : S) (db : Store),
     forBatches size items body acc db
     = foldl (fun st b => body (fst b) (snd b) (fst st) (snd st)) (acc, db)
             (batches size items))
  ∧ concat (map snd (batches size items)) = items
  ∧ Forall (fun b => fst b < length items
                     ∧ snd b = slice (fst b) (fst b + size) items
                     ∧ 0 < length (snd b) ≤ size)
           (batches size items).
Proof.
  intros Hsize. split; [|split].
  - intros S body acc db. apply forBatches_from_fold.
  - unfold batches. rewrite batches_from_concat by (done || lia). done.
  - by apply batches_from_shape.
Qed.

Lemma forBatches_partition_witness :
  0 < 2
  ∧ map snd (batches 2 [10; 20; 30; 40; 50]) = [[10; 20]; [30; 40]; [50]]
  ∧ concat (map snd (batches 2 [10; 20; 30; 40; 50])) = [10; 20; 30; 40; 50].
Proof.
  split; [lia|]. split; [reflexivity|].
  exact (proj1 (proj2 (forBatches_partition 2 [10; 20; 30; 40; 50] (Nat.lt_0_succ 1)))).
Defined.

(** ** The sector step *)












(** ** The standards step *)

Lemma ec_kvs_keys (data : ExtractedEC → ECData) (ecs : list ExtractedEC) (k : string) :
  k ∈ map fst (ec_kvs data ecs) ↔ k ≠ EmptyString ∧ ∃ ec, ec ∈ ecs ∧ codigo ec = k.
Proof.
  unfold ec_kvs. rewrite map_map. cbn [fst]. split.
  - intros Hk. apply list_elem_of_fmap in Hk as (ec & -> & Hin).
    apply list_elem_of_filter in Hin as [Ht Hin].
    split; [|by exists ec]. intros E. by rewrite E in Ht.
  - intros (Hne & ec & Hin & <-). apply list_elem_of_fmap_2.
    apply list_elem_of_filter. split; [|done]. by destruct (codigo ec).
Qed.

Lemma table_upsert_length {K D} `{EqDecision K} (k : K) (d : D) (now : Date)
    (t : list (Row K D)) (n : Id) :
  length (table_of (table_upsert k d now t n))
  = length t + (if decide (k ∈ map row_key t) then 0 else 1).
Proof.
  destruct (decide (k ∈ map row_key t)) as [Hk|Hk].
  - rewrite table_upsert_found by done. cbn. rewrite length_map. lia.
  - rewrite table_upsert_new by done. cbn. by rewrite length_app.
Qed.

Lemma upsert_all_length {K D} `{EqDecision K} (kvs : list (K * D)) (now : Date)
    (t : list (Row K D)) (n : Id) :
  length t ≤ length (table_of (upsert_all kvs now t n)) ≤ length t + length kvs.
Proof.
  revert t n. induction kvs as [|kv kvs IH]; intros t n.
  - cbn. lia.
  - assert (table_of (upsert_all (kv :: kvs) now t n)
            = table_of (upsert_all kvs now
                          (table_of (table_upsert (fst kv) (snd kv) now t n))
                          (next_of (table_upsert (fst kv) (snd kv) now t n)))) as ->
      by (by rewrite upsert_all_cons).
    pose proof (table_upsert_length (fst kv) (snd kv) now t n) as Hl.
    specialize (IH (table_of (table_upsert (fst kv) (snd kv) now t n))
                   (next_of (table_upsert (fst kv) (snd kv) now t n))).
    cbn [length]. destruct (decide (fst kv ∈ map row_key t)); lia.
Qed.

(** X10.  The standards step reports the number of records it was given
    as created, records without a code included, and never reports an
    update or a skip; the codes of the table it leaves are the codes from
    before and the non-empty codes of the records, so a record without a
    code writes nothing; the table grows by at most the reported count;
    and the rows from before keep their place, code and identity. *)
Theorem seedECStandards_counts_and_keys (ecStandards : list ExtractedEC)
    (committees : list ExtractedCommittee)
    (details : option (list (string * ECDetail)))
    (sectorLookup : gmap Z Id) (committeeLookup : gmap string Id)
    (now : Date) (db : Store) :
  let res := seedECStandards ecStandards committees details sectorLookup committeeLookup
                             now None db in
  let result := fst (fst res) in
  let db' := snd res in
  ec_created result = length ecStandards
  ∧ ec_updated result = 0
  ∧ ec_skipped result = 0
  ∧ (∀ k, k ∈ map row_key (renecEC db')
          ↔ k ∈ map row_key (renecEC db)
            ∨ (k ≠ EmptyString ∧ ∃ ec, ec ∈ ecStandards ∧ codigo ec = k))
  ∧ length (renecEC db') ≤ length (renecEC db) + ec_created result
  ∧ map kid (renecEC db) `prefix_of` map kid (renecEC db').
Proof.
  cbn zeta. rewrite seedECStandards_spec. cbn [fst snd ec_created ec_updated ec_skipped].
  change (renecEC (write prisma.renecECOccupation ?t' ?n' (write prisma.renecEC ?t ?n db)))
    with t.
  set (data := ecData committees details sectorLookup committeeLookup _).
  split; [done|]. split; [done|]. split; [done|]. split; [|split].
  - intros k. by rewrite upsert_all_keys, ec_kvs_keys.
  - pose proof (upsert_all_length (ec_kvs data ecStandards) now (renecEC db) (nextId db))
      as [_ Hl].
    etrans; [exact Hl|]. apply Nat.add_le_mono_l.
    unfold ec_kvs. rewrite length_map. apply length_filter.
  - apply upsert_all_prefix.
Qed.




(** ** The summary and the descriptive counts *)

Lemma tally_split (results : list ValidationResult) :
  tally PASS results + tally WARN results + tally FAIL results = length results.
Proof.
  unfold tally. induction results as [|r results IH]; [done|].
  rewrite !filter_cons. cbn [length].
  destruct (vstatus r); repeat case_decide; try done; cbn [length]; lia.
Qed.

(** X13.  The summary of the validator.  There are always sixteen
    checks, each counted once as passed, warned or failed; the exit status
    is 0 exactly when none failed, that is when passed and warned make up
    all sixteen; at most ten checks can warn, the six integrity checks
    never do; and the total of records is the sum of the nine table
    sizes. *)
Theorem summary_spec (db : Store) :
  let '(passed, warned, failed) := summary db in
  passed + warned + failed = 16
  ∧ length (validation_results db) = 16
  ∧ (validate_exit db = 0 ↔ failed = 0)
  ∧ (validate_exit db = 0 ↔ passed + warned = 16)
  ∧ warned ≤ 10
  ∧ totalRecords db
    = Z.of_nat (length (renecEC db) + length (renecCertifier db) + length (renecCenter db)
                + length (renecAccreditation db) + length (renecCenterOffering db)
                + length (renecSector db) + length (renecCommittee db)
                + length (renecECOccupation db) + length (renecSyncJob db)).
Proof.
  unfold summary.
  pose proof (tally_split (validation_results db)) as Hs.
  assert (length (validation_results db) = 16) as Hl by reflexivity.
  assert (validate_exit db = 0 ↔ tally FAIL (validation_results db) = 0) as Hx.
  { unfold validate_exit. destruct (Nat.ltb_spec 0 (tally FAIL (validation_results db)));
      split; intros; (done || lia). }
  assert (tally WARN (integrity_checks db) = 0) as Hw.
  { unfold tally. apply filter_length_0. intros r Hr.
    unfold integrity_checks in Hr.
    repeat (apply elem_of_cons in Hr as [-> | Hr];
            [rewrite integrity_check_status; by case_decide|]).
    by apply elem_of_nil in Hr. }
  assert (tally WARN (validation_results db) ≤ 10) as Hw10.
  { unfold validation_results, tally in *. rewrite !filter_app, !length_app, Hw.
    pose proof (length_filter (fun r => vstatus r = WARN) (map count_check (counts db))).
    pose proof (length_filter (fun r => vstatus r = WARN) [format_check db]).
    cbn [length map counts] in *. lia. }
  split; [lia|]. split; [done|]. split; [done|]. split; [rewrite Hx; lia|].
  split; [done|].
  unfold totalRecords, counts, row_count. cbn [foldl fst snd]. lia.
Qed.

Lemma count_distinct_bound (column ids : list Id) :
  (∀ i, i ∈ column → i ∈ ids) → count_distinct column ≤ length ids.
Proof.
  intros Hsub. unfold count_distinct.
  apply submseteq_length, NoDup_submseteq; [apply NoDup_remove_dups|].
  intros i Hi. rewrite elem_of_remove_dups in Hi. by apply Hsub.
Qed.

Lemma refers_ids {K D} (i : Id) (t : list (Row K D)) : refers i t ↔ i ∈ map row_id t.
Proof.
  unfold refers. rewrite list_elem_of_fmap. split.
  - intros (r & ? & ?). by exists r.
  - intros (r & ? & ?). by exists r.
Qed.

(** X14.  When the accreditation integrity check counts no orphan, the
    coverage figures are within their totals: the standards with an
    accreditation are at most the standards, the certifiers with an
    accreditation at most the certifiers; and neither figure exceeds the
    number of accreditations. *)
Theorem accreditation_coverage_bounded (db : Store) :
  orphanedAccreditations db = 0 →
  ecsWithAcc db ≤ length (renecEC db)
  ∧ certsWithAcc db ≤ length (renecCertifier db)
  ∧ ecsWithAcc db ≤ length (renecAccreditation db)
  ∧ certsWithAcc db ≤ length (renecAccreditation db).
Proof.
  intros Horph. rewrite orphanedAccreditations_0 in Horph.
  unfold ecsWithAcc, certsWithAcc. repeat apply conj.
  - rewrite <- (length_map row_id). apply count_distinct_bound.
    intros i Hi. apply list_elem_of_fmap in Hi as (a & -> & Ha).
    apply refers_ids. by apply Horph.
  - rewrite <- (length_map row_id). apply count_distinct_bound.
    intros i Hi. apply list_elem_of_fmap in Hi as (a & -> & Ha).
    apply refers_ids. by apply Horph.
  - rewrite <- (length_map (fun a => acc_ecId (join_pair a)) (renecAccreditation db)).
    by apply count_distinct_bound.
  - rewrite <- (length_map (fun a => acc_certifierId (join_pair a))
                           (renecAccreditation db)).
    by apply count_distinct_bound.
Qed.

Lemma accreditation_coverage_bounded_witness :
  orphanedAccreditations store_small = 0
  ∧ length (renecAccreditation store_small) = 1
  ∧ ecsWithAcc store_small ≤ length (renecEC store_small).
Proof.
  assert (orphanedAccreditations store_small = 0) as H by (vm_compute; reflexivity).
  split; [exact H|]. split; [vm_compute; reflexivity|].
  exact (proj1 (accreditation_coverage_bounded store_small H)).
Defined.

(** ** Upserts: the last record of a key wins *)

Lemma last_filter_cons {A} (P : A → Prop) `{∀ x, Decision (P x)} (x : A) (l : list A) :
  last (filter P (x :: l))
  = match last (filter P l) with
    | Some y => Some y
    | None => if decide (P x) then Some x else None
    end.
Proof.
  rewrite filter_cons. destruct (decide (P x)); [|by destruct (last _)].
  destruct (filter P l) as [|y l'] eqn:E; [done|].
  rewrite last_cons_cons. destruct (last (y :: l')) eqn:El; [done|].
  by apply last_None in El.
Qed.

Lemma final_map_last {A K D} `{EqDecision K} (kf : A → K) (df : A → D)
    (items : list A) (k : K) :
  final (map (fun x => (kf x, df x)) items) k
  = df <$> last (filter (fun x => kf x = k) items).
Proof.
  induction items as [|x items IH]; [done|].
  cbn [map final fst snd]. rewrite IH, last_filter_cons.
  destruct (last (filter _ items)); [done|]. cbn.
  by destruct (decide (kf x = k)).
Qed.



Lemma filter_code_truthy (ecs : list ExtractedEC) (k : string) :
  k ≠ EmptyString →
  filter (fun e => codigo e = k) (filter (fun ec => JS.truthy (codigo ec) = true) ecs)
  = filter (fun e => codigo e = k) ecs.
Proof.
  intros Hk. induction ecs as [|ec ecs IH]; [done|].
  rewrite (filter_cons (fun ec => JS.truthy (codigo ec) = true)).
  destruct (decide (JS.truthy (codigo ec) = true)) as [Ht|Ht].
  - rewrite !filter_cons, IH. done.
  - rewrite IH, filter_cons. rewrite decide_False; [done|].
    intros E. apply Ht. rewrite E. by destruct k.
Qed.

(** The rows of the standards table after the standards step. *)
Lemma standards_rows (ecs : list ExtractedEC) (data : ExtractedEC → ECData)
    (now : Date) (t : list (Row string ECData)) (n : Id) (r : Row string ECData) :
  r ∈ table_of (upsert_all (ec_kvs data ecs) now t n) →
  (r ∈ t ∧ (row_key r = EmptyString
            ∨ last (filter (fun e => codigo e = row_key r) ecs) = None))
  ∨ (row_key r ≠ EmptyString
     ∧ ∃ ec, last (filter (fun e => codigo e = row_key r) ecs) = Some ec
             ∧ row_data r = data ec ∧ lastSyncedAt r = now).
Proof.
  intros Hr. apply upsert_all_rows in Hr as [[Hr Hn] | (kv & Hkv & Hk & _ & Hnow & Hf)].
  - left. split; [done|].
    destruct (decide (row_key r = EmptyString)) as [?|Hne]; [by left|]. right.
    rewrite ec_kvs_keys in Hn.
    destruct (last (filter (fun e => codigo e = row_key r) ecs)) as [ec|] eqn:El; [|done].
    exfalso. apply Hn. split; [done|]. exists ec.
    apply last_Some_elem_of, list_elem_of_filter in El. by destruct El.
  - right.
    assert (row_key r ≠ EmptyString) as Hne.
    { assert (row_key r ∈ map fst (ec_kvs data ecs)) as Hin
        by (rewrite <- Hk; by apply list_elem_of_fmap_2).
      by apply ec_kvs_keys in Hin as [? _]. }
    split; [done|]. unfold ec_kvs in Hf.
    rewrite final_map_last, filter_code_truthy in Hf by done.
    destruct (last _) as [ec|]; [|done]. cbn in Hf. injection Hf as Hf.
    by exists ec.
Qed.


Lemma count_where_all {K D} (p : D → bool) (t : list (Row K D)) :
  count_where p t = length t ↔ ∀ r, r ∈ t → p (row_data r) = true.
Proof.
  unfold count_where. induction t as [|r t IH]; [cbn; split; [|done] |].
  { intros _ r Hr. by apply elem_of_nil in Hr. }
  rewrite filter_cons. pose proof (length_filter (fun r => p (row_data r) = true) t) as Hle.
  destruct (decide (p (row_data r) = true)) as [Hp|Hp]; cbn [length].
  - split.
    + intros E r' Hr'. apply elem_of_cons in Hr' as [->|Hr']; [done|].
      apply IH; [lia | done].
    + intros Hall. f_equal. apply IH. intros r' Hr'. apply Hall. by right.
  - split; [lia|]. intros Hall. exfalso. apply Hp, Hall. left.
Qed.

Lemma count_where_none {K D} (p : D → bool) (t : list (Row K D)) :
  count_where p t = 0 ↔ ∀ r, r ∈ t → p (row_data r) = false.
Proof.
  unfold count_where. rewrite filter_length_0. split; intros Hall r Hr.
  - specialize (Hall r Hr). by destruct (p (row_data r)).
  - rewrite (Hall r Hr). done.
Qed.

Lemma main_ec_rows (dataDir : option DataDir) (startTime now : Date) (db : Store)
    (r : Row string ECData) :
  r ∈ renecEC (snd (main dataDir startTime now db)) →
  r ∈ renecEC db
  ∨ (e_vigente (row_data r) = true ∧ e_proposito (row_data r) = None
     ∧ lastSyncedAt r = now).
Proof.
  rewrite main_spec.
  destruct dataDir as [dir|]; [|by left].
  destruct (loadJsonFile (ec_standards_api dir)) as [[|ec ecs]|]; [by left| |by left].
  cbn [snd]. unfold record_run, run_store, steps_store.
  cbn [set_nextId put_renecSyncJob renecEC]. unfold u_standards.
  intros Hr. apply standards_rows in Hr as [[Hr _] | (Hne & e & _ & -> & Hnow)];
    [by left | by right].
Qed.

(** X17.  The completeness figures after a run.  If every standard of
    the store is marked as current and none has a purpose text, which is
    so for an empty store, the same holds after any run: the validator
    reports all standards as current and none with a purpose.  The other
    figures are at most the number of standards. *)
Theorem completeness_after_seed (dataDir : option DataDir) (startTime now : Date)
    (db : Store) :
  ecsVigente db = length (renecEC db) →
  ecsWithProposito db = 0 →
  let db' := snd (main dataDir startTime now db) in
  ecsVigente db' = length (renecEC db')
  ∧ ecsWithProposito db' = 0
  ∧ ecsWithSector db' ≤ length (renecEC db')
  ∧ ecsWithLevel db' ≤ length (renecEC db')
  ∧ ecsWithCommitteeId db' ≤ length (renecEC db')
  ∧ ecsWithSectorId db' ≤ length (renecEC db').
Proof.
  unfold ecsVigente, ecsWithProposito, ecsWithSector, ecsWithLevel, ecsWithCommitteeId,
    ecsWithSectorId.
  rewrite count_where_all, count_where_none. intros Hv Hp. cbn zeta.
  rewrite count_where_all, count_where_none.
  split; [|split; [|repeat split; apply length_filter]].
  - intros r Hr. apply main_ec_rows in Hr as [Hr | (? & _)]; [by apply Hv | done].
  - intros r Hr. apply main_ec_rows in Hr as [Hr | (_ & E & _)]; [by apply Hp|].
    by rewrite E.
Qed.

Lemma completeness_after_seed_witness :
  ecsVigente emptyStore = length (renecEC emptyStore)
  ∧ ecsWithProposito emptyStore = 0
  ∧ ecsVigente store_small = length (renecEC store_small)
  ∧ ecsWithProposito store_small = 0.
Proof.
  split; [reflexivity|]. split; [reflexivity|].
  destruct (completeness_after_seed (Some small_extract) 0%Z 1%Z emptyStore
              eq_refl eq_refl) as (Hv & Hp & _).
  split; [exact Hv | exact Hp].
Defined.

(** ** The committee step *)



(** ** Seeding, then validating *)







(** ** The ledger total *)









(** ** The committee snapshot of a standard *)




(** ** The format check after a run *)




(** ** The verdicts after seeding again *)

Lemma fmap_eq_Forall2 {A B} (f : A → B) (l1 l2 : list A) :
  map f l1 = map f l2 → Forall2 (fun a b => f a = f b) l1 l2.
Proof.
  revert l2. induction l1 as [|a l1 IH]; intros [|b l2] E; try done.
  injection E as E1 E2. constructor; [done | by apply IH].
Qed.

Lemma filter_length_Forall2 {A B} (P : A → Prop) (Q : B → Prop)
    `{∀ x, Decision (P x)} `{∀ x, Decision (Q x)} (l1 : list A) (l2 : list B) :
  Forall2 (fun a b => P a ↔ Q b) l1 l2 → length (filter P l1) = length (filter Q l2).
Proof.
  induction 1 as [|a b l1 l2 Hab _ IH]; [done|].
  rewrite !filter_cons. destruct (decide (P a)), (decide (Q b)); cbn [length]; tauto || lia.
Qed.

Lemma has_id_untimed {K D} (i : Id) (t1 t2 : list (Row K D)) :
  map untimed t1 = map untimed t2 → has_id i t1 = has_id i t2.
Proof.
  intros E. apply fmap_eq_Forall2 in E. unfold has_id.
  induction E as [|a b l1 l2 Hab _ IH]; [done|].
  cbn [existsb]. rewrite IH. f_equal. unfold untimed in Hab. by injection Hab as -> _ _.
Qed.

Lemma tally_vstatus (st : CheckStatus) (r1 r2 : list ValidationResult) :
  map vstatus r1 = map vstatus r2 → tally st r1 = tally st r2.
Proof.
  intros E. unfold tally. apply filter_length_Forall2.
  eapply Forall2_impl; [exact (fmap_eq_Forall2 _ _ _ E)|]. cbn. by intros a b ->.
Qed.

(** The verdicts read the entity tables only through identities, keys and
    columns, never through the time of the last sync. *)
Lemma verdicts_untimed (db1 db2 : Store) :
  same_entities db1 db2 → same_joins db1 db2 →
  count_status (row_count (renecSyncJob db1)) 1 = count_status (row_count (renecSyncJob db2)) 1 →
  map vstatus (validation_results db1) = map vstatus (validation_results db2).
Proof.
  intros (E1 & E2 & E3 & E4 & E5) (J1 & J2 & J3) Hs.
  assert (∀ K D (t1 t2 : list (Row K D)),
            map untimed t1 = map untimed t2 → row_count t1 = row_count t2) as Hlen.
  { intros K D t1 t2 E. unfold row_count. f_equal.
    by rewrite <- (length_map untimed t1), E, length_map. }
  unfold validation_results. rewrite !map_app. f_equal; [|f_equal].
  - unfold counts. cbn [map count_check vstatus fst snd].
    rewrite (Hlen _ _ _ _ E1), (Hlen _ _ _ _ E2), (Hlen _ _ _ _ E3), (Hlen _ _ _ _ E4),
      (Hlen _ _ _ _ E5), J1, J2, J3, Hs. done.
  - cbn [map]. f_equal. unfold format_check, invalidCodes.
    rewrite (filter_length_Forall2 _
               (fun ec => negb (Regex.test ecCodeRegex (row_key ec)) = true)
               (renecEC db1) (renecEC db2)); [done|].
    eapply Forall2_impl; [exact (fmap_eq_Forall2 _ _ _ E3)|]. cbn.
    intros a b Hab. unfold untimed in Hab. by injection Hab as _ -> _.
  - unfold integrity_checks, integrity_check. cbn [map vstatus].
    assert (orphanedAccreditations db1 = orphanedAccreditations db2) as ->.
    { unfold orphanedAccreditations. rewrite J2.
      apply filter_length_Forall2, Forall_Forall2_diag, Forall_forall. intros a _.
      by rewrite (has_id_untimed _ _ _ E3), (has_id_untimed _ _ _ E4). }
    assert (orphanedOfferings db1 = orphanedOfferings db2) as ->.
    { unfold orphanedOfferings. rewrite J3.
      apply filter_length_Forall2, Forall_Forall2_diag, Forall_forall. intros a _.
      by rewrite (has_id_untimed _ _ _ E3), (has_id_untimed _ _ _ E5). }
    assert (orphanedOccupations db1 = orphanedOccupations db2) as ->.
    { unfold orphanedOccupations. rewrite J1.
      apply filter_length_Forall2, Forall_Forall2_diag, Forall_forall. intros a _.
      by rewrite (has_id_untimed _ _ _ E3). }
    assert (orphanedEcCommittee db1 = orphanedEcCommittee db2) as ->.
    { unfold orphanedEcCommittee. apply filter_length_Forall2.
      eapply Forall2_impl; [exact (fmap_eq_Forall2 _ _ _ E3)|]. cbn.
      intros a b Hab. unfold untimed in Hab. injection Hab as _ _ ->.
      unfold dangling. destruct (e_committeeId (row_data b)); [|done].
      by rewrite (has_id_untimed _ _ _ E2). }
    assert (orphanedEcSector db1 = orphanedEcSector db2) as ->.
    { unfold orphanedEcSector. apply filter_length_Forall2.
      eapply Forall2_impl; [exact (fmap_eq_Forall2 _ _ _ E3)|]. cbn.
      intros a b Hab. unfold untimed in Hab. injection Hab as _ _ ->.
      unfold dangling. destruct (e_sectorId (row_data b)); [|done].
      by rewrite (has_id_untimed _ _ _ E1). }
    assert (orphanedCommSector db1 = orphanedCommSector db2) as ->.
    { unfold orphanedCommSector. apply filter_length_Forall2.
      eapply Forall2_impl; [exact (fmap_eq_Forall2 _ _ _ E2)|]. cbn.
      intros a b Hab. unfold untimed in Hab. injection Hab as _ _ ->.
      unfold dangling. destruct (c_sectorId (row_data b)); [|done].
      by rewrite (has_id_untimed _ _ _ E1). }
    done.
Qed.

Lemma count_status_ledger (n : nat) :
  count_status (Z.of_nat (S n)) 1 = PASS.
Proof. apply count_status_spec; lia. Qed.

(** X23.  Seeding again does not change what the validator says: after a
    second run over the same input directory every one of the sixteen
    checks has the status it had after the first run, so the summary and the
    exit status are the same.  (The second run adds a ledger row, which
    leaves the ledger count passing; the times of the last sync, which it
    renews, are read by no check.) *)
Theorem verdicts_stable_under_reseeding (dataDir : option DataDir)
    (start1 now1 start2 now2 : Date) (db : Store) :
  let db1 := snd (main dataDir start1 now1 db) in
  let db2 := snd (main dataDir start2 now2 db1) in
  map vstatus (validation_results db2) = map vstatus (validation_results db1)
  ∧ summary db2 = summary db1
  ∧ validate_exit db2 = validate_exit db1.
Proof.
  cbn zeta.
  assert (map vstatus (validation_results (snd (main dataDir start2 now2
                                                  (snd (main dataDir start1 now1 db)))))
          = map vstatus (validation_results (snd (main dataDir start1 now1 db)))) as Hv.
  { rewrite !main_spec.
    destruct dataDir as [dir|]; [|done].
    destruct (loadJsonFile (ec_standards_api dir)) as [[|ec ecs]|]; [done| |done].
    cbn [snd].
    set (db1 := record_run (run_stats dir (ec :: ecs) now1 db) start1 now1
                  (run_store dir (ec :: ecs) now1 db)).
    destruct (steps_store_again (ec :: ecs) (committees_in dir) (details_in dir)
                (default [] (certifiers_in dir)) (default [] (centers_in dir))
                (default [] (matrix_in dir)) now1 now2 db db1)
      as (He & Hj & _ & Hl); try reflexivity.
    fold (run_store dir (ec :: ecs) now2 db1) in He, Hj, Hl.
    symmetry. apply verdicts_untimed; [exact He | exact Hj |].
    assert (∀ stats s n d,
              renecSyncJob (record_run stats s n d)
              = renecSyncJob d ++ [ledger_row stats s n (nextId d)]) as Hr by done.
    rewrite Hr, Hl. unfold db1. rewrite Hr. unfold row_count.
    rewrite !length_app. cbn [length]. rewrite !Nat.add_1_r.
    by rewrite !count_status_ledger. }
  split; [exact Hv|].
  assert (∀ st, tally st (validation_results (snd (main dataDir start2 now2
                                                     (snd (main dataDir start1 now1 db)))))
                = tally st (validation_results (snd (main dataDir start1 now1 db)))) as Ht
    by (intros st; by apply tally_vstatus).
  split; [unfold summary; by rewrite !Ht|].
  unfold validate_exit. by rewrite Ht.
Qed.
